(** * Cloud-compliance MCP client: the tool-call orchestration loop

    A shallow embedding of [mcp-client/mcp_client.py] and
    [mcp-client/mcp_client_flask.py]: the catalog renderer
    [format_tools_for_llm], the free-text parser [parse_tool_call], the
    backend wrapper [call_mcp_tool], the LLM wrapper [call_llm] and the
    turn operations [process_message] and one iteration of [chat_loop].

    Python strings are sequences of Unicode code points; exceptions are
    values of an error monad; the LLM runtime, the backend session and the
    [json] library are parameters of the development. *)

From Stdlib Require Import Ascii String.
From Stdlib Require Import List ZArith NArith Lia Bool.
From Stdlib Require Import SpecFloat DecimalString.
Import ListNotations.

Set Implicit Arguments.
Set Warnings "-notation-for-abbreviation".

(** ** Python strings *)

Module Str.

(** A character is a Unicode code point, a [str] a list of them. *)
Definition char := N.
Definition str := list char.

(** ASCII literals of the source. *)
Definition lit (s : string) : str := map N_of_ascii (list_ascii_of_string s).

Definition nl : str := [10%N].          (* "\n" *)
Definition dq : str := [34%N].          (* the double quote *)
Definition lbrace : str := [123%N].     (* "{" *)
Definition rbrace : str := [125%N].     (* "}" *)

Fixpoint eqb (a b : str) : bool :=
  match a, b with
  | [], [] => true
  | x :: a', y :: b' => N.eqb x y && eqb a' b'
  | _, _ => false
  end.

(** [str.isspace] on one code point: the characters [str.strip()] removes
    (CPython's [_PyUnicode_IsWhitespace]). *)
Definition isspace (c : char) : bool :=
  ((9 <=? c) && (c <=? 13) || (28 <=? c) && (c <=? 32) ||
   (c =? 133) || (c =? 160) || (c =? 5760) ||
   (8192 <=? c) && (c <=? 8202) || (c =? 8232) || (c =? 8233) ||
   (c =? 8239) || (c =? 8287) || (c =? 12288))%N.

(** [s.lstrip()] and [s.rstrip()] *)
Fixpoint lstrip (s : str) : str :=
  match s with
  | [] => []
  | c :: s' => if isspace c then lstrip s' else s
  end.

Fixpoint rstrip (s : str) : str :=
  match s with
  | [] => []
  | c :: s' =>
      match rstrip s' with
      | [] => if isspace c then [] else [c]
      | r => c :: r
      end
  end.

(** [s.strip()] *)
Definition strip (s : str) : str := rstrip (lstrip s).

(** [s.startswith(p)] *)
Fixpoint startswith (p s : str) : bool :=
  match p, s with
  | [], _ => true
  | _ :: _, [] => false
  | x :: p', y :: s' => N.eqb x y && startswith p' s'
  end.

(** [s.partition(sep)] at the leftmost occurrence of [sep]; [None] when
    [sep] does not occur. *)
Fixpoint partition (sep s : str) : option (str * str) :=
  if startswith sep s then Some ([], skipn (length sep) s)
  else match s with
       | [] => None
       | c :: s' =>
           match partition sep s' with
           | Some (a, b) => Some (c :: a, b)
           | None => None
           end
       end.

(** [sub in s] *)
Definition contains (sub s : str) : bool :=
  match partition sub s with Some _ => true | None => false end.

(** [s.split(sep, maxsplit)] for a non-empty [sep] and [maxsplit >= 0]. *)
Fixpoint splitn (maxsplit : nat) (sep s : str) : list str :=
  match maxsplit with
  | O => [s]
  | S k =>
      match partition sep s with
      | None => [s]
      | Some (a, b) => a :: splitn k sep b
      end
  end.

(** [s.split(sep)]: no bound on the number of splits.  A non-empty
    separator occurs at most [len(s)] times, so that budget is never
    exhausted. *)
Definition split (sep s : str) : list str := splitn (length s) sep s.

End Str.
Import Str.

Declare Scope str_scope.
Delimit Scope str_scope with str.
Notation "a +++ b" := (@app char a b) (at level 60, right associativity) : str_scope.
Open Scope str_scope.

(** ** Exceptions and fallible computations *)

(** The exception classes the clients meet.  Every value of [exn] is an
    instance of Python's [Exception], which is what the handlers of the
    clients catch; [KeyboardInterrupt] and the like, which are not, stay
    outside the model.  [exn_str] is what [str(e)] gives. *)
Inductive exn_class : Type :=
| JSONDecodeError   (* json.JSONDecodeError, a subclass of ValueError *)
| ValueError
| IndexError
| AttributeError
| OtherError.

Record exn : Type := Exn { exn_kind : exn_class; exn_str : str }.

Inductive result (A : Type) : Type :=
| Ok (a : A)
| Raise (e : exn).
Arguments Ok {A} a.
Arguments Raise {A} e.

Definition is_JSONDecodeError (e : exn) : bool :=
  match exn_kind e with JSONDecodeError => true | _ => false end.

Definition rbind {A B} (m : result A) (k : A -> result B) : result B :=
  match m with
  | Ok a => k a
  | Raise e => Raise e
  end.

Notation "x <- m ;; k" := (rbind m (fun x => k))
  (at level 61, m at next level, right associativity).

(** [l[i]] for [i >= 0]: an [IndexError] out of range. *)
Definition index {A} (l : list A) (i : nat) : result A :=
  match nth_error l i with
  | Some x => Ok x
  | None => Raise (Exn IndexError (lit "list index out of range"))
  end.

(** ** JSON values, as [json.loads] builds them *)

#[warnings="-register-all"] Inductive json : Type :=
| JNull
| JBool (b : bool)
| JInt (z : Z)
| JFloat (f : spec_float)
| JStr (s : str)
| JList (l : list json)
| JDict (d : list (str * json)).   (* insertion-ordered, keys distinct *)

Definition empty_dict : json := JDict [].

(** Induction on JSON values, through the lists inside them. *)
Section JsonInduction.

Variable P : json -> Prop.
Hypothesis Hnull : P JNull.
Hypothesis Hbool : forall b, P (JBool b).
Hypothesis Hint : forall z, P (JInt z).
Hypothesis Hfloat : forall f, P (JFloat f).
Hypothesis Hstr : forall s, P (JStr s).
Hypothesis Hlist : forall l, Forall P l -> P (JList l).
Hypothesis Hdict : forall d, Forall (fun kv => P (snd kv)) d -> P (JDict d).

Fixpoint json_induction (v : json) : P v :=
  match v with
  | JNull => Hnull
  | JBool b => Hbool b
  | JInt z => Hint z
  | JFloat f => Hfloat f
  | JStr s => Hstr s
  | JList l =>
      Hlist ((fix all (l : list json) : Forall P l :=
                match l with
                | [] => Forall_nil P
                | x :: r => Forall_cons x (json_induction x) (all r)
                end) l)
  | JDict d =>
      Hdict ((fix all (d : list (str * json))
                : Forall (fun kv => P (snd kv)) d :=
                match d with
                | [] => Forall_nil _
                | kv :: r =>
                    Forall_cons kv (json_induction (snd kv)) (all r)
                end) d)
  end.

End JsonInduction.

(** ** The parser: [CloudComplianceClient.parse_tool_call] *)

Definition marker : str := lit "TOOL_CALL:".

Section Parser.

(** [json.loads] on a [str]: a value, or an exception. *)
Variable json_loads : str -> result json.

Definition parse_tool_call (llm_response : str)
  : result (option (str * json)) :=
  if contains marker llm_response then
    after <- index (splitn 1 marker llm_response) 1 ;;
    let parts := strip after in
    let lines := splitn 1 nl parts in
    line0 <- index lines 0 ;;
    let tool_line := strip line0 in
    if contains lbrace tool_line then
      head <- index (split lbrace tool_line) 0 ;;
      let tool_name := strip head in
      tail <- index (splitn 1 lbrace tool_line) 1 ;;
      let json_str := lbrace +++ tail in
      match json_loads json_str with
      | Ok arguments => Ok (Some (tool_name, arguments))
      | Raise e =>
          (* except json.JSONDecodeError: pass *)
          if is_JSONDecodeError e then Ok None else Raise e
      end
    else
      Ok (Some (tool_line, empty_dict))
  else Ok None.

(** The pieces of the text that [parse_tool_call] looks at. *)

Definition first_line (s : str) : str :=
  match partition nl s with
  | Some (a, _) => a
  | None => s
  end.

(** The tool-call line of a response: [None] without the marker. *)
Definition tool_call_line (llm_response : str) : option str :=
  match partition marker llm_response with
  | Some (_, after) => Some (strip (first_line (strip after)))
  | None => None
  end.

(** The text handed to [json.loads], when the line has a brace. *)
Definition json_text (tool_line : str) : option str :=
  match partition lbrace tool_line with
  | Some (_, tail) => Some (lbrace +++ tail)
  | None => None
  end.

(** What the parser makes of a tool-call line. *)
Definition parse_line (tool_line : str) : result (option (str * json)) :=
  match partition lbrace tool_line with
  | None => Ok (Some (tool_line, empty_dict))
  | Some (head, tail) =>
      match json_loads (lbrace +++ tail) with
      | Ok arguments => Ok (Some (strip head, arguments))
      | Raise e => if is_JSONDecodeError e then Ok None else Raise e
      end
  end.

End Parser.

(** Tool names of the shape [[A-Za-z_][A-Za-z0-9_]*]. *)
Definition is_alpha_ (c : char) : bool :=
  ((65 <=? c) && (c <=? 90) || (97 <=? c) && (c <=? 122) || (c =? 95))%N.
Definition is_alnum_ (c : char) : bool :=
  is_alpha_ c || ((48 <=? c) && (c <=? 57))%N.
Definition is_identifier (n : str) : bool :=
  match n with
  | [] => false
  | c :: n' => is_alpha_ c && forallb is_alnum_ n'
  end.


(** ** The catalog: [CloudComplianceClient.format_tools_for_llm] *)

(** A tool descriptor as the renderer reads it.  Values that only ever
    reach an f-string are kept as the text the f-string shows. *)

(** One entry of [schema['properties']]: the [param_info] dict. *)
Record ParamInfo : Type := {
  param_type : option str;          (* param_info['type'], if the key is there *)
  param_description : option str    (* param_info['description'] *)
}.

(** [tool.inputSchema], a dict. *)
Record Schema : Type := {
  properties : option (list (str * ParamInfo));  (* in insertion order *)
  required : option (list str);
  other_keys : bool                 (* some key besides these two *)
}.

Record Tool : Type := {
  name : str;
  description : str;
  inputSchema : option Schema       (* None: attribute missing or None *)
}.

(** Truth value of a dict: it has a key. *)
Definition schema_truthy (schema : Schema) : bool :=
  match properties schema, required schema with
  | None, None => other_keys schema
  | _, _ => true
  end.

(** [d.get(key, default)] on an optional field. *)
Definition get {A} (field : option A) (default : A) : A :=
  match field with Some v => v | None => default end.

(** [x in l] for a list of strings. *)
Definition str_in (x : str) (l : list str) : bool := existsb (Str.eqb x) l.

(** One round of the inner [for param_name, param_info in ...] loop. *)
Definition format_param (schema : Schema) (tools_description : str)
    (item : str * ParamInfo) : str :=
  let '(param_name, param_info) := item in
  let ptype := get (param_type param_info) (lit "string") in
  let param_desc := get (param_description param_info) [] in
  let is_required := str_in param_name (get (required schema) []) in
  let req_marker :=
    if is_required then lit " (required)" else lit " (optional)" in
  tools_description +++ lit "    - " +++ param_name +++ lit " (" +++ ptype
    +++ lit ")" +++ req_marker +++ lit ": " +++ param_desc +++ nl.

(** One round of the outer [for tool in tools] loop. *)
Definition format_tool (tools_description : str) (tool : Tool) : str :=
  let d1 := tools_description +++ lit "- **" +++ name tool +++ lit "**: "
              +++ description tool +++ nl in
  let d2 :=
    match inputSchema tool with
    | Some schema =>
        if schema_truthy schema then
          match properties schema with
          | Some props =>
              fold_left (format_param schema) props
                        (d1 +++ lit "  Parameters:" +++ nl)
          | None => d1
          end
        else d1
    | None => d1
    end in
  d2 +++ nl.

Definition format_tools_for_llm (tools : list Tool) : str :=
  fold_left format_tool tools (lit "Available tools:" +++ nl +++ nl).

(** The same text, tool by tool and line by line: what one parameter and
    one tool contribute to the catalog. *)
Definition render_param (schema : Schema) (item : str * ParamInfo) : str :=
  lit "    - " +++ fst item +++ lit " ("
    +++ get (param_type (snd item)) (lit "string") +++ lit ")"
    +++ (if str_in (fst item) (get (required schema) [])
         then lit " (required)" else lit " (optional)")
    +++ lit ": " +++ get (param_description (snd item)) [] +++ nl.

Definition render_params (tool : Tool) : str :=
  match inputSchema tool with
  | Some schema =>
      match properties schema with
      | Some props =>
          lit "  Parameters:" +++ nl +++ concat (map (render_param schema) props)
      | None => []
      end
  | None => []
  end.

Definition render_tool (tool : Tool) : str :=
  lit "- **" +++ name tool +++ lit "**: " +++ description tool +++ nl
    +++ render_params tool +++ nl.

(** ** Messages, backend replies and the client *)

Inductive Role : Type := user | assistant | system.

Record Message : Type := Msg { role : Role; content : str }.

(** One part of a reply's [content] list. *)
Record ContentPart : Type := {
  part_class : str;          (* the part's class name *)
  part_text : option str     (* its [text] attribute, when it has one *)
}.

Inductive ContentShape : Type :=
| IsList (parts : list ContentPart)
| NotList (truthy : bool).

(** [result.content]: its shape and what [str()] makes of it. *)
Record Content : Type := {
  shape : ContentShape;
  content_str : str
}.

(** What [session.call_tool] returns. *)
Record ToolReply : Type := {
  reply_content : option Content;   (* None: no [content] attribute *)
  reply_str : str                   (* str(result) *)
}.

Definition content_truthy (c : Content) : bool :=
  match shape c with
  | IsList parts => match parts with [] => false | _ :: _ => true end
  | NotList t => t
  end.

(** [part.text] *)
Definition get_text (p : ContentPart) : result str :=
  match part_text p with
  | Some t => Ok t
  | None =>
      Raise (Exn AttributeError
               (lit "'" +++ part_class p
                  +++ lit "' object has no attribute 'text'"))
  end.

Record Client : Type := {
  model_name : str;
  conversation_history : list Message;
  available_tools : list Tool
}.

(** What the client asks of its collaborators, in order: a record kept for
    the proofs, which the clients themselves never read. *)
Inductive Event : Type :=
| EvChat (model : str) (messages : list Message)
| EvCallTool (tool_name : str) (arguments : json).

(** ** The orchestrator *)

(** The text both clients put around the catalog to make the system
    prompt. *)
Definition system_prompt_for (tools_info : str) : str :=
  lit "You are a helpful cloud compliance assistant. You have access to tools that can check AWS cloud compliance and list resources."
  +++ nl +++ nl +++ tools_info +++ nl +++ nl
  +++ lit "When a user asks a question that requires using a tool, respond with:"
  +++ nl
  +++ lit "TOOL_CALL: tool_name {" +++ dq +++ lit "param1" +++ dq +++ lit ": "
  +++ dq +++ lit "value1" +++ dq +++ lit ", " +++ dq +++ lit "param2" +++ dq
  +++ lit ": " +++ dq +++ lit "value2" +++ dq +++ lit "}"
  +++ nl +++ nl
  +++ lit "For example:" +++ nl
  +++ lit "- If asked to list S3 buckets: TOOL_CALL: list_s3_buckets {}" +++ nl
  +++ lit "- If asked to check compliance: TOOL_CALL: check_resource_compliance {"
  +++ dq +++ lit "resourceType" +++ dq +++ lit ": " +++ dq +++ lit "storage"
  +++ dq +++ lit ", " +++ dq +++ lit "standard" +++ dq +++ lit ": " +++ dq
  +++ lit "SOC2" +++ dq +++ lit "}"
  +++ nl +++ nl
  +++ lit "After receiving tool results, provide a helpful natural language explanation to the user.".

Definition follow_up_prompt_for (tool_name tool_result : str) : str :=
  lit "The tool '" +++ tool_name +++ lit "' returned:" +++ nl +++ tool_result
  +++ nl +++ nl
  +++ lit "Please explain these results to the user in a helpful way.".

(** ASCII lower-casing.  [str.lower()] agrees with it on every string it
    maps to one of the words the loop compares with: no code point outside
    ASCII lower-cases to a letter of [exit], [quit] or [bye]. *)
Definition lower_char (c : char) : char :=
  if ((65 <=? c) && (c <=? 90))%N then (c + 32)%N else c.
Definition lower (s : str) : str := map lower_char s.

(** The [messages] list [call_llm] sends: the system prompt when it is not
    empty, the history, the new user message. *)
Definition messages_for (system_prompt : str) (history : list Message)
    (user_message : str) : list Message :=
  (match system_prompt with
   | [] => []
   | _ :: _ => [Msg system system_prompt]
   end)
  ++ map (fun msg => Msg (role msg) (content msg)) history
  ++ [Msg user user_message].

(** What one round of the console loop does. *)
Inductive Step : Type :=
| Exited                    (* break *)
| Skipped                   (* continue on an empty line *)
| Answered (shown : str)    (* the answer printed *)
| Failed (e : exn).         (* the except branch printed the error *)

Section Orchestrator.

Variable json_loads : str -> result json.

(** The collaborators: the Ollama runtime and the MCP session.  Each
    call sees the state of the outside world and may change it.
    [ollama_chat] stands for [ollama.chat(...)['message']['content']],
    all of it inside the [try]. *)
Variable World : Type.
Variable ollama_chat : str -> list Message -> World -> result str * World.
Variable session_call_tool : str -> json -> World -> result ToolReply * World.

Record State : Type := {
  client : Client;
  world : World;
  trace : list Event
}.

(** Methods of the client: state passing with exceptions. *)
Definition M (A : Type) : Type := State -> result A * State.

Definition ret {A} (a : A) : M A := fun st => (Ok a, st).

Definition bind {A B} (m : M A) (k : A -> M B) : M B :=
  fun st =>
    match m st with
    | (Ok a, st') => k a st'
    | (Raise e, st') => (Raise e, st')
    end.

Definition lift {A} (r : result A) : M A := fun st => (r, st).

(** [try: m  except Exception as e: handler e] *)
Definition try_except {A} (m : M A) (handler : exn -> M A) : M A :=
  fun st =>
    match m st with
    | (Ok a, st') => (Ok a, st')
    | (Raise e, st') => handler e st'
    end.

Notation "x <~ m ;; k" := (bind m (fun x => k))
  (at level 61, m at next level, right associativity).

(** [self.conversation_history.append(m)] *)
Definition append_history (m : Message) : M unit :=
  fun st =>
    let c := client st in
    (Ok tt,
     {| client := {| model_name := model_name c;
                     conversation_history := conversation_history c ++ [m];
                     available_tools := available_tools c |};
        world := world st;
        trace := trace st |}).

(** The two outside calls, each leaving its event in the trace. *)
Definition chat (messages : list Message) : M str :=
  fun st =>
    let model := model_name (client st) in
    let '(r, w) := ollama_chat model messages (world st) in
    (r, {| client := client st; world := w;
           trace := trace st ++ [EvChat model messages] |}).

Definition call_tool (tool_name : str) (arguments : json) : M ToolReply :=
  fun st =>
    let '(r, w) := session_call_tool tool_name arguments (world st) in
    (r, {| client := client st; world := w;
           trace := trace st ++ [EvCallTool tool_name arguments] |}).

(** [call_mcp_tool]: the same in both clients, up to logging and to where
    the session comes from (an argument in the console client, a field in
    the web client). *)
Definition call_mcp_tool (tool_name : str) (arguments : json) : M str :=
  try_except
    (reply <~ call_tool tool_name arguments ;;
     match reply_content reply with
     | Some c =>
         if content_truthy c then
           match shape c with
           | IsList (part :: _) => lift (get_text part)
           | _ => ret (content_str c)
           end
         else ret (reply_str reply)
     | None => ret (reply_str reply)
     end)
    (fun e =>
       ret (lit "Error calling tool " +++ tool_name +++ lit ": "
              +++ exn_str e)).

(** [call_llm] *)
Definition call_llm (user_message system_prompt : str) : M str :=
  fun st =>
    let messages :=
      messages_for system_prompt (conversation_history (client st))
                   user_message in
    try_except (chat messages)
      (fun e => ret (lit "Error calling LLM: " +++ exn_str e)) st.

(** [process_message], the turn of the web client.  The test
    [if tool_call:] is on [None] or a pair, and a pair is always true. *)
Definition process_message (user_message : str) : M str :=
  fun st =>
    let tools_info := format_tools_for_llm (available_tools (client st)) in
    let system_prompt := system_prompt_for tools_info in
    (llm_response <~ call_llm user_message system_prompt ;;
     tool_call <~ lift (parse_tool_call json_loads llm_response) ;;
     match tool_call with
     | Some (tool_name, arguments) =>
         tool_result <~ call_mcp_tool tool_name arguments ;;
         let follow_up_prompt := follow_up_prompt_for tool_name tool_result in
         final_response <~ call_llm follow_up_prompt system_prompt ;;
         _ <~ append_history (Msg user user_message) ;;
         _ <~ append_history (Msg assistant final_response) ;;
         ret final_response
     | None =>
         _ <~ append_history (Msg user user_message) ;;
         _ <~ append_history (Msg assistant llm_response) ;;
         ret llm_response
     end) st.

(** One round of the [while True] loop of [chat_loop], on the line that
    [input()] returned; [system_prompt] was built before the loop. *)
Definition chat_loop_iteration (system_prompt line : str)
  : State -> Step * State :=
  fun st =>
    let user_input := strip line in
    if str_in (lower user_input) [lit "exit"; lit "quit"; lit "bye"] then
      (Exited, st)
    else
      match user_input with
      | [] => (Skipped, st)
      | _ :: _ =>
          let body : M str :=
            llm_response <~ call_llm user_input system_prompt ;;
            tool_call <~ lift (parse_tool_call json_loads llm_response) ;;
            match tool_call with
            | Some (tool_name, arguments) =>
                tool_result <~ call_mcp_tool tool_name arguments ;;
                let follow_up_prompt :=
                  follow_up_prompt_for tool_name tool_result in
                final_response <~ call_llm follow_up_prompt system_prompt ;;
                _ <~ append_history (Msg user user_input) ;;
                _ <~ append_history (Msg assistant final_response) ;;
                ret final_response
            | None =>
                _ <~ append_history (Msg user user_input) ;;
                _ <~ append_history (Msg assistant llm_response) ;;
                ret llm_response
            end in
          match body st with
          | (Ok shown, st') => (Answered shown, st')
          | (Raise e, st') => (Failed e, st')
          end
      end.

(** The steps the two turn operations share, for the proofs: from the
    decision response on, and from the start. *)
Definition after_decision (system_prompt user_message llm_response : str)
  : M str :=
  tool_call <~ lift (parse_tool_call json_loads llm_response) ;;
  match tool_call with
  | Some (tool_name, arguments) =>
      tool_result <~ call_mcp_tool tool_name arguments ;;
      let follow_up_prompt := follow_up_prompt_for tool_name tool_result in
      final_response <~ call_llm follow_up_prompt system_prompt ;;
      _ <~ append_history (Msg user user_message) ;;
      _ <~ append_history (Msg assistant final_response) ;;
      ret final_response
  | None =>
      _ <~ append_history (Msg user user_message) ;;
      _ <~ append_history (Msg assistant llm_response) ;;
      ret llm_response
  end.

Definition turn (system_prompt user_message : str) : M str :=
  llm_response <~ call_llm user_message system_prompt ;;
  after_decision system_prompt user_message llm_response.

End Orchestrator.

(** ** The console session: [chat_loop]

    The loop of [mcp_client.py] on the lines the user types.  The
    connection is up: [tools] is what [session.list_tools()] returned.  The
    banner and the other [print]s are left out; what a round shows of the
    turn is its [Step]. *)

(** What [input()] gives one round of the loop: a line; an [Exception],
    such as the [EOFError] at the end of the input; or a
    [KeyboardInterrupt] while the prompt waits (one raised later in the
    round is outside the model). *)
Inductive Input : Type :=
| Line (text : str)
| InputError (e : exn)
| Interrupt.

Definition is_answered (s : Step) : bool :=
  match s with Answered _ => true | _ => false end.

Definition is_user (r : Role) : bool :=
  match r with user => true | _ => false end.
Definition is_assistant (r : Role) : bool :=
  match r with assistant => true | _ => false end.

(** A history made of whole exchanges: a [user] message, then the
    [assistant]'s, and so on. *)
Fixpoint exchanges (h : list Message) : bool :=
  match h with
  | [] => true
  | m1 :: m2 :: rest =>
      is_user (role m1) && is_assistant (role m2) && exchanges rest
  | _ => false
  end.

(** What a session adds to the history: for every line whose round showed
    an answer, the trimmed line and the answer. *)
Fixpoint transcript (inputs : list Input) (steps : list Step)
  : list Message :=
  match inputs, steps with
  | Line text :: inputs', Answered shown :: steps' =>
      Msg user (strip text) :: Msg assistant shown
        :: transcript inputs' steps'
  | _ :: inputs', _ :: steps' => transcript inputs' steps'
  | _, _ => []
  end.

(** The utterances a history holds: the contents of its [user] messages. *)
Definition utterances (h : list Message) : list str :=
  map content (filter (fun m => is_user (role m)) h).

Section Console.

Variable json_loads : str -> result json.
Variable World : Type.
Variable ollama_chat : str -> list Message -> World -> result str * World.
Variable session_call_tool : str -> json -> World -> result ToolReply * World.

(** [self.available_tools = tools_result.tools] *)
Definition set_available_tools (tools : list Tool) (st : State World)
  : State World :=
  {| client := {| model_name := model_name (client st);
                  conversation_history := conversation_history (client st);
                  available_tools := tools |};
     world := world st;
     trace := trace st |}.

(** One round of the [while True] loop, [input()] included: an
    [Exception] of [input()] reaches the same [except] branch as one of
    the turn, a [KeyboardInterrupt] ends the loop. *)
Definition chat_loop_round (system_prompt : str) (i : Input)
    (st : State World) : Step * State World :=
  match i with
  | Line text =>
      chat_loop_iteration json_loads ollama_chat session_call_tool
                          system_prompt text st
  | InputError e => (Failed e, st)
  | Interrupt => (Exited, st)
  end.

(** The loop on the inputs it is given, until it breaks: the steps it
    takes and the state it leaves. *)
Fixpoint chat_loop_rounds (system_prompt : str) (inputs : list Input)
    (st : State World) : list Step * State World :=
  match inputs with
  | [] => ([], st)
  | i :: rest =>
      let '(step, st') := chat_loop_round system_prompt i st in
      match step with
      | Exited => ([Exited], st')
      | _ =>
          let '(steps, st'') := chat_loop_rounds system_prompt rest st' in
          (step :: steps, st'')
      end
  end.

(** [chat_loop], from the tool listing on: the system prompt is built
    once, before the first round. *)
Definition chat_loop (tools : list Tool) (inputs : list Input)
    (st : State World) : list Step * State World :=
  let st0 := set_available_tools tools st in
  let tools_info := format_tools_for_llm (available_tools (client st0)) in
  let system_prompt := system_prompt_for tools_info in
  chat_loop_rounds system_prompt inputs st0.

End Console.

(** ** The web route: [chat] of [mcp_client_flask.py]

    The handler of [POST /chat] on the body [request.json] delivered.  The
    body is any JSON value; the reply is the pair of the [response] field
    and the status code.  [future.result(timeout=300)] is taken to deliver
    the outcome of the turn, which ends within the time limit, and requests
    are handled one at a time.

    The handler passes on any message that is true, a string or not.
    [process_message] on a string is the turn of the orchestrator.  On a
    number, a list, an object or [True] it puts that value where a
    [Message] here has a [str], in the request to the LLM and in the
    history; this is the parameter [process_object] of the route, of which
    nothing is assumed. *)

Module Web.

Record Response : Type := { response : str; status : nat }.

(** The truth value of a JSON value, as [not message] tests it. *)
Definition truthy (v : json) : bool :=
  match v with
  | JNull => false
  | JBool b => b
  | JInt z => negb (z =? 0)%Z
  | JFloat f => match f with S754_zero _ => false | _ => true end
  | JStr s => match s with [] => false | _ :: _ => true end
  | JList l => match l with [] => false | _ :: _ => true end
  | JDict d => match d with [] => false | _ :: _ => true end
  end.

(** [type(v).__name__] *)
Definition type_name (v : json) : str :=
  match v with
  | JNull => lit "NoneType"
  | JBool _ => lit "bool"
  | JInt _ => lit "int"
  | JFloat _ => lit "float"
  | JStr _ => lit "str"
  | JList _ => lit "list"
  | JDict _ => lit "dict"
  end.

(** [d.get(key)] on a dict: [None] without the key. *)
Fixpoint dict_get (d : list (str * json)) (key : str) : option json :=
  match d with
  | [] => None
  | (k, v) :: d' => if Str.eqb k key then Some v else dict_get d' key
  end.

(** [data.get('message', '')]: an [AttributeError] when [data] is not a
    dict. *)
Definition request_message (data : json) : result json :=
  match data with
  | JDict d => Ok (get (dict_get d (lit "message")) (JStr []))
  | _ =>
      Raise (Exn AttributeError
               (lit "'" +++ type_name data
                  +++ lit "' object has no attribute 'get'"))
  end.

Section Route.

Variable json_loads : str -> result json.
Variable World : Type.
Variable ollama_chat : str -> list Message -> World -> result str * World.
Variable session_call_tool : str -> json -> World -> result ToolReply * World.
Variable process_object : json -> State World -> result str * State World.

(** [client.process_message(message)], run to its end. *)
Definition run_process_message (message : json) (st : State World)
  : result str * State World :=
  match message with
  | JStr text =>
      process_message json_loads ollama_chat session_call_tool text st
  | _ => process_object message st
  end.

(** [chat()]: [Raise] is an exception that leaves the handler. *)
Definition chat (client_ready : bool) (data : json) (st : State World)
  : result Response * State World :=
  if negb client_ready then
    (Ok {| response := lit "Client not initialized yet. Please wait...";
           status := 503 |}, st)
  else
    match request_message data with
    | Raise e => (Raise e, st)
    | Ok message =>
        if negb (truthy message) then
          (Ok {| response := lit "Please provide a message";
                 status := 400 |}, st)
        else
          match run_process_message message st with
          | (Ok answer, st') =>
              (Ok {| response := answer; status := 200 |}, st')
          | (Raise e, st') =>
              (Ok {| response := lit "Error: " +++ exn_str e;
                     status := 500 |}, st')
          end
    end.

End Route.

End Web.

(** ** A reference [json.loads]

    The development is parametric in [json.loads]; this module gives the
    instance the examples run on: CPython's decoder on a [str], with its
    default settings (strict strings, [NaN] and [Infinity] accepted, and,
    since 3.11 and the security releases of the versions before it,
    integers of more than [sys.int_info.default_max_str_digits] digits
    refused with a [ValueError] by the default [parse_int]).  The message
    of a [JSONDecodeError] is kept without its position.  The scanner
    enters every object and array through [Py_EnterRecursiveCall]: nesting
    deeper than the interpreter allows is a [RecursionError].  How deep
    that is depends on the version, the settings and the calls in progress
    around [json.loads]: [loads_within] takes it as an argument, and
    [loads], which the examples run on, takes the default of
    [sys.getrecursionlimit()] whole. *)

Module Json.

Definition decode_error (msg : string) : exn := Exn JSONDecodeError (lit msg).

Definition int_max_str_digits : nat := 4300.

(** The decoder's whitespace: space, tab, line feed, carriage return. *)
Definition is_ws (c : char) : bool :=
  ((c =? 32) || (c =? 9) || (c =? 10) || (c =? 13))%N.

Fixpoint skip_ws (s : str) : str :=
  match s with
  | c :: s' => if is_ws c then skip_ws s' else s
  | [] => []
  end.

Definition is_digit (c : char) : bool := ((48 <=? c) && (c <=? 57))%N.

Definition hex_value (c : char) : option N :=
  if is_digit c then Some (c - 48)%N
  else if ((97 <=? c) && (c <=? 102))%N then Some (c - 87)%N
  else if ((65 <=? c) && (c <=? 70))%N then Some (c - 55)%N
  else None.

Definition hex4 (a b c d : char) : option N :=
  match hex_value a, hex_value b, hex_value c, hex_value d with
  | Some x, Some y, Some z, Some w => Some (((x * 16 + y) * 16 + z) * 16 + w)%N
  | _, _, _, _ => None
  end.

Definition simple_escape (c : char) : option char :=
  if (c =? 34)%N then Some 34%N            (* quote *)
  else if (c =? 92)%N then Some 92%N       (* backslash *)
  else if (c =? 47)%N then Some 47%N       (* slash *)
  else if (c =? 98)%N then Some 8%N        (* backspace *)
  else if (c =? 102)%N then Some 12%N      (* form feed *)
  else if (c =? 110)%N then Some 10%N      (* line feed *)
  else if (c =? 114)%N then Some 13%N      (* carriage return *)
  else if (c =? 116)%N then Some 9%N       (* tab *)
  else None.

Definition is_high_surrogate (u : N) : bool := ((55296 <=? u) && (u <=? 56319))%N.
Definition is_low_surrogate (u : N) : bool := ((56320 <=? u) && (u <=? 57343))%N.
Definition join_surrogates (hi lo : N) : N :=
  (65536 + (hi - 55296) * 1024 + (lo - 56320))%N.

(** What follows the character [c] at the head of [s], if it is there. *)
Definition expect (c : char) (s : str) : option str :=
  match s with
  | x :: r => if (x =? c)%N then Some r else None
  | [] => None
  end.

(** The body of a string, after its opening quote: the decoded text and
    what follows the closing quote. *)
Fixpoint scanstring (s : str) (acc : str) : result (str * str) :=
  match s with
  | [] => Raise (decode_error "Unterminated string starting at")
  | c :: rest =>
      if (c =? 34)%N then Ok (rev acc, rest)
      else if (c =? 92)%N then
        match rest with
        | [] => Raise (decode_error "Unterminated string starting at")
        | esc :: rest1 =>
            if (esc =? 117)%N then
              match rest1 with
              | a :: b :: c1 :: d :: rest2 =>
                  match hex4 a b c1 d with
                  | None => Raise (decode_error "Invalid \uXXXX escape")
                  | Some uni =>
                      match rest2 with
                      | bs :: u :: a2 :: b2 :: c2 :: d2 :: rest3 =>
                          if is_high_surrogate uni
                             && (bs =? 92)%N && (u =? 117)%N then
                            match hex4 a2 b2 c2 d2 with
                            | None =>
                                Raise (decode_error "Invalid \uXXXX escape")
                            | Some uni2 =>
                                if is_low_surrogate uni2 then
                                  scanstring rest3
                                    (join_surrogates uni uni2 :: acc)
                                else scanstring rest2 (uni :: acc)
                            end
                          else scanstring rest2 (uni :: acc)
                      | _ => scanstring rest2 (uni :: acc)
                      end
                  end
              | _ => Raise (decode_error "Invalid \uXXXX escape")
              end
            else
              match simple_escape esc with
              | Some ch => scanstring rest1 (ch :: acc)
              | None => Raise (decode_error "Invalid \escape")
              end
        end
      else if (c <? 32)%N then
        Raise (decode_error "Invalid control character at")
      else scanstring rest (c :: acc)
  end.

(** The longest run of digits at the head of [s]. *)
Fixpoint span_digits (s : str) : str * str :=
  match s with
  | c :: s' =>
      if is_digit c then let '(ds, r) := span_digits s' in (c :: ds, r)
      else ([], s)
  | [] => ([], [])
  end.

Definition digits_value (ds : str) : Z :=
  fold_left (fun acc c => (acc * 10 + Z.of_N (c - 48))%Z) ds 0%Z.

(** [float(text)] for the decimal [m * 10^e10], [m >= 0]: the nearest
    binary64, ties to even. *)
Definition float_of_decimal (neg : bool) (m e10 : Z) : spec_float :=
  if (m =? 0)%Z then S754_zero neg
  else
    let sign (z : Z) := if neg then Z.opp z else z in
    if (0 <=? e10)%Z then
      binary_normalize 53 1024 (sign (m * 10 ^ e10)%Z) 0 neg
    else
      let d := (10 ^ (- e10))%Z in
      let sh := (Z.log2 d + 66)%Z in
      let q := (m * 2 ^ sh / d)%Z in
      let sticky := if (m * 2 ^ sh mod d =? 0)%Z then 0%Z else 1%Z in
      binary_normalize 53 1024 (sign (2 * q + sticky)%Z) (- (sh + 1)) neg.

(** [str(e)] of the [ValueError] for too long an integer. *)
Definition digit_limit_message (int_digits : str) : str :=
  lit "Exceeds the limit (4300 digits) for integer string conversion: value has "
  +++ lit (NilZero.string_of_uint (Nat.to_uint (length int_digits)))
  +++ lit " digits; use sys.set_int_max_str_digits() to increase the limit".

(** The pieces of a number, each with what follows it: the sign, the
    integer part (a zero, or a run of digits), the fraction (a point and
    digits) and the exponent; the last two only when complete. *)
Definition take_sign (s : str) : bool * str :=
  match expect 45%N s with
  | Some s' => (true, s')
  | None => (false, s)
  end.

Definition take_int (s : str) : str * str :=
  match expect 48%N s with
  | Some s' => ([48%N], s')
  | None => span_digits s
  end.

Definition take_frac (s : str) : str * str :=
  match expect 46%N s with
  | Some s' =>
      match span_digits s' with
      | ([], _) => ([], s)
      | (ds, r) => (ds, r)
      end
  | None => ([], s)
  end.

Definition take_exp_sign (s : str) : bool * str :=
  match expect 45%N s, expect 43%N s with
  | Some t, _ => (true, t)
  | None, Some t => (false, t)
  | None, None => (false, s)
  end.

Definition take_exp (s : str) : option Z * str :=
  match s with
  | e :: s' =>
      if ((e =? 101) || (e =? 69))%N then
        let '(eneg, s'') := take_exp_sign s' in
        match span_digits s'' with
        | ([], _) => (None, s)
        | (ds, r) =>
            let v := digits_value ds in
            (Some (if eneg then Z.opp v else v), r)
        end
      else (None, s)
  | [] => (None, s)
  end.

(** The value of a number: an [int] without fraction and exponent, within
    the digit limit; a [float] otherwise. *)
Definition number_value (neg : bool) (int_digits frac : str) (exp : option Z)
  : result json :=
  match frac, exp with
  | [], None =>
      if Nat.ltb int_max_str_digits (length int_digits) then
        Raise (Exn ValueError (digit_limit_message int_digits))
      else
        let v := digits_value int_digits in
        Ok (JInt (if neg then Z.opp v else v))
  | _, _ =>
      let m := digits_value (int_digits ++ frac) in
      let e10 := (get exp 0 - Z.of_nat (length frac))%Z in
      Ok (JFloat (float_of_decimal neg m e10))
  end.

(** The number at the head of [s]; [None] when there is none. *)
Definition match_number (s : str) : option (result json * str) :=
  let '(neg, s1) := take_sign s in
  let '(int_digits, s2) := take_int s1 in
  match int_digits with
  | [] => None
  | _ :: _ =>
      let '(frac, s3) := take_frac s2 in
      let '(exp, s4) := take_exp s3 in
      Some (number_value neg int_digits frac exp, s4)
  end.

(** [d[key] = value] on an insertion-ordered dict. *)
Fixpoint dict_set (d : list (str * json)) (key : str) (value : json)
  : list (str * json) :=
  match d with
  | [] => [(key, value)]
  | (k, v) :: d' =>
      if Str.eqb k key then (k, value) :: d'
      else (k, v) :: dict_set d' key value
  end.

Definition out_of_fuel : exn := Exn OtherError (lit "scanner out of fuel").

(** [RecursionError], a [RuntimeError]: no [ValueError], so no
    [JSONDecodeError] either. *)
Definition recursion_error (what : string) : exn :=
  Exn OtherError
      (lit "maximum recursion depth exceeded while decoding a JSON "
         +++ lit what +++ lit " from a unicode string").

(** The scanner.  [fuel] bounds the number of calls, and [loads_within]
    gives more than any text can use; [depth] is the number of objects and
    arrays the interpreter still lets the scanner enter. *)
Fixpoint scan_once (fuel depth : nat) (s : str) {struct fuel}
  : result (json * str) :=
  match fuel with
  | O => Raise out_of_fuel
  | S fuel' =>
      match s with
      | [] => Raise (decode_error "Expecting value")
      | c :: rest =>
          if (c =? 34)%N then
            p <- scanstring rest [] ;; Ok (JStr (fst p), snd p)
          else if (c =? 123)%N then
            match depth with
            | O => Raise (recursion_error "object")
            | S depth' =>
                match expect 125%N (skip_ws rest) with
                | Some r => Ok (JDict [], r)
                | None => object_loop fuel' depth' (skip_ws rest) []
                end
            end
          else if (c =? 91)%N then
            match depth with
            | O => Raise (recursion_error "array")
            | S depth' =>
                match expect 93%N (skip_ws rest) with
                | Some r => Ok (JList [], r)
                | None => array_loop fuel' depth' (skip_ws rest) []
                end
            end
          else if startswith (lit "null") s then Ok (JNull, skipn 4 s)
          else if startswith (lit "true") s then Ok (JBool true, skipn 4 s)
          else if startswith (lit "false") s then Ok (JBool false, skipn 5 s)
          else
            match match_number s with
            | Some (r, s') => v <- r ;; Ok (v, s')
            | None =>
                if startswith (lit "NaN") s then
                  Ok (JFloat S754_nan, skipn 3 s)
                else if startswith (lit "Infinity") s then
                  Ok (JFloat (S754_infinity false), skipn 8 s)
                else if startswith (lit "-Infinity") s then
                  Ok (JFloat (S754_infinity true), skipn 9 s)
                else Raise (decode_error "Expecting value")
            end
      end
  end

(** The members of an object, from where a key must start. *)
with object_loop (fuel depth : nat) (s : str) (pairs : list (str * json))
       {struct fuel} : result (json * str) :=
  match fuel with
  | O => Raise out_of_fuel
  | S fuel' =>
      match expect 34%N s with
      | Some s1 =>
          key <- scanstring s1 [] ;;
          match expect 58%N (skip_ws (snd key)) with
          | Some s2 =>
              val <- scan_once fuel' depth (skip_ws s2) ;;
              let pairs' := dict_set pairs (fst key) (fst val) in
              let after := skip_ws (snd val) in
              match expect 125%N after, expect 44%N after with
              | Some r, _ => Ok (JDict pairs', r)
              | None, Some r => object_loop fuel' depth (skip_ws r) pairs'
              | None, None => Raise (decode_error "Expecting ',' delimiter")
              end
          | None => Raise (decode_error "Expecting ':' delimiter")
          end
      | None =>
          Raise (decode_error
                   "Expecting property name enclosed in double quotes")
      end
  end

(** The items of an array, from where a value must start. *)
with array_loop (fuel depth : nat) (s : str) (items : list json)
       {struct fuel} : result (json * str) :=
  match fuel with
  | O => Raise out_of_fuel
  | S fuel' =>
      val <- scan_once fuel' depth s ;;
      let after := skip_ws (snd val) in
      match expect 93%N after, expect 44%N after with
      | Some r, _ => Ok (JList (items ++ [fst val]), r)
      | None, Some r =>
          array_loop fuel' depth (skip_ws r) (items ++ [fst val])
      | None, None => Raise (decode_error "Expecting ',' delimiter")
      end
  end.

(** The exceptions of the recursion limit. *)
Definition too_deep (e : exn) : Prop :=
  e = recursion_error "object" \/ e = recursion_error "array".

(** A result of the scanner on [s] that is in order: a value with a rest
    shorter than [s], or an exception of the decoder's own. *)
Definition consumes (s : str) (res : result (json * str)) : Prop :=
  match res with
  | Ok (_, r) => length r < length s
  | Raise e =>
      exn_kind e = JSONDecodeError \/ exn_kind e = ValueError \/ too_deep e
  end.

(** [json.loads(s)] in an interpreter that lets the scanner nest [limit]
    objects and arrays. *)
Definition loads_within (limit : nat) (s : str) : result json :=
  if startswith [65279%N] s then
    Raise (decode_error "Unexpected UTF-8 BOM (decode using utf-8-sig)")
  else
    val <- scan_once (2 * length s + 2) limit (skip_ws s) ;;
    match skip_ws (snd val) with
    | [] => Ok (fst val)
    | _ :: _ => Raise (decode_error "Extra data")
    end.

(** [sys.getrecursionlimit()] as the interpreter starts. *)
Definition recursion_limit : nat := 1000.

(** [json.loads(s)] *)
Definition loads (s : str) : result json := loads_within recursion_limit s.

(** A one-line encoder, to go with [loads]: no whitespace between tokens,
    quotes, backslashes and control characters escaped in strings, a float
    written with all its decimal digits. *)

(** The decimal digits of [n] in front of [acc], most significant first;
    [fuel] is more than the number of digits. *)
Fixpoint decimal_aux (fuel : nat) (n : N) (acc : str) : str :=
  match fuel with
  | O => acc
  | S fuel' =>
      let acc' := (48 + n mod 10)%N :: acc in
      if (n / 10 =? 0)%N then acc' else decimal_aux fuel' (n / 10) acc'
  end.

Definition decimal (n : Z) : str :=
  let m := Z.to_N n in
  decimal_aux (S (N.to_nat (N.log2 m))) m [].

Definition hex_digit (n : N) : char :=
  if (n <? 10)%N then (48 + n)%N else (87 + n)%N.

Definition encode_char (c : char) : str :=
  if (c =? 34)%N then [92%N; 34%N]
  else if (c =? 92)%N then [92%N; 92%N]
  else if (c <? 32)%N then
    [92%N; 117%N; 48%N; 48%N; hex_digit (c / 16); hex_digit (c mod 16)]
  else [c].

Definition encode_string (s : str) : str :=
  dq +++ flat_map encode_char s +++ dq.

Definition encode_int (z : Z) : str :=
  (if (z <? 0)%Z then lit "-" else []) +++ decimal (Z.abs z).

Definition encode_float (f : spec_float) : str :=
  let sign (neg : bool) := if neg then lit "-" else [] in
  match f with
  | S754_nan => lit "NaN"
  | S754_infinity neg => sign neg +++ lit "Infinity"
  | S754_zero neg => sign neg +++ lit "0.0"
  | S754_finite neg m e =>
      if (0 <=? e)%Z then
        sign neg +++ decimal (Z.pos m * 2 ^ e) +++ lit ".0"
      else
        let k := Z.to_nat (- e) in
        let ds := decimal (Z.pos m * 5 ^ (- e)) in
        let padded := repeat 48%N (S k - length ds) ++ ds in
        let cut := length padded - k in
        sign neg +++ firstn cut padded +++ lit "." +++ skipn cut padded
  end.

Fixpoint encode (v : json) : str :=
  match v with
  | JNull => lit "null"
  | JBool true => lit "true"
  | JBool false => lit "false"
  | JInt z => encode_int z
  | JFloat f => encode_float f
  | JStr s => encode_string s
  | JList items =>
      lit "["
      +++ (fix go (l : list json) : str :=
             match l with
             | [] => []
             | x :: rest =>
                 encode x +++ match rest with
                              | [] => []
                              | _ :: _ => lit "," +++ go rest
                              end
             end) items
      +++ lit "]"
  | JDict pairs =>
      lbrace
      +++ (fix go (l : list (str * json)) : str :=
             match l with
             | [] => []
             | kv :: rest =>
                 encode_string (fst kv) +++ lit ":" +++ encode (snd kv)
                   +++ match rest with
                       | [] => []
                       | _ :: _ => lit "," +++ go rest
                       end
             end) pairs
      +++ rbrace
  end.

(** The items of an array and the members of an object, as [encode]
    writes them between the brackets. *)
Fixpoint encode_items (l : list json) : str :=
  match l with
  | [] => []
  | x :: rest =>
      encode x +++ match rest with
                   | [] => []
                   | _ :: _ => lit "," +++ encode_items rest
                   end
  end.

Fixpoint encode_pairs (l : list (str * json)) : str :=
  match l with
  | [] => []
  | kv :: rest =>
      encode_string (fst kv) +++ lit ":" +++ encode (snd kv)
        +++ match rest with
            | [] => []
            | _ :: _ => lit "," +++ encode_pairs rest
            end
  end.

(** The values the encoder and the decoder agree on without further ado:
    no floats, integers within the digit limit, objects without a repeated
    key. *)
Fixpoint distinct (keys : list str) : bool :=
  match keys with
  | [] => true
  | k :: rest => negb (str_in k rest) && distinct rest
  end.

(** The nested calls the scanner makes to read a value back. *)
Fixpoint weight (v : json) : nat :=
  match v with
  | JList items => S (fold_right (fun x n => S (weight x + n)) 0 items)
  | JDict pairs => S (fold_right (fun kv n => S (weight (snd kv) + n)) 0 pairs)
  | _ => 1
  end.

(** The objects and arrays the scanner is inside of at the deepest place
    of a value. *)
Fixpoint nesting (v : json) : nat :=
  match v with
  | JList items => S (fold_right (fun x n => Nat.max (nesting x) n) 0 items)
  | JDict pairs =>
      S (fold_right (fun kv n => Nat.max (nesting (snd kv)) n) 0 pairs)
  | _ => 0
  end.

(** What may follow a value inside a text: nothing, a comma, or a closing
    bracket or brace. *)
Definition delimited (rest : str) : bool :=
  match rest with
  | [] => true
  | c :: _ => ((c =? 44) || (c =? 93) || (c =? 125))%N
  end.

Fixpoint plain (v : json) : bool :=
  match v with
  | JNull | JBool _ | JStr _ => true
  | JInt z => Nat.leb (length (decimal (Z.abs z))) int_max_str_digits
  | JFloat _ => false
  | JList items => forallb plain items
  | JDict pairs =>
      distinct (map fst pairs)
      && (fix all (l : list (str * json)) : bool :=
            match l with
            | [] => true
            | kv :: rest => plain (snd kv) && all rest
            end) pairs
  end.

End Json.

(** ** Scripted collaborators

    A world in which the LLM and the backend answer from a script, one
    entry per call; a call beyond the script fails. *)

Module Mock.

Record World : Type := {
  llm_replies : list (result str);
  tool_replies : list (result ToolReply)
}.

Definition ollama_chat (model : str) (messages : list Message) (w : World)
  : result str * World :=
  match llm_replies w with
  | r :: rest => (r, {| llm_replies := rest; tool_replies := tool_replies w |})
  | [] => (Raise (Exn OtherError (lit "Failed to connect to Ollama")), w)
  end.

Definition session_call_tool (tool_name : str) (arguments : json) (w : World)
  : result ToolReply * World :=
  match tool_replies w with
  | r :: rest => (r, {| llm_replies := llm_replies w; tool_replies := rest |})
  | [] => (Raise (Exn OtherError (lit "Connection closed")), w)
  end.

(** A reply carrying one text part. *)
Definition text_reply (t : str) : ToolReply :=
  {| reply_content :=
       Some {| shape := IsList [{| part_class := lit "TextContent";
                                   part_text := Some t |}];
               content_str := lit "[TextContent(...)]" |};
     reply_str := lit "CallToolResult(...)" |}.

Definition fresh_client (tools : list Tool) : Client :=
  {| model_name := lit "llama3.2:3b";
     conversation_history := [];
     available_tools := tools |}.

Definition start (tools : list Tool) (w : World) : State World :=
  {| client := fresh_client tools; world := w; trace := [] |}.

(** A [process_message] for the messages that are no strings, to close
    the route over the scripted collaborators; the examples send
    strings. *)
Definition process_object (message : json) (st : State World)
  : result str * State World :=
  (Raise (Exn OtherError (lit "message is not a string")), st).

End Mock.

(** ** Sample data: the scenario of the specification and a few more *)

Module Sample.

(** A tool without parameters and one with two. *)
Definition list_s3_buckets : Tool :=
  {| name := lit "list_s3_buckets";
     description := lit "List all S3 buckets";
     inputSchema := None |}.

Definition compliance_schema : Schema :=
  {| properties :=
       Some [(lit "resourceType",
              {| param_type := Some (lit "string");
                 param_description := Some (lit "Kind of resource") |});
             (lit "standard",
              {| param_type := None; param_description := None |})];
     required := Some [lit "resourceType"];
     other_keys := true |}.

Definition check_resource_compliance : Tool :=
  {| name := lit "check_resource_compliance";
     description := lit "Check resources against a standard";
     inputSchema := Some compliance_schema |}.

Definition utterance : str := lit "List my S3 buckets".
Definition decision : str := lit "TOOL_CALL: list_s3_buckets {}".
Definition narration : str :=
  lit "You have two buckets: bucket-a and bucket-b.".
Definition greeting : str := lit "Hello! How can I help?".

(** The end-to-end scenario: a decision asking for the tool, the backend's
    answer, the narration. *)
Definition scenario : State Mock.World :=
  Mock.start [list_s3_buckets]
    {| Mock.llm_replies := [Ok decision; Ok narration];
       Mock.tool_replies := [Ok (Mock.text_reply (lit "bucket-a, bucket-b"))] |}.

(** The LLM answers directly. *)
Definition direct : State Mock.World :=
  Mock.start [list_s3_buckets]
    {| Mock.llm_replies := [Ok greeting]; Mock.tool_replies := [] |}.

(** The LLM cannot be reached, for the decision and for anything after. *)
Definition llm_down : State Mock.World :=
  Mock.start [list_s3_buckets]
    {| Mock.llm_replies := []; Mock.tool_replies := [] |}.

(** The backend fails. *)
Definition timeout : exn := Exn OtherError (lit "Request timed out").
Definition backend_down : State Mock.World :=
  Mock.start [list_s3_buckets]
    {| Mock.llm_replies := [Ok decision; Ok narration];
       Mock.tool_replies := [Raise timeout] |}.

(** Replies of other shapes: a content that is not a list, an empty
    list, a first part without text. *)
Definition tuple_reply : ToolReply :=
  {| reply_content :=
       Some {| shape := NotList true; content_str := lit "('bucket-a',)" |};
     reply_str := lit "Reply(content=('bucket-a',))" |}.

Definition empty_reply : ToolReply :=
  {| reply_content := Some {| shape := IsList []; content_str := lit "[]" |};
     reply_str := lit "CallToolResult(content=[])" |}.

Definition image_reply : ToolReply :=
  {| reply_content :=
       Some {| shape := IsList [{| part_class := lit "ImageContent";
                                   part_text := None |}];
               content_str := lit "[ImageContent(...)]" |};
     reply_str := lit "CallToolResult(...)" |}.

Definition bare_reply : ToolReply :=
  {| reply_content := None; reply_str := lit "ok" |}.

Definition replying (r : ToolReply) : State Mock.World :=
  Mock.start [] {| Mock.llm_replies := []; Mock.tool_replies := [Ok r] |}.

(** The arguments of the example in the system prompt. *)
Definition soc2 : list (str * json) :=
  [(lit "resourceType", JStr (lit "storage"));
   (lit "standard", JStr (lit "SOC2"))].

(** A tool call whose argument is an integer of 4301 digits. *)
Definition long_integer_call : str :=
  lit "TOOL_CALL: f {" +++ dq +++ lit "n" +++ dq +++ lit ": "
    +++ repeat 49%N 4301 +++ lit "}".

(** An LLM failure whose message is that text. *)
Definition poisoned : State Mock.World :=
  Mock.start [list_s3_buckets]
    {| Mock.llm_replies := [Raise (Exn OtherError long_integer_call)];
       Mock.tool_replies := [] |}.

(** The LLM answers with the bare marker and a line break. *)
Definition bare_marker : State Mock.World :=
  Mock.start [list_s3_buckets]
    {| Mock.llm_replies := [Ok (marker +++ nl); Ok narration];
       Mock.tool_replies := [Raise (Exn OtherError (lit "Unknown tool: "))] |}.

(** A conversation of two turns: a tool call and its narration, then a
    direct answer. *)
Definition two_turns : State Mock.World :=
  Mock.start [list_s3_buckets; check_resource_compliance]
    {| Mock.llm_replies := [Ok decision; Ok narration; Ok greeting];
       Mock.tool_replies := [Ok (Mock.text_reply (lit "bucket-a, bucket-b"))] |}.

(** What the user types in a console session: a question, a blank line,
    the end of the input, the word that ends the session in capitals, and
    a line that is never read. *)
Definition end_of_input : exn := Exn OtherError (lit "EOF when reading a line").
Definition typed : list Input :=
  [Line (lit "  List my S3 buckets ");
   Line (lit "   ");
   InputError end_of_input;
   Line (lit " QUIT");
   Line (lit "What else?")].

(** Bodies of requests to the web route. *)
Definition body (message : json) : json := JDict [(lit "message", message)].

(** A response with the call of the example, indented on a line of its
    own and followed by prose. *)
Definition indented_call : str :=
  lit "I will check." +++ nl +++ lit "TOOL_CALL:" +++ nl
    +++ lit "   check_resource_compliance   "
    +++ Json.encode (JDict soc2) +++ lit "  " +++ nl
    +++ lit "One moment.".

End Sample.

(** * Proofs *)

Unset Implicit Arguments.

(** ** Strings *)

Section StrFacts.

Lemma eqb_eq (a b : str) : Str.eqb a b = true <-> a = b.
Proof.
  revert b; induction a as [|x a IH]; intros [|y b]; simpl; split;
    try congruence; try reflexivity.
  - intros H; apply andb_true_iff in H as [Hx Hab].
    apply N.eqb_eq in Hx; apply IH in Hab; congruence.
  - intros H; injection H as -> ->.
    rewrite N.eqb_refl; simpl; now apply IH.
Qed.

Lemma str_in_In (x : str) (l : list str) : str_in x l = true <-> In x l.
Proof.
  unfold str_in; rewrite existsb_exists; split.
  - intros (y & Hy & E); apply eqb_eq in E; now subst.
  - intros H; exists x; split; [assumption | now apply eqb_eq].
Qed.

Lemma startswith_app (p s : str) : startswith p (p ++ s) = true.
Proof.
  induction p as [|x p IH]; simpl; [reflexivity|].
  now rewrite N.eqb_refl.
Qed.

Lemma startswith_split (p s : str) :
  startswith p s = true -> s = p ++ skipn (length p) s.
Proof.
  revert s; induction p as [|x p IH]; intros [|y s]; simpl;
    try discriminate; try reflexivity.
  intros H; apply andb_true_iff in H as [Hx Hp].
  apply N.eqb_eq in Hx; subst; f_equal; now apply IH.
Qed.

Lemma skipn_length_app (p s : str) : skipn (length p) (p ++ s) = s.
Proof. induction p; simpl; auto. Qed.

Lemma partition_startswith (sep s : str) :
  startswith sep s = true ->
  partition sep s = Some ([], skipn (length sep) s).
Proof. intros H; destruct s; simpl partition; now rewrite H. Qed.

(** The separator at the head is the leftmost occurrence. *)
Lemma partition_head (sep s : str) : partition sep (sep ++ s) = Some ([], s).
Proof.
  rewrite partition_startswith by apply startswith_app.
  now rewrite skipn_length_app.
Qed.

Lemma partition_sound (sep s a b : str) :
  partition sep s = Some (a, b) -> s = a ++ sep ++ b.
Proof.
  revert a b; induction s as [|c s IH]; intros a b; simpl.
  - destruct (startswith sep []) eqn:E; [|discriminate].
    intros H; injection H as <- <-.
    simpl; now apply startswith_split in E.
  - destruct (startswith sep (c :: s)) eqn:E.
    + intros H; injection H as <- <-.
      simpl; now apply startswith_split in E.
    + destruct (partition sep s) as [[a' b']|]; [|discriminate].
      intros H; injection H as <- <-.
      simpl; f_equal; now apply IH.
Qed.

(** Splitting once gives two pieces exactly when the separator occurs. *)
Lemma splitn_1 (sep s : str) :
  splitn 1 sep s =
    match partition sep s with
    | Some (a, b) => [a; b]
    | None => [s]
    end.
Proof. simpl; now destruct (partition sep s) as [[a b]|]. Qed.

Lemma split_head (sep s a b : str) :
  partition sep s = Some (a, b) -> s <> [] ->
  exists rest, split sep s = a :: rest.
Proof.
  unfold split; intros H Hs; destruct s as [|c s]; [congruence|].
  cbn [length splitn]; rewrite H; eauto.
Qed.

(** One-character separators. *)
Lemma partition_char_none (c : char) (s : str) :
  ~ In c s -> partition [c] s = None.
Proof.
  induction s as [|y s IH]; simpl; intros H; [reflexivity|].
  destruct (N.eqb_spec c y) as [->|Hne]; [tauto|]; simpl.
  now rewrite IH by tauto.
Qed.

Lemma partition_char_app (c : char) (a b : str) :
  ~ In c a -> partition [c] (a ++ c :: b) = Some (a, b).
Proof.
  induction a as [|y a IH]; simpl; intros H.
  - now rewrite N.eqb_refl.
  - destruct (N.eqb_spec c y) as [->|Hne]; [tauto|]; simpl.
    now rewrite IH by tauto.
Qed.

Lemma partition_char_some (c : char) (s a b : str) :
  partition [c] s = Some (a, b) -> ~ In c a /\ s = a ++ c :: b.
Proof.
  revert a b; induction s as [|y s IH]; intros a b; simpl; [discriminate|].
  destruct (N.eqb_spec c y) as [->|Hne]; simpl.
  - intros H; injection H as <- <-; auto.
  - destruct (partition [c] s) as [[a' b']|]; [|discriminate].
    intros H; injection H as <- <-.
    destruct (IH _ _ eq_refl) as [Hn ->]; split; [|reflexivity].
    simpl; intuition congruence.
Qed.

Lemma contains_char (c : char) (s : str) :
  contains [c] s = false <-> ~ In c s.
Proof.
  unfold contains; split.
  - destruct (partition [c] s) as [[a b]|] eqn:E; [discriminate|].
    intros _ Hin; apply in_split in Hin as (l1 & l2 & ->).
    revert E; induction l1 as [|y l1 IH]; simpl.
    + now rewrite N.eqb_refl.
    + destruct (c =? y)%N; simpl; [discriminate|].
      destruct (partition [c] (l1 ++ c :: l2)) as [[a b]|];
        [discriminate | auto].
  - intros H; now rewrite partition_char_none.
Qed.

Lemma contains_app (sub a b : str) : contains sub (a ++ sub ++ b) = true.
Proof.
  unfold contains; induction a as [|c a IH]; simpl app.
  - now rewrite partition_head.
  - simpl partition.
    destruct (startswith sub (c :: a ++ sub ++ b)); [reflexivity|].
    destruct (partition sub (a ++ sub ++ b)) as [[x y]|];
      [reflexivity | discriminate].
Qed.


(** Stripping. *)

Lemma lstrip_app (a b : str) :
  lstrip (a ++ b) = if forallb isspace a then lstrip b else lstrip a ++ b.
Proof.
  induction a as [|c a IH]; simpl; [reflexivity|].
  destruct (isspace c); simpl; auto.
Qed.

Lemma rstrip_nil (s : str) : rstrip s = [] <-> forallb isspace s = true.
Proof.
  induction s as [|c s IH]; simpl; [tauto|].
  destruct (rstrip s) as [|d r].
  - destruct (isspace c); simpl; split; try discriminate; try tauto.
  - split; [discriminate|].
    intros H; apply andb_true_iff in H as [_ H].
    apply IH in H; discriminate.
Qed.

Lemma rstrip_allspace (s : str) : forallb isspace s = true -> rstrip s = [].
Proof. apply rstrip_nil. Qed.

Lemma rstrip_cons_nonspace (c : char) (s : str) :
  isspace c = false -> rstrip (c :: s) = c :: rstrip s.
Proof. intros H; simpl; rewrite H; now destruct (rstrip s). Qed.

Lemma rstrip_cons_nonempty (c : char) (s : str) :
  rstrip s <> [] -> rstrip (c :: s) = c :: rstrip s.
Proof. intros H; simpl; destruct (rstrip s); congruence. Qed.

Lemma rstrip_app (a b : str) :
  rstrip (a ++ b) = if forallb isspace b then rstrip a else a ++ rstrip b.
Proof.
  destruct (forallb isspace b) eqn:Eb.
  - induction a as [|c a IH]; simpl; [now apply rstrip_allspace|].
    now rewrite IH.
  - assert (Hb : rstrip b <> []).
    { intros H; apply rstrip_nil in H; congruence. }
    induction a as [|c a IH]; [reflexivity|].
    simpl app; rewrite rstrip_cons_nonempty; rewrite IH; [reflexivity|].
    destruct a; simpl; [assumption | discriminate].
Qed.

Lemma lstrip_allspace (s : str) : forallb isspace s = true -> lstrip s = [].
Proof.
  induction s as [|c s IH]; simpl; [reflexivity|].
  destruct (isspace c); simpl; [assumption | discriminate].
Qed.

Lemma strip_allspace (s : str) : forallb isspace s = true -> strip s = [].
Proof. intros H; unfold strip; now rewrite lstrip_allspace. Qed.

(** [lstrip] drops a run of whitespace and stops at the first other
    character. *)
Lemma lstrip_spec (s : str) :
  exists ws, s = ws ++ lstrip s /\ forallb isspace ws = true /\
             match lstrip s with
             | c :: _ => isspace c = false
             | [] => True
             end.
Proof.
  induction s as [|c s (ws & E & Hws & Hhd)]; simpl.
  - exists []; auto.
  - destruct (isspace c) eqn:Ec.
    + exists (c :: ws); simpl; rewrite Ec, Hws; repeat split; auto.
      now rewrite <- E.
    + exists []; simpl; auto.
Qed.

Lemma lstrip_nonspace (c : char) (s : str) :
  isspace c = false -> lstrip (c :: s) = c :: s.
Proof. intros H; simpl; now rewrite H. Qed.

Lemma lstrip_idem (s : str) : lstrip (lstrip s) = lstrip s.
Proof.
  destruct (lstrip_spec s) as (ws & _ & _ & Hhd).
  destruct (lstrip s) as [|c t]; [reflexivity|]; now apply lstrip_nonspace.
Qed.

Lemma rstrip_idem (s : str) : rstrip (rstrip s) = rstrip s.
Proof.
  induction s as [|c s IH]; [reflexivity|].
  simpl; destruct (rstrip s) as [|d r] eqn:E.
  - destruct (isspace c) eqn:Ec; simpl; [reflexivity | now rewrite Ec].
  - now rewrite rstrip_cons_nonempty; rewrite IH.
Qed.

Lemma lstrip_rstrip (s : str) : lstrip (rstrip s) = rstrip (lstrip s).
Proof.
  destruct (lstrip_spec s) as (ws & E & Hws & Hhd).
  destruct (lstrip s) as [|c t] eqn:El.
  - rewrite app_nil_r in E; subst ws.
    now rewrite (rstrip_allspace s Hws).
  - rewrite E at 1; rewrite rstrip_app; simpl forallb; rewrite Hhd.
    cbn [andb].
    rewrite (rstrip_cons_nonspace _ _ Hhd), lstrip_app, Hws.
    now apply lstrip_nonspace.
Qed.

Lemma strip_idem (s : str) : strip (strip s) = strip s.
Proof.
  unfold strip; now rewrite lstrip_rstrip, lstrip_idem, rstrip_idem.
Qed.

Lemma lstrip_In (c : char) (s : str) : In c (lstrip s) -> In c s.
Proof.
  destruct (lstrip_spec s) as (ws & E & _); intros H.
  rewrite E; apply in_or_app; now right.
Qed.

Lemma rstrip_In (c : char) (s : str) : In c (rstrip s) -> In c s.
Proof.
  induction s as [|d s IH]; simpl; [tauto|].
  destruct (rstrip s) as [|e r].
  - destruct (isspace d); simpl; tauto.
  - simpl in *; tauto.
Qed.

Lemma strip_In (c : char) (s : str) : In c (strip s) -> In c s.
Proof. intros H; now apply lstrip_In, rstrip_In. Qed.


(** The first line. *)
Lemma first_line_no_nl (s : str) : ~ In 10%N s -> first_line s = s.
Proof.
  intros H; unfold first_line, nl; now rewrite partition_char_none.
Qed.

Lemma first_line_app (a b : str) :
  ~ In 10%N a -> first_line (a ++ nl ++ b) = a.
Proof.
  intros H; unfold first_line, nl; simpl app.
  now rewrite partition_char_app.
Qed.

(** The tool-call line of a remainder that has no line break. *)
Lemma tool_line_one_line (x : str) :
  ~ In 10%N x -> strip (first_line (strip x)) = strip x.
Proof.
  intros H; rewrite first_line_no_nl; [apply strip_idem|].
  intros Hin; now apply strip_In in Hin.
Qed.

(** What follows the first line break does not reach the tool-call line,
    once the line before it has a character that is not whitespace. *)
Lemma tool_line_cut (x rest : str) :
  ~ In 10%N x -> forallb isspace x = false ->
  strip (first_line (strip (x ++ nl ++ rest))) = strip x.
Proof.
  intros Hnl Hx.
  destruct (lstrip_spec x) as (ws & E & Hws & Hhd).
  destruct (lstrip x) as [|c t] eqn:El.
  { rewrite app_nil_r in E; subst ws; congruence. }
  assert (Hct : ~ In 10%N (c :: t)).
  { intros Hin; apply Hnl; rewrite E; apply in_or_app; now right. }
  assert (Es : strip x = rstrip (c :: t)) by (unfold strip; now rewrite El).
  unfold strip at 2; rewrite E at 1.
  rewrite <- app_assoc, lstrip_app, Hws.
  change ((c :: t) ++ nl ++ rest) with (c :: (t ++ nl ++ rest)).
  rewrite (lstrip_nonspace _ _ Hhd).
  change (c :: t ++ nl ++ rest) with ((c :: t) ++ (nl ++ rest)).
  rewrite rstrip_app.
  destruct (forallb isspace (nl ++ rest)) eqn:Ews.
  - rewrite first_line_no_nl.
    + unfold strip; rewrite lstrip_rstrip, rstrip_idem.
      now rewrite (lstrip_nonspace _ _ Hhd).
    + intros Hin; now apply rstrip_In in Hin.
  - assert (Er : rstrip (nl ++ rest) = nl ++ rstrip rest).
    { rewrite rstrip_app.
      destruct (forallb isspace rest) eqn:Erest; [|reflexivity].
      unfold nl in Ews; simpl in Ews; congruence. }
    rewrite Er, first_line_app by assumption.
    unfold strip; now rewrite (lstrip_nonspace _ _ Hhd).
Qed.

End StrFacts.

(** ** The marker and the shape of the parser *)

Section MarkerFacts.

Lemma contains_cons (sep : str) (c : char) (s : str) :
  contains sep (c :: s) = false ->
  startswith sep (c :: s) = false /\ contains sep s = false.
Proof.
  unfold contains; simpl partition.
  destruct (startswith sep (c :: s)); [discriminate|].
  destruct (partition sep s) as [[a b]|]; [discriminate | auto].
Qed.

Lemma partition_cons (sep : str) (c : char) (s : str) :
  startswith sep (c :: s) = false ->
  partition sep (c :: s) =
    match partition sep s with
    | Some (a, b) => Some (c :: a, b)
    | None => None
    end.
Proof. intros H; simpl partition; now rewrite H. Qed.

(** No proper suffix of the marker starts it again: an occurrence that
    begins before the marker ends before it. *)
Lemma marker_border_free (pre t : str) :
  pre <> [] ->
  startswith marker (pre ++ marker ++ t) = true ->
  startswith marker pre = true.
Proof.
  intros Hne.
  let m := eval vm_compute in marker in change marker with m.
  do 10 (destruct pre as [|? pre];
         [ try congruence; simpl; intros H;
           repeat (apply andb_true_iff in H as [? H]);
           repeat match goal with
                  | E : (_ =? _)%N = true |- _ =>
                      apply N.eqb_eq in E; try discriminate E; subst
                  end;
           try discriminate
         | ]).
  simpl; intros H; exact H.
Qed.

(** The first occurrence of the marker in [pre ++ marker ++ t] is the
    one written out, when [pre] has none. *)
Lemma partition_marker (pre t : str) :
  contains marker pre = false ->
  partition marker (pre ++ marker ++ t) = Some (pre, t).
Proof.
  induction pre as [|c pre IH]; intros H.
  - exact (partition_head marker t).
  - apply contains_cons in H as [Hs Hc].
    destruct (startswith marker ((c :: pre) ++ marker ++ t)) eqn:E.
    + apply (marker_border_free (c :: pre) t) in E; congruence.
    + simpl app in *; rewrite (partition_cons _ _ _ E); now rewrite IH.
Qed.

(** The marker cannot begin inside the fixed head of the error text. *)
Lemma error_text_marker (msg : str) :
  contains marker (lit "Error calling LLM: " ++ msg) = contains marker msg.
Proof.
  unfold contains.
  let m := eval vm_compute in marker in change marker with m.
  let p := eval vm_compute in (lit "Error calling LLM: ") in
    change (lit "Error calling LLM: ") with p.
  cbn [app].
  repeat (rewrite partition_cons by reflexivity).
  now destruct (partition _ msg) as [[a b]|].
Qed.

End MarkerFacts.

Section ParserShape.

Variable json_loads : str -> result json.

(** The parser, read off the pieces it cuts out of the response: the
    indexing never fails. *)
Lemma parse_tool_call_eq (text : str) :
  parse_tool_call json_loads text =
    match tool_call_line text with
    | Some line => parse_line json_loads line
    | None => Ok None
    end.
Proof.
  unfold parse_tool_call, tool_call_line, contains.
  rewrite splitn_1.
  destruct (partition marker text) as [[pre after]|]; [|reflexivity].
  cbn [index nth_error rbind].
  rewrite splitn_1.
  assert (E0 : index
                 match partition nl (strip after) with
                 | Some (a, b) => [a; b]
                 | None => [strip after]
                 end 0 = Ok (first_line (strip after))).
  { unfold first_line; now destruct (partition nl (strip after)) as [[a b]|]. }
  rewrite E0; cbn [rbind].
  set (line := strip (first_line (strip after))).
  unfold parse_line; rewrite splitn_1.
  destruct (partition lbrace line) as [[head tail]|] eqn:E; [|reflexivity].
  assert (Hne : line <> []) by (intros ->; discriminate E).
  destruct (split_head _ _ _ _ E Hne) as (rest & ->).
  reflexivity.
Qed.

End ParserShape.

Section ParserLemmas.

Variable json_loads : str -> result json.

Lemma tool_call_line_app (pre after : str) :
  contains marker pre = false ->
  tool_call_line (pre ++ marker ++ after)
  = Some (strip (first_line (strip after))).
Proof.
  intros H; unfold tool_call_line; now rewrite partition_marker.
Qed.

Lemma tool_call_line_none (text : str) :
  contains marker text = false -> tool_call_line text = None.
Proof.
  unfold contains, tool_call_line.
  now destruct (partition marker text) as [[a b]|].
Qed.

Lemma parse_line_no_brace (line : str) :
  contains lbrace line = false ->
  parse_line json_loads line = Ok (Some (line, empty_dict)).
Proof.
  unfold contains, parse_line.
  now destruct (partition lbrace line) as [[a b]|].
Qed.

Lemma parse_no_marker (text : str) :
  contains marker text = false -> parse_tool_call json_loads text = Ok None.
Proof.
  intros H; rewrite parse_tool_call_eq; now rewrite tool_call_line_none.
Qed.

Lemma parse_after_marker (pre after : str) :
  contains marker pre = false ->
  parse_tool_call json_loads (pre ++ marker ++ after)
  = parse_line json_loads (strip (first_line (strip after))).
Proof.
  intros H; rewrite parse_tool_call_eq; now rewrite tool_call_line_app.
Qed.

Lemma alnum_plain (c : char) :
  is_alnum_ c = true ->
  isspace c = false /\ c <> 10%N /\ c <> 123%N.
Proof.
  unfold is_alnum_, is_alpha_; intros H.
  repeat rewrite ?orb_true_iff, ?andb_true_iff, ?N.leb_le, ?N.eqb_eq in H.
  repeat split; try lia.
  apply not_true_is_false; unfold isspace; intros Hs.
  repeat rewrite ?orb_true_iff, ?andb_true_iff, ?N.leb_le, ?N.eqb_eq in Hs.
  lia.
Qed.

Lemma identifier_plain (n : str) :
  is_identifier n = true ->
  forallb (fun c => negb (isspace c)) n = true
  /\ ~ In 10%N n /\ ~ In 123%N n /\ n <> [].
Proof.
  destruct n as [|c n]; [discriminate|]; simpl; intros H.
  apply andb_true_iff in H as [Hc Hn].
  assert (Hc' : is_alnum_ c = true) by (unfold is_alnum_; now rewrite Hc).
  assert (Hall : forall d, In d (c :: n) -> is_alnum_ d = true).
  { intros d [<-|Hd]; [assumption|].
    rewrite forallb_forall in Hn; auto. }
  repeat split.
  - change (forallb (fun d => negb (isspace d)) (c :: n) = true).
    apply forallb_forall; intros d Hd.
    apply Hall, alnum_plain in Hd as (-> & _); reflexivity.
  - intros Hin; apply Hall, alnum_plain in Hin as (_ & ? & _); congruence.
  - intros Hin; apply Hall, alnum_plain in Hin as (_ & _ & ?); congruence.
  - discriminate.
Qed.

End ParserLemmas.

(** ** The parser *)

Section ParserClaims.

Variable json_loads : str -> result json.



(** C8.  The form without arguments.  When the response has the marker
    and its tool-call line has no brace, the parser returns the invocation
    whose name is that whole trimmed line and whose arguments are the empty
    mapping; so for a one-line remainder [x] without a brace the name is
    [x] trimmed, and ["TOOL_CALL: list_buckets"] gives [list_buckets] with
    no arguments. *)
Theorem parse_without_arguments :
  (forall text line,
      tool_call_line text = Some line ->
      contains lbrace line = false ->
      parse_tool_call json_loads text = Ok (Some (line, empty_dict)))
  /\ (forall pre x,
         contains marker pre = false ->
         contains nl x = false ->
         contains lbrace x = false ->
         parse_tool_call json_loads (pre ++ marker ++ x)
         = Ok (Some (strip x, empty_dict)))
  /\ parse_tool_call json_loads (lit "TOOL_CALL: list_buckets")
     = Ok (Some (lit "list_buckets", empty_dict)).
Proof.
  assert (H1 : forall text line,
             tool_call_line text = Some line ->
             contains lbrace line = false ->
             parse_tool_call json_loads text = Ok (Some (line, empty_dict))).
  { intros text line Hl Hb.
    rewrite parse_tool_call_eq, Hl; now apply parse_line_no_brace. }
  split; [exact H1|]; split.
  - intros pre x Hpre Hnl Hb.
    apply contains_char in Hnl; apply contains_char in Hb.
    apply H1.
    + rewrite tool_call_line_app by assumption.
      now rewrite tool_line_one_line.
    + apply contains_char; intros Hin; now apply strip_In in Hin.
  - apply H1; reflexivity.
Qed.

Lemma parse_bare_marker (ws : str) :
  forallb isspace ws = true ->
  parse_tool_call json_loads (marker ++ ws) = Ok (Some ([], empty_dict)).
Proof.
  intros H; rewrite parse_tool_call_eq.
  change (marker ++ ws) with ([] ++ marker ++ ws).
  rewrite tool_call_line_app by reflexivity.
  now rewrite (strip_allspace ws H).
Qed.

(** C6, as amended.  The parser works on the first line of the trimmed
    text that follows the first occurrence of the marker: the remainder is
    stripped of surrounding whitespace, line breaks included, before it is
    cut at the first line break.  So once the text between the marker and a
    line break has a character that is not whitespace, nothing after that
    line break reaches the parsed name or arguments. *)
Theorem later_lines_discarded :
  (forall pre after,
      contains marker pre = false ->
      parse_tool_call json_loads (pre ++ marker ++ after)
      = parse_line json_loads (strip (first_line (strip after))))
  /\ (forall pre x rest,
         contains marker pre = false ->
         contains nl x = false ->
         forallb isspace x = false ->
         parse_tool_call json_loads (pre ++ marker ++ x ++ nl ++ rest)
         = parse_tool_call json_loads (pre ++ marker ++ x)).
Proof.
  split; [apply parse_after_marker|].
  intros pre x rest Hpre Hnl Hx; apply contains_char in Hnl.
  rewrite !parse_after_marker by assumption.
  now rewrite tool_line_cut, tool_line_one_line.
Qed.

(** C7, as amended.  The parser returns nothing for a text without the
    marker, and for a text whose tool-call line has a brace from which
    [json.loads] raises [JSONDecodeError].  It takes no index that can
    fail: on every text it either returns, or [json.loads] raised on the
    text from the first brace of the tool-call line an exception that is
    not a [JSONDecodeError], and that exception is what the parser
    raises.  Conversely, whenever [json.loads] raises such an exception on
    that text, the parser raises it. *)
Theorem parse_lenient (text : str) :
  (contains marker text = false ->
   parse_tool_call json_loads text = Ok None)
  /\ (forall line js e,
         tool_call_line text = Some line ->
         json_text line = Some js ->
         json_loads js = Raise e ->
         is_JSONDecodeError e = true ->
         parse_tool_call json_loads text = Ok None)
  /\ ((exists r, parse_tool_call json_loads text = Ok r)
      \/ (exists line js e,
             tool_call_line text = Some line
             /\ json_text line = Some js
             /\ json_loads js = Raise e
             /\ is_JSONDecodeError e = false
             /\ parse_tool_call json_loads text = Raise e))
  /\ (forall line js e,
         tool_call_line text = Some line ->
         json_text line = Some js ->
         json_loads js = Raise e ->
         is_JSONDecodeError e = false ->
         parse_tool_call json_loads text = Raise e).
Proof.
  assert (Hraise : forall line js e,
             tool_call_line text = Some line ->
             json_text line = Some js ->
             json_loads js = Raise e ->
             parse_tool_call json_loads text
             = if is_JSONDecodeError e then Ok None else Raise e).
  { intros line js e Hl Hjs He; rewrite parse_tool_call_eq, Hl.
    unfold parse_line, json_text in *.
    destruct (partition lbrace line) as [[hd tl]|]; [|discriminate].
    injection Hjs as <-; unfold lbrace in *; cbn [app] in *.
    now rewrite He. }
  split; [apply parse_no_marker|].
  split; [|split].
  - intros line js e Hl Hjs He Hk.
    now rewrite (Hraise line js e Hl Hjs He), Hk.
  - rewrite parse_tool_call_eq.
    destruct (tool_call_line text) as [line|] eqn:El; [|left; eauto].
    unfold parse_line, json_text.
    destruct (partition lbrace line) as [[hd tl]|] eqn:Ep; [|left; eauto].
    destruct (json_loads (lbrace ++ tl)) as [a|e] eqn:E; [left; eauto|].
    destruct (is_JSONDecodeError e) eqn:Ek; [left; eauto|].
    right; exists line, (lbrace ++ tl), e.
    rewrite Ep; auto.
  - intros line js e Hl Hjs He Hk.
    now rewrite (Hraise line js e Hl Hjs He), Hk.
Qed.

End ParserClaims.

(** ** The orchestrator *)

Section OrchestratorFacts.

Variable json_loads : str -> result json.
Variable World : Type.
Variable ollama_chat : str -> list Message -> World -> result str * World.
Variable session_call_tool : str -> json -> World -> result ToolReply * World.

Local Notation history st := (conversation_history (client st)).
Local Notation prompt st :=
  (system_prompt_for (format_tools_for_llm (available_tools (client st)))).

(** [call_llm] always returns: the content, or the error text. *)
Lemma call_llm_eq (u sp : str) (st : State World) :
  call_llm ollama_chat u sp st =
    let model := model_name (client st) in
    let messages := messages_for sp (history st) u in
    let rw := ollama_chat model messages (world st) in
    (Ok match fst rw with
        | Ok c => c
        | Raise e => lit "Error calling LLM: " ++ exn_str e
        end,
     {| client := client st; world := snd rw;
        trace := trace st ++ [EvChat model messages] |}).
Proof.
  unfold call_llm, try_except, chat, ret; cbv zeta.
  now destruct (ollama_chat _ _ _) as [[c|e] w].
Qed.

Lemma call_llm_returns (u sp : str) (st : State World) :
  exists ans st',
    call_llm ollama_chat u sp st = (Ok ans, st')
    /\ client st' = client st.
Proof. rewrite call_llm_eq; cbv zeta; eauto. Qed.

(** [call_mcp_tool] always returns a text and leaves the client alone. *)
Lemma call_mcp_tool_returns (n : str) (a : json) (st : State World) :
  exists text st',
    call_mcp_tool session_call_tool n a st = (Ok text, st')
    /\ client st' = client st
    /\ trace st' = trace st ++ [EvCallTool n a].
Proof.
  unfold call_mcp_tool, try_except, bind, call_tool, ret, lift.
  destruct (session_call_tool n a (world st)) as [[reply|e] w]; [|eauto].
  destruct (reply_content reply) as [c|]; [|eauto].
  destruct (content_truthy c); [|eauto].
  destruct (shape c) as [[|p parts]|t]; eauto.
  unfold get_text; destruct (part_text p); eauto.
Qed.

Lemma append_twice (u ans : str) (st : State World) :
  exists st',
    bind (append_history (Msg user u))
         (fun _ => bind (append_history (Msg assistant ans))
                        (fun _ => ret ans)) st = (Ok ans, st')
    /\ history st' = history st ++ [Msg user u; Msg assistant ans]
    /\ world st' = world st /\ trace st' = trace st.
Proof.
  unfold bind, append_history, ret; cbn.
  eexists; split; [reflexivity|]; cbn.
  now rewrite <- app_assoc.
Qed.

(** Both turn operations run [turn]. *)
Lemma process_message_turn (u : str) (st : State World) :
  process_message json_loads ollama_chat session_call_tool u st
  = turn json_loads ollama_chat session_call_tool (prompt st) u st.
Proof. reflexivity. Qed.

Lemma chat_loop_iteration_turn (sp line : str) (st : State World) :
  chat_loop_iteration json_loads ollama_chat session_call_tool sp line st =
    if str_in (lower (strip line)) [lit "exit"; lit "quit"; lit "bye"]
    then (Exited, st)
    else match strip line with
         | [] => (Skipped, st)
         | _ :: _ =>
             match turn json_loads ollama_chat session_call_tool sp
                        (strip line) st with
             | (Ok shown, st') => (Answered shown, st')
             | (Raise e, st') => (Failed e, st')
             end
         end.
Proof.
  unfold chat_loop_iteration.
  destruct (str_in _ _); [reflexivity|].
  now destruct (strip line).
Qed.

Lemma turn_after_decision (sp u r : str) (st st1 : State World) :
  call_llm ollama_chat u sp st = (Ok r, st1) ->
  turn json_loads ollama_chat session_call_tool sp u st
  = after_decision json_loads ollama_chat session_call_tool sp u r st1.
Proof. intros H; unfold turn, bind; now rewrite H. Qed.

Lemma after_decision_cases (sp u r : str) (st1 : State World) :
  match parse_tool_call json_loads r with
  | Raise e =>
      after_decision json_loads ollama_chat session_call_tool sp u r st1
      = (Raise e, st1)
  | Ok None =>
      exists st',
        after_decision json_loads ollama_chat session_call_tool sp u r st1
        = (Ok r, st')
        /\ history st' = history st1 ++ [Msg user u; Msg assistant r]
        /\ trace st' = trace st1
  | Ok (Some (n, a)) =>
      exists t st2 f st3 st',
        call_mcp_tool session_call_tool n a st1 = (Ok t, st2)
        /\ call_llm ollama_chat (follow_up_prompt_for n t) sp st2
           = (Ok f, st3)
        /\ after_decision json_loads ollama_chat session_call_tool sp u r st1
           = (Ok f, st')
        /\ history st' = history st1 ++ [Msg user u; Msg assistant f]
        /\ trace st' = trace st3
  end.
Proof.
  unfold after_decision, bind at 1, lift.
  destruct (parse_tool_call json_loads r) as [[[n a]|]|e]; [| |reflexivity].
  - destruct (call_mcp_tool_returns n a st1) as (t & st2 & E2 & Hc2 & _).
    destruct (call_llm_returns (follow_up_prompt_for n t) sp st2)
      as (f & st3 & E3 & Hc3).
    destruct (append_twice u f st3) as (st' & E4 & Hh & _ & Ht).
    exists t, st2, f, st3, st'; repeat split; auto.
    + unfold bind at 1; rewrite E2; unfold bind at 1; rewrite E3; exact E4.
    + rewrite Hh; congruence.
  - destruct (append_twice u r st1) as (st' & E4 & Hh & _ & Ht).
    exists st'; repeat split; auto.
Qed.

(** A turn that returns has committed the exchange. *)
Lemma turn_commit (sp u ans : str) (st st' : State World) :
  turn json_loads ollama_chat session_call_tool sp u st = (Ok ans, st') ->
  history st' = history st ++ [Msg user u; Msg assistant ans].
Proof.
  destruct (call_llm_returns u sp st) as (r & st1 & E1 & Hc1).
  rewrite (turn_after_decision sp u r st st1 E1).
  pose proof (after_decision_cases sp u r st1) as H.
  destruct (parse_tool_call json_loads r) as [[[n a]|]|e].
  - destruct H as (t & st2 & f & st3 & st'' & _ & _ & E & Hh & _).
    rewrite E; intros Heq; injection Heq as <- <-; congruence.
  - destruct H as (st'' & E & Hh & _).
    rewrite E; intros Heq; injection Heq as <- <-; congruence.
  - rewrite H; discriminate.
Qed.

End OrchestratorFacts.

Section OrchestratorClaims.

Variable json_loads : str -> result json.
Variable World : Type.
Variable ollama_chat : str -> list Message -> World -> result str * World.
Variable session_call_tool : str -> json -> World -> result ToolReply * World.

Local Notation history st := (conversation_history (client st)).
Local Notation prompt st :=
  (system_prompt_for (format_tools_for_llm (available_tools (client st)))).
Local Notation process_message' :=
  (process_message json_loads ollama_chat session_call_tool).
Local Notation chat_loop_iteration' :=
  (chat_loop_iteration json_loads ollama_chat session_call_tool).
Local Notation call_mcp_tool' := (call_mcp_tool session_call_tool).
Local Notation call_llm' := (call_llm ollama_chat).

(** C1.  Turn commit invariant.  A call of [process_message] that
    returns, and a round of the console loop that prints an answer, leave
    the history exactly two messages longer: first a [user] message holding
    the utterance (the trimmed line, in the console), then an [assistant]
    message holding the answer returned (printed).  Both paths of the turn
    end this way: the direct answer, when the decision response holds no
    tool call, and the narration, when it holds one. *)
Theorem turn_commit_invariant :
  (forall u st ans st',
      process_message' u st = (Ok ans, st') ->
      history st' = history st ++ [Msg user u; Msg assistant ans]
      /\ length (history st') = length (history st) + 2)
  /\ (forall sp line st shown st',
         chat_loop_iteration' sp line st = (Answered shown, st') ->
         history st' = history st
                         ++ [Msg user (strip line); Msg assistant shown]
         /\ length (history st') = length (history st) + 2)
  /\ (forall u st r st1,
         call_llm' u (prompt st) st = (Ok r, st1) ->
         parse_tool_call json_loads r = Ok None ->
         exists st', process_message' u st = (Ok r, st'))
  /\ (forall u st r st1 n a t st2 f st3,
         call_llm' u (prompt st) st = (Ok r, st1) ->
         parse_tool_call json_loads r = Ok (Some (n, a)) ->
         call_mcp_tool' n a st1 = (Ok t, st2) ->
         call_llm' (follow_up_prompt_for n t) (prompt st) st2 = (Ok f, st3) ->
         exists st', process_message' u st = (Ok f, st')).
Proof.
  assert (Hlen : forall (h h' : list Message) (x y : Message),
             h' = h ++ [x; y] -> length h' = length h + 2).
  { intros h h' x y ->; rewrite length_app; reflexivity. }
  repeat split.
  - rewrite process_message_turn in H; now apply turn_commit in H.
  - rewrite process_message_turn in H; apply turn_commit in H; eauto.
  - rewrite chat_loop_iteration_turn in H.
    destruct (str_in _ _); [discriminate|].
    destruct (strip line) as [|c l] eqn:El; [discriminate|].
    destruct (turn _ _ _ _ _ _) as [[x|e] s] eqn:Et; [|discriminate].
    injection H as <- <-; now apply turn_commit in Et.
  - rewrite chat_loop_iteration_turn in H.
    destruct (str_in _ _); [discriminate|].
    destruct (strip line) as [|c l] eqn:El; [discriminate|].
    destruct (turn _ _ _ _ _ _) as [[x|e] s] eqn:Et; [|discriminate].
    injection H as <- <-; apply turn_commit in Et; eauto.
  - intros u st r st1 H1 Hp.
    rewrite process_message_turn, (turn_after_decision _ _ _ _ _ _ _ _ _ H1).
    pose proof (after_decision_cases json_loads World ollama_chat
                  session_call_tool (prompt st) u r st1) as H.
    rewrite Hp in H; destruct H as (st' & E & _); eauto.
  - intros u st r st1 n a t st2 f st3 H1 Hp H2 H3.
    rewrite process_message_turn, (turn_after_decision _ _ _ _ _ _ _ _ _ H1).
    pose proof (after_decision_cases json_loads World ollama_chat
                  session_call_tool (prompt st) u r st1) as H.
    rewrite Hp in H.
    destruct H as (t' & st2' & f' & st3' & st' & E2 & E3 & E & _).
    rewrite H2 in E2; injection E2 as <- <-.
    rewrite H3 in E3; injection E3 as <- <-; eauto.
Qed.

(** C4.  Tool failure is reported as text.  When the backend's
    [call_tool] raises [e], [call_mcp_tool] returns
    ["Error calling tool " + name + ": " + str(e)], a text that contains
    both the tool's name and the error message.  Whatever the backend does,
    [call_mcp_tool] returns a text and never raises, so a turn that found a
    tool call always reaches the narration call. *)
Theorem tool_failure_is_text :
  (forall n a st e w,
      session_call_tool n a (world st) = (Raise e, w) ->
      let text := lit "Error calling tool " ++ n ++ lit ": " ++ exn_str e in
      (exists st', call_mcp_tool' n a st = (Ok text, st'))
      /\ contains n text = true
      /\ contains (exn_str e) text = true)
  /\ (forall n a st,
         exists text st',
           call_mcp_tool' n a st = (Ok text, st')
           /\ client st' = client st)
  /\ (forall sp u r st1 n a,
         parse_tool_call json_loads r = Ok (Some (n, a)) ->
         exists t st2 f st3 st',
           call_mcp_tool' n a st1 = (Ok t, st2)
           /\ call_llm' (follow_up_prompt_for n t) sp st2 = (Ok f, st3)
           /\ after_decision json_loads ollama_chat session_call_tool
                sp u r st1 = (Ok f, st')).
Proof.
  split; [|split].
  - intros n a st e w H text; split; [|split].
    + unfold call_mcp_tool, try_except, bind, call_tool, ret.
      rewrite H; eauto.
    + apply contains_app.
    + replace text
        with ((lit "Error calling tool " ++ n ++ lit ": ") ++ exn_str e ++ []).
      * apply contains_app.
      * unfold text; now rewrite app_nil_r, <- !app_assoc.
  - intros n a st.
    destruct (call_mcp_tool_returns World session_call_tool n a st)
      as (text & st' & E & Hc & _); eauto.
  - intros sp u r st1 n a Hp.
    pose proof (after_decision_cases json_loads World ollama_chat
                  session_call_tool sp u r st1) as H.
    rewrite Hp in H.
    destruct H as (t & st2 & f & st3 & st' & E2 & E3 & E & _).
    exists t, st2, f, st3, st'; auto.
Qed.

(** C5, as amended.  How [call_mcp_tool] flattens a reply the backend
    returned: the first part's text when [content] is a non-empty list whose
    first part has a [text]; the string form of [content] itself when
    [content] is there, true and not a list; the string form of the reply
    when [content] is missing or false (an empty list included); and the
    error text of the failed attribute access when the first part of the
    list has no [text]. *)
Theorem reply_normalised (n : str) (a : json) (st : State World)
    (reply : ToolReply) (w : World) :
  session_call_tool n a (world st) = (Ok reply, w) ->
  (forall c p rest t,
      reply_content reply = Some c -> shape c = IsList (p :: rest) ->
      part_text p = Some t ->
      fst (call_mcp_tool' n a st) = Ok t)
  /\ (forall c,
         reply_content reply = Some c -> shape c = NotList true ->
         fst (call_mcp_tool' n a st) = Ok (content_str c))
  /\ (forall c,
         reply_content reply = Some c -> content_truthy c = false ->
         fst (call_mcp_tool' n a st) = Ok (reply_str reply))
  /\ (reply_content reply = None ->
      fst (call_mcp_tool' n a st) = Ok (reply_str reply))
  /\ (forall c p rest,
         reply_content reply = Some c -> shape c = IsList (p :: rest) ->
         part_text p = None ->
         fst (call_mcp_tool' n a st)
         = Ok (lit "Error calling tool " ++ n ++ lit ": " ++ lit "'"
                 ++ part_class p ++ lit "' object has no attribute 'text'")).
Proof.
  intros H.
  unfold call_mcp_tool, try_except, bind, call_tool, ret, lift; rewrite H.
  repeat split.
  - intros c p rest t -> Hs Ht; unfold content_truthy, get_text.
    now rewrite Hs, Ht.
  - intros c -> Hs; unfold content_truthy; now rewrite Hs.
  - intros c -> Hf; now rewrite Hf.
  - intros ->; reflexivity.
  - intros c p rest -> Hs Ht; unfold content_truthy, get_text.
    now rewrite Hs, Ht.
Qed.

(** A decision response that is the bare marker sends the empty tool
    name to the backend. *)
Lemma turn_bare_marker (sp u ws : str) (st : State World) (w1 : World) :
  forallb isspace ws = true ->
  ollama_chat (model_name (client st)) (messages_for sp (history st) u)
              (world st)
  = (Ok (marker ++ ws), w1) ->
  exists ans st',
    turn json_loads ollama_chat session_call_tool sp u st = (Ok ans, st')
    /\ In (EvCallTool [] empty_dict) (trace st').
Proof.
  intros Hws Hchat.
  pose proof (call_llm_eq World ollama_chat u sp st) as E1.
  cbv zeta in E1; rewrite Hchat in E1; cbn [fst snd] in E1.
  set (st1 := {| client := client st; world := w1; trace := _ |}) in E1.
  rewrite (turn_after_decision _ _ _ _ _ _ _ _ _ E1).
  pose proof (after_decision_cases json_loads World ollama_chat
                session_call_tool sp u (marker ++ ws) st1) as H.
  rewrite (parse_bare_marker json_loads ws Hws) in H.
  destruct H as (t & st2 & f & st3 & st' & E2 & E3 & E & _ & Ht).
  exists f, st'; split; [exact E|].
  rewrite Ht.
  destruct (call_mcp_tool_returns World session_call_tool [] empty_dict st1)
    as (t' & st2' & E2' & _ & Ht2).
  rewrite E2 in E2'; injection E2' as <- <-.
  rewrite call_llm_eq in E3; cbv zeta in E3; injection E3 as _ <-.
  cbn [trace]; rewrite Ht2.
  apply in_or_app; left; apply in_or_app; right; now left.
Qed.

(** C10.  The bare marker.  For the marker followed by whitespace only,
    or by nothing, the parser returns the invocation with the empty name
    and the empty argument mapping; and when the decision response is such
    a text, the turn asks the backend to call the tool of the empty
    name. *)
Theorem bare_marker_is_forwarded :
  (forall ws,
      forallb isspace ws = true ->
      parse_tool_call json_loads (marker ++ ws) = Ok (Some ([], empty_dict)))
  /\ (forall u st ws w1,
         forallb isspace ws = true ->
         ollama_chat (model_name (client st))
                     (messages_for (prompt st) (history st) u) (world st)
         = (Ok (marker ++ ws), w1) ->
         exists ans st',
           process_message' u st = (Ok ans, st')
           /\ In (EvCallTool [] empty_dict) (trace st'))
  /\ (forall sp line c u st ws w1,
         strip line = c :: u ->
         str_in (lower (c :: u)) [lit "exit"; lit "quit"; lit "bye"] = false ->
         forallb isspace ws = true ->
         ollama_chat (model_name (client st))
                     (messages_for sp (history st) (c :: u)) (world st)
         = (Ok (marker ++ ws), w1) ->
         exists shown st',
           chat_loop_iteration' sp line st = (Answered shown, st')
           /\ In (EvCallTool [] empty_dict) (trace st')).
Proof.
  split; [apply parse_bare_marker|]; split.
  - intros u st ws w1 Hws Hchat.
    rewrite process_message_turn.
    now apply (turn_bare_marker (prompt st) u ws st w1).
  - intros sp line c u st ws w1 Hline Hexit Hws Hchat.
    rewrite chat_loop_iteration_turn, Hline, Hexit.
    destruct (turn_bare_marker sp (c :: u) ws st w1 Hws Hchat)
      as (ans & st' & E & Hin).
    rewrite E; eauto.
Qed.

(** C3, as amended.  When the decision call of the LLM raises [e],
    [call_llm] returns the text ["Error calling LLM: " + str(e)] and does
    not raise.  If [str(e)] holds no tool-call marker, the turn returns that
    text and commits it as the assistant's content.  Whenever the parser
    returns on that text, the turn completes, its answer is that text or
    the narration built from it, and the answer is committed.  The turn
    raises only when the parser raises on that text, with the parser's own
    exception, and then nothing is committed. *)
Theorem llm_failure_is_text (u : str) (st : State World) (e : exn)
    (w : World) :
  ollama_chat (model_name (client st))
              (messages_for (prompt st) (history st) u) (world st)
  = (Raise e, w) ->
  let err := lit "Error calling LLM: " ++ exn_str e in
  (exists st1, call_llm' u (prompt st) st = (Ok err, st1))
  /\ (contains marker (exn_str e) = false ->
      exists st',
        process_message' u st = (Ok err, st')
        /\ history st' = history st ++ [Msg user u; Msg assistant err])
  /\ (forall r,
         parse_tool_call json_loads err = Ok r ->
         exists ans st',
           process_message' u st = (Ok ans, st')
           /\ history st' = history st ++ [Msg user u; Msg assistant ans]
           /\ (r = None -> ans = err)
           /\ (forall n a,
                  r = Some (n, a) ->
                  exists st1 t st2 st3,
                    call_llm' u (prompt st) st = (Ok err, st1)
                    /\ call_mcp_tool' n a st1 = (Ok t, st2)
                    /\ call_llm' (follow_up_prompt_for n t) (prompt st) st2
                       = (Ok ans, st3)))
  /\ (forall e' st',
         process_message' u st = (Raise e', st') ->
         parse_tool_call json_loads err = Raise e'
         /\ history st' = history st).
Proof.
  intros Hchat err.
  pose proof (call_llm_eq World ollama_chat u (prompt st) st) as E1.
  cbv zeta in E1; rewrite Hchat in E1; cbn [fst snd] in E1.
  fold err in E1.
  set (st1 := {| client := client st; world := w; trace := _ |}) in E1.
  pose proof (after_decision_cases json_loads World ollama_chat
                session_call_tool (prompt st) u err st1) as H.
  assert (Hturn : process_message' u st
                  = after_decision json_loads ollama_chat session_call_tool
                      (prompt st) u err st1).
  { rewrite process_message_turn.
    apply (turn_after_decision _ _ _ _ _ _ _ _ _ E1). }
  split; [eauto|]; split; [|split].
  - intros Hm.
    assert (Hp : parse_tool_call json_loads err = Ok None).
    { apply parse_no_marker; unfold err.
      now rewrite error_text_marker. }
    rewrite Hp in H; destruct H as (st' & E & Hh & _).
    exists st'; rewrite Hturn; auto.
  - intros r Hp; rewrite Hp in H; destruct r as [[n a]|].
    + destruct H as (t & st2 & f & st3 & st' & E2 & E3 & E & Hh & _).
      exists f, st'; rewrite Hturn; repeat split; auto; [discriminate|].
      intros n' a' Heq; injection Heq as <- <-.
      exists st1, t, st2, st3; auto.
    + destruct H as (st' & E & Hh & _).
      exists err, st'; rewrite Hturn; repeat split; auto; discriminate.
  - intros e' st' Hr; rewrite Hturn in Hr.
    destruct (parse_tool_call json_loads err) as [[[n a]|]|e''].
    + destruct H as (t & st2 & f & st3 & st'' & _ & _ & E & _); congruence.
    + destruct H as (st'' & E & _); congruence.
    + rewrite H in Hr; injection Hr as <- <-; auto.
Qed.

End OrchestratorClaims.

(** ** The catalog *)

Section CatalogFacts.

Lemma format_param_render (schema : Schema) (acc : str)
    (item : str * ParamInfo) :
  format_param schema acc item = acc ++ render_param schema item.
Proof. destruct item as [pname info]; reflexivity. Qed.

Lemma fold_format_param (schema : Schema) (props : list (str * ParamInfo))
    (acc : str) :
  fold_left (format_param schema) props acc
  = acc ++ concat (map (render_param schema) props).
Proof.
  revert acc; induction props as [|item props IH]; intros acc; simpl.
  - now rewrite app_nil_r.
  - now rewrite IH, format_param_render, <- app_assoc.
Qed.

Lemma schema_falsy (schema : Schema) :
  schema_truthy schema = false -> properties schema = None.
Proof.
  unfold schema_truthy; now destruct (properties schema), (required schema).
Qed.

Lemma format_tool_render (acc : str) (tool : Tool) :
  format_tool acc tool = acc ++ render_tool tool.
Proof.
  unfold format_tool, render_tool, render_params.
  destruct (inputSchema tool) as [schema|].
  - destruct (schema_truthy schema) eqn:Et.
    + destruct (properties schema) as [props|].
      * rewrite fold_format_param; now rewrite <- !app_assoc.
      * now rewrite <- !app_assoc.
    + rewrite (schema_falsy schema Et); now rewrite <- !app_assoc.
  - now rewrite <- !app_assoc.
Qed.

Lemma fold_format_tool (tools : list Tool) (acc : str) :
  fold_left format_tool tools acc = acc ++ concat (map render_tool tools).
Proof.
  revert acc; induction tools as [|tool tools IH]; intros acc; simpl.
  - now rewrite app_nil_r.
  - now rewrite IH, format_tool_render, <- app_assoc.
Qed.

(** C9.  Catalog determinism.  [format_tools_for_llm] is a function of
    the descriptor sequence alone: equal sequences give equal texts.  The
    text is the header followed by the tools' blocks in the order of the
    sequence, so appending tools appends their blocks; a tool's parameter
    lines follow the order of its properties; each line shows the name, the
    type or [string] when there is none, the marker [(required)] exactly
    when the name is in the schema's required list and [(optional)]
    otherwise, and the description. *)
Theorem catalog_deterministic :
  (forall tools tools',
      tools = tools' -> format_tools_for_llm tools = format_tools_for_llm tools')
  /\ (forall tools,
         format_tools_for_llm tools
         = lit "Available tools:" ++ nl ++ nl ++ concat (map render_tool tools))
  /\ (forall tools more,
         format_tools_for_llm (tools ++ more)
         = format_tools_for_llm tools ++ concat (map render_tool more))
  /\ (forall tool schema props,
         inputSchema tool = Some schema ->
         properties schema = Some props ->
         render_params tool
         = lit "  Parameters:" ++ nl ++ concat (map (render_param schema) props))
  /\ (forall schema pname info,
         render_param schema (pname, info)
         = lit "    - " ++ pname ++ lit " ("
             ++ match param_type info with
                | Some t => t
                | None => lit "string"
                end
             ++ lit ")"
             ++ (if str_in pname (get (required schema) [])
                 then lit " (required)" else lit " (optional)")
             ++ lit ": " ++ get (param_description info) [] ++ nl)
  /\ (forall schema pname,
         str_in pname (get (required schema) []) = true
         <-> In pname (get (required schema) [])).
Proof.
  assert (Hfmt : forall tools,
             format_tools_for_llm tools
             = lit "Available tools:" ++ nl ++ nl
                 ++ concat (map render_tool tools)).
  { intros tools; unfold format_tools_for_llm.
    now rewrite fold_format_tool, <- !app_assoc. }
  split; [now intros tools tools' ->|].
  split; [exact Hfmt|].
  split; [|split; [|split]].
  - intros tools more.
    now rewrite !Hfmt, map_app, concat_app, <- !app_assoc.
  - intros tool schema props Hs Hp; unfold render_params.
    now rewrite Hs, Hp.
  - intros schema pname info; unfold render_param; cbn [fst snd].
    now destruct (param_type info).
  - intros schema pname; apply str_in_In.
Qed.

End CatalogFacts.

(** ** The reference decoder *)

Section DecoderFacts.

Import Json.

(** What the scanner hands back is shorter than what it was given. *)

Lemma skip_ws_length (s : str) : length (skip_ws s) <= length s.
Proof.
  induction s as [|c s IH]; simpl; [lia|].
  destruct (is_ws c); simpl; lia.
Qed.

Lemma expect_length (c : char) (s r : str) :
  expect c s = Some r -> length s = S (length r).
Proof.
  destruct s as [|x s]; simpl; [discriminate|].
  destruct (x =? c)%N; [|discriminate].
  now intros H; injection H as ->.
Qed.

Lemma span_digits_length (s ds r : str) :
  span_digits s = (ds, r) -> length s = length ds + length r.
Proof.
  revert ds r; induction s as [|c s IH]; intros ds r; simpl.
  - intros H; injection H as <- <-; reflexivity.
  - destruct (is_digit c).
    + destruct (span_digits s) as [ds' r'].
      intros H; injection H as <- <-; simpl; now rewrite (IH _ _ eq_refl).
    + intros H; injection H as <- <-; reflexivity.
Qed.

Lemma skipn_shorter (n : nat) (s : str) :
  0 < n -> s <> [] -> length (skipn n s) < length s.
Proof.
  intros Hn Hs; rewrite length_skipn.
  destruct s as [|c s]; [congruence|]; cbn [length]; lia.
Qed.

(** A string body: a shorter rest, or a decoding error. *)
Lemma scanstring_spec (n : nat) :
  forall s acc,
    length s <= n ->
    match scanstring s acc with
    | Ok (x, r) => length r < length s
    | Raise e => exn_kind e = JSONDecodeError
    end.
Proof.
  induction n as [|n IH]; intros s acc Hn.
  - destruct s; [reflexivity | simpl in Hn; lia].
  - destruct s as [|c rest]; [reflexivity|].
    simpl in Hn; cbn [scanstring].
    assert (Hrec : forall t acc',
               length t <= length rest ->
               match scanstring t acc' with
               | Ok (x, r) => length r < length (c :: rest)
               | Raise e => exn_kind e = JSONDecodeError
               end).
    { intros t acc' Ht.
      specialize (IH t acc' ltac:(lia)).
      destruct (scanstring t acc') as [[x r]|e]; simpl; [lia | assumption]. }
    destruct (c =? 34)%N; [simpl; lia|].
    destruct (c =? 92)%N.
    + destruct rest as [|esc rest1]; [reflexivity|].
      destruct (esc =? 117)%N.
      * destruct rest1 as [|a [|b [|c1 [|d rest2]]]]; try reflexivity.
        destruct (hex4 a b c1 d) as [uni|]; [|reflexivity].
        destruct rest2 as [|bs [|u [|a2 [|b2 [|c2 [|d2 rest3]]]]]];
          try (apply Hrec; simpl; lia).
        destruct (is_high_surrogate uni && (bs =? 92)%N && (u =? 117)%N);
          [|apply Hrec; simpl; lia].
        destruct (hex4 a2 b2 c2 d2) as [uni2|]; [|reflexivity].
        destruct (is_low_surrogate uni2); apply Hrec; simpl; lia.
      * destruct (simple_escape esc); [|reflexivity].
        apply Hrec; simpl; lia.
    + destruct (c <? 32)%N; [reflexivity|].
      apply Hrec; simpl; lia.
Qed.

Lemma take_sign_length (s s1 : str) (neg : bool) :
  take_sign s = (neg, s1) -> length s1 <= length s.
Proof.
  unfold take_sign; destruct (expect 45%N s) as [s'|] eqn:E.
  - intros H; injection H as _ <-; apply expect_length in E; lia.
  - intros H; injection H as _ <-; lia.
Qed.

Lemma take_int_length (s ds r : str) :
  take_int s = (ds, r) -> length s = length ds + length r.
Proof.
  unfold take_int; destruct (expect 48%N s) as [s'|] eqn:E.
  - intros H; injection H as <- <-; apply expect_length in E; simpl; lia.
  - apply span_digits_length.
Qed.

Lemma take_frac_length (s ds r : str) :
  take_frac s = (ds, r) -> length r <= length s.
Proof.
  unfold take_frac; destruct (expect 46%N s) as [s'|] eqn:E.
  - apply expect_length in E.
    destruct (span_digits s') as [[|d ds'] r'] eqn:Es.
    + intros H; injection H as _ <-; lia.
    + intros H; injection H as _ <-.
      apply span_digits_length in Es; simpl in Es; lia.
  - intros H; injection H as _ <-; lia.
Qed.

Lemma take_exp_sign_length (s s' : str) (eneg : bool) :
  take_exp_sign s = (eneg, s') -> length s' <= length s.
Proof.
  unfold take_exp_sign; destruct (expect 45%N s) as [t|] eqn:E1.
  - intros H; injection H as _ <-; apply expect_length in E1; lia.
  - destruct (expect 43%N s) as [t|] eqn:E2.
    + intros H; injection H as _ <-; apply expect_length in E2; lia.
    + intros H; injection H as _ <-; lia.
Qed.

Lemma take_exp_length (s r : str) (e : option Z) :
  take_exp s = (e, r) -> length r <= length s.
Proof.
  unfold take_exp; destruct s as [|c s']; [intros H; injection H as _ <-; lia|].
  destruct ((c =? 101) || (c =? 69))%N;
    [|intros H; injection H as _ <-; lia].
  destruct (take_exp_sign s') as [eneg s''] eqn:Es.
  apply take_exp_sign_length in Es.
  destruct (span_digits s'') as [[|d ds] r'] eqn:Ed.
  - intros H; injection H as _ <-; lia.
  - intros H; injection H as _ <-.
    apply span_digits_length in Ed; simpl in *; lia.
Qed.

(** A number: a shorter rest, and no error but the digit limit. *)
Lemma match_number_spec (s r : str) (v : result json) :
  match_number s = Some (v, r) ->
  length r < length s
  /\ forall e, v = Raise e -> exn_kind e = ValueError.
Proof.
  unfold match_number.
  destruct (take_sign s) as [neg s1] eqn:E1.
  destruct (take_int s1) as [ds s2] eqn:E2.
  destruct ds as [|d ds]; [discriminate|].
  destruct (take_frac s2) as [frac s3] eqn:E3.
  destruct (take_exp s3) as [exp s4] eqn:E4.
  intros H; injection H as <- <-.
  apply take_sign_length in E1; apply take_int_length in E2.
  apply take_frac_length in E3; apply take_exp_length in E4.
  split; [simpl in E2; lia|].
  unfold number_value; intros e.
  destruct frac; [destruct exp|]; try discriminate.
  destruct (Nat.ltb _ _); [|discriminate].
  now intros H; injection H as <-.
Qed.

Lemma consumes_weaken (s t : str) (res : result (json * str)) :
  consumes t res -> length t <= length s -> consumes s res.
Proof.
  destruct res as [[v r]|e]; simpl; [lia | tauto].
Qed.

(** With enough fuel the scanner never runs out of it, and it consumes
    what it reads. *)
Lemma scanner_spec (fuel : nat) :
  (forall depth s,
      2 * length s + 1 <= fuel -> consumes s (scan_once fuel depth s))
  /\ (forall depth s pairs,
         2 * length s + 2 <= fuel ->
         consumes s (object_loop fuel depth s pairs))
  /\ (forall depth s items,
         2 * length s + 2 <= fuel ->
         consumes s (array_loop fuel depth s items)).
Proof.
  induction fuel as [|f (IHscan & IHobj & IHarr)].
  - repeat split; intros; lia.
  - repeat split.
    + (* a value *)
      intros depth s Hf; destruct s as [|c rest]; [now left|].
      cbn [scan_once]; cbn [length] in Hf.
      pose proof (skip_ws_length rest) as Hws.
      destruct (c =? 34)%N.
      { pose proof (scanstring_spec (length rest) rest [] (le_n _)) as Hs.
        destruct (scanstring rest []) as [[x r]|e]; simpl in *; [lia | tauto]. }
      destruct (c =? 123)%N.
      { destruct depth as [|d]; [right; right; now left|].
        destruct (expect 125%N (skip_ws rest)) as [r|] eqn:E.
        - apply expect_length in E; simpl; lia.
        - apply (consumes_weaken _ (skip_ws rest));
            [apply IHobj; lia | simpl; lia]. }
      destruct (c =? 91)%N.
      { destruct depth as [|d]; [right; right; now right|].
        destruct (expect 93%N (skip_ws rest)) as [r|] eqn:E.
        - apply expect_length in E; simpl; lia.
        - apply (consumes_weaken _ (skip_ws rest));
            [apply IHarr; lia | simpl; lia]. }
      assert (Hskip : forall n, 0 < n ->
                 length (skipn n (c :: rest)) < length (c :: rest)).
      { intros n Hn; apply skipn_shorter; [assumption | discriminate]. }
      destruct (startswith (lit "null") (c :: rest)); [apply Hskip; lia|].
      destruct (startswith (lit "true") (c :: rest)); [apply Hskip; lia|].
      destruct (startswith (lit "false") (c :: rest)); [apply Hskip; lia|].
      destruct (match_number (c :: rest)) as [[v r]|] eqn:En.
      { apply match_number_spec in En as [Hr Hv].
        destruct v as [v|e]; simpl; [assumption|].
        right; left; now apply Hv. }
      destruct (startswith (lit "NaN") (c :: rest)); [apply Hskip; lia|].
      destruct (startswith (lit "Infinity") (c :: rest));
        [apply Hskip; lia|].
      destruct (startswith (lit "-Infinity") (c :: rest));
        [apply Hskip; lia|].
      now left.
    + (* the members of an object *)
      intros depth s pairs Hf; cbn [object_loop].
      destruct (expect 34%N s) as [s1|] eqn:E1; [|now left].
      apply expect_length in E1.
      pose proof (scanstring_spec (length s1) s1 [] (le_n _)) as Hs.
      destruct (scanstring s1 []) as [[key kr]|e]; [|simpl; tauto].
      cbn [rbind fst snd].
      pose proof (skip_ws_length kr) as Hkr.
      destruct (expect 58%N (skip_ws kr)) as [s2|] eqn:E2; [|now left].
      apply expect_length in E2.
      pose proof (skip_ws_length s2) as Hs2.
      pose proof (IHscan depth (skip_ws s2) ltac:(lia)) as Hv.
      destruct (scan_once f depth (skip_ws s2)) as [[v vr]|e]; [|exact Hv].
      cbn [rbind fst snd]; simpl in Hv.
      pose proof (skip_ws_length vr) as Hvr.
      destruct (expect 125%N (skip_ws vr)) as [r|] eqn:E3.
      { apply expect_length in E3; simpl; lia. }
      destruct (expect 44%N (skip_ws vr)) as [r|] eqn:E4; [|now left].
      apply expect_length in E4.
      pose proof (skip_ws_length r) as Hr.
      apply (consumes_weaken _ (skip_ws r)); [apply IHobj; lia | lia].
    + (* the items of an array *)
      intros depth s items Hf; cbn [array_loop].
      pose proof (IHscan depth s ltac:(lia)) as Hv.
      destruct (scan_once f depth s) as [[v vr]|e]; [|exact Hv].
      cbn [rbind fst snd]; simpl in Hv.
      pose proof (skip_ws_length vr) as Hvr.
      destruct (expect 93%N (skip_ws vr)) as [r|] eqn:E3.
      { apply expect_length in E3; simpl; lia. }
      destruct (expect 44%N (skip_ws vr)) as [r|] eqn:E4; [|now left].
      apply expect_length in E4.
      pose proof (skip_ws_length r) as Hr.
      apply (consumes_weaken _ (skip_ws r)); [apply IHarr; lia | lia].
Qed.

(** The reference decoder is total: it returns a value or raises a
    [JSONDecodeError], the [ValueError] of the digit limit or the
    [RecursionError] of the recursion limit. *)
Theorem loads_total (limit : nat) (s : str) :
  match loads_within limit s with
  | Ok _ => True
  | Raise e =>
      exn_kind e = JSONDecodeError \/ exn_kind e = ValueError \/ too_deep e
  end.
Proof.
  unfold loads_within.
  destruct (startswith [65279%N] s); [now left|].
  pose proof (skip_ws_length s) as Hws.
  pose proof (proj1 (scanner_spec (2 * length s + 2)) limit (skip_ws s)
                ltac:(lia)) as H.
  destruct (scan_once _ _ (skip_ws s)) as [[v r]|e]; [|exact H].
  cbn [rbind fst snd]; destruct (skip_ws r); [exact I | now left].
Qed.

Lemma too_deep_kind (e : exn) : too_deep e -> exn_kind e = OtherError.
Proof. now intros [-> | ->]. Qed.

(** With the reference decoder, the digit limit and the recursion limit
    are the only ways for the parser to raise. *)
Lemma parse_raises_at_a_limit (limit : nat) (text : str) (e : exn) :
  parse_tool_call (loads_within limit) text = Raise e ->
  exn_kind e = ValueError \/ too_deep e.
Proof.
  rewrite parse_tool_call_eq.
  destruct (tool_call_line text) as [line|]; [|discriminate].
  unfold parse_line.
  destruct (partition lbrace line) as [[hd tl]|]; [|discriminate].
  pose proof (loads_total limit (lbrace ++ tl)) as Ht.
  destruct (loads_within limit (lbrace ++ tl)) as [v|e']; [discriminate|].
  unfold is_JSONDecodeError.
  destruct Ht as [Hk|[Hk|Hd]].
  - rewrite Hk; discriminate.
  - rewrite Hk; intros H; injection H as <-; now left.
  - rewrite (too_deep_kind e' Hd); intros H; injection H as <-; now right.
Qed.

End DecoderFacts.

(** ** The reference encoder, read back *)

Section CodecFacts.

Import Json.

(** *** Strings *)

Lemma hex_value_digit (n : N) :
  (n < 16)%N -> hex_value (hex_digit n) = Some n.
Proof.
  intros Hn; unfold hex_value, hex_digit, is_digit.
  destruct (N.ltb_spec n 10).
  - replace ((48 <=? 48 + n) && (48 + n <=? 57))%N with true.
    + f_equal; lia.
    + symmetry; apply andb_true_iff; split; apply N.leb_le; lia.
  - replace ((48 <=? 87 + n) && (87 + n <=? 57))%N with false.
    + replace ((97 <=? 87 + n) && (87 + n <=? 102))%N with true.
      * f_equal; lia.
      * symmetry; apply andb_true_iff; split; apply N.leb_le; lia.
    + symmetry; apply andb_false_iff; right; apply N.leb_gt; lia.
Qed.

Lemma hex4_control (c : char) :
  (c < 32)%N ->
  hex4 48%N 48%N (hex_digit (c / 16)) (hex_digit (c mod 16)) = Some c.
Proof.
  intros Hc; unfold hex4.
  change (hex_value 48%N) with (Some 0%N).
  assert (Hq : (c / 16 < 16)%N).
  { apply N.Div0.div_lt_upper_bound; lia. }
  assert (Hr : (c mod 16 < 16)%N) by (apply N.mod_lt; lia).
  rewrite (hex_value_digit _ Hq), (hex_value_digit _ Hr).
  f_equal; pose proof (N.div_mod c 16 ltac:(lia)); lia.
Qed.

(** The scanner reads one encoded character back. *)
Lemma scanstring_encode_char (c : char) (tail acc : str) :
  scanstring (encode_char c ++ tail) acc = scanstring tail (c :: acc).
Proof.
  unfold encode_char.
  destruct (N.eqb_spec c 34) as [->|H34]; [reflexivity|].
  destruct (N.eqb_spec c 92) as [->|H92]; [reflexivity|].
  destruct (N.ltb_spec c 32) as [Hlt|Hge].
  - cbn [app scanstring N.eqb Pos.eqb].
    rewrite (hex4_control c Hlt).
    assert (Hs : is_high_surrogate c = false).
    { unfold is_high_surrogate; apply andb_false_iff; left.
      apply N.leb_gt; lia. }
    rewrite Hs; cbn [andb].
    now destruct tail as [|? [|? [|? [|? [|? [|? ?]]]]]].
  - cbn [app scanstring].
    destruct (N.eqb_spec c 34); [congruence|].
    destruct (N.eqb_spec c 92); [congruence|].
    destruct (N.ltb_spec c 32); [lia | reflexivity].
Qed.

Lemma scanstring_encode (s rest acc : str) :
  scanstring (flat_map encode_char s ++ dq ++ rest) acc
  = Ok (rev acc ++ s, rest).
Proof.
  revert acc; induction s as [|c s IH]; intros acc.
  - simpl; now rewrite app_nil_r.
  - cbn [flat_map]; rewrite <- app_assoc, scanstring_encode_char, IH.
    cbn [rev]; now rewrite <- app_assoc.
Qed.

Lemma encode_string_scan (s rest : str) :
  exists t,
    encode_string s ++ rest = 34%N :: t
    /\ scanstring t [] = Ok (s, rest).
Proof.
  exists (flat_map encode_char s ++ dq ++ rest); split.
  - unfold encode_string, dq; now rewrite <- !app_assoc.
  - apply (scanstring_encode s rest []).
Qed.

(** *** Integers *)

Lemma digits_value_snoc (ds : str) (d : char) :
  digits_value (ds ++ [d]) = (digits_value ds * 10 + Z.of_N (d - 48))%Z.
Proof. unfold digits_value; now rewrite fold_left_app. Qed.

(** The digits written for [n]: they are digits, their value is [n], and
    a leading zero is the whole of them. *)
Lemma div_mod_10 (n : N) :
  exists q r, (n / 10 = q /\ n mod 10 = r /\ n = 10 * q + r /\ r < 10)%N.
Proof.
  exists (n / 10)%N, (n mod 10)%N; repeat split.
  - apply N.div_mod; discriminate.
  - apply N.mod_lt; discriminate.
Qed.

Lemma decimal_aux_spec (fuel : nat) :
  forall n acc,
    (n < 2 ^ N.of_nat (S fuel))%N ->
    exists ds,
      decimal_aux (S fuel) n acc = ds ++ acc
      /\ digits_value ds = Z.of_N n
      /\ forallb is_digit ds = true
      /\ ds <> []
      /\ (forall t, ds = 48%N :: t -> t = []).
Proof.
  assert (Hdigit : forall r : N, (r < 10)%N -> is_digit (48 + r)%N = true).
  { intros r Hr; unfold is_digit.
    apply andb_true_iff; split; apply N.leb_le; lia. }
  assert (Hone : forall (n r : N) (acc : str),
             (n = r)%N -> (r < 10)%N ->
             exists ds,
               (48 + r)%N :: acc = ds ++ acc
               /\ digits_value ds = Z.of_N n
               /\ forallb is_digit ds = true
               /\ ds <> []
               /\ (forall t, ds = 48%N :: t -> t = [])).
  { intros n r acc -> Hr; exists [(48 + r)%N]; repeat split.
    - unfold digits_value; cbn [fold_left]; lia.
    - cbn [forallb]; now rewrite (Hdigit r Hr).
    - discriminate.
    - intros t H; now injection H. }
  induction fuel as [|f IH]; intros n acc Hn; cbn [decimal_aux];
    destruct (div_mod_10 n) as (q & r & -> & -> & Hqr & Hr).
  - destruct (N.eqb_spec q 0) as [Hq|Hq]; [apply Hone; lia|].
    change (2 ^ N.of_nat 1)%N with 2%N in Hn; lia.
  - destruct (N.eqb_spec q 0) as [Hq|Hq]; [apply Hone; lia|].
    assert (Hn' : (q < 2 ^ N.of_nat (S f))%N).
    { rewrite (Nat2N.inj_succ (S f)), N.pow_succ_r' in Hn; lia. }
    destruct (IH q ((48 + r)%N :: acc) Hn')
      as (ds & E & Hv & Hd & Hne & Hz).
    exists (ds ++ [(48 + r)%N]); repeat split.
    + cbn [decimal_aux] in E; rewrite E; now rewrite <- app_assoc.
    + rewrite digits_value_snoc, Hv; lia.
    + rewrite forallb_app, Hd; cbn [forallb]; now rewrite (Hdigit r Hr).
    + destruct ds; discriminate.
    + intros t H; destruct ds as [|d ds]; [congruence|].
      injection H as -> _.
      specialize (Hz ds eq_refl); subst ds.
      unfold digits_value in Hv; cbn in Hv; lia.
Qed.

Lemma decimal_spec (z : Z) :
  (0 <= z)%Z ->
  digits_value (decimal z) = z
  /\ forallb is_digit (decimal z) = true
  /\ decimal z <> []
  /\ (forall t, decimal z = 48%N :: t -> t = []).
Proof.
  intros Hz; unfold decimal; cbv zeta.
  set (m := Z.to_N z).
  assert (Hm : (m < 2 ^ N.of_nat (S (N.to_nat (N.log2 m))))%N).
  { rewrite Nat2N.inj_succ, N2Nat.id.
    destruct (N.eq_dec m 0) as [->|Hne]; [reflexivity|].
    apply N.log2_spec; lia. }
  destruct (decimal_aux_spec _ m [] Hm) as (ds & E & Hv & Hd & Hne & Hz0).
  rewrite E, app_nil_r; repeat split; auto.
  rewrite Hv; unfold m; lia.
Qed.

(** *** What follows a value *)

Lemma delimited_cases (rest : str) :
  delimited rest = true ->
  rest = []
  \/ exists c t, rest = c :: t /\ (c = 44 \/ c = 93 \/ c = 125)%N.
Proof.
  destruct rest as [|c t]; [now left|]; intros H; right.
  exists c, t; split; [reflexivity|].
  unfold delimited in H.
  destruct (N.eqb_spec c 44); [tauto|].
  destruct (N.eqb_spec c 93); [tauto|].
  destruct (N.eqb_spec c 125); [tauto | discriminate].
Qed.

Lemma delimited_skip_ws (rest : str) :
  delimited rest = true -> skip_ws rest = rest.
Proof.
  intros H; destruct (delimited_cases rest H)
    as [->|(c & t & -> & [->|[->| ->]])]; reflexivity.
Qed.

Lemma span_digits_app (ds rest : str) :
  forallb is_digit ds = true ->
  delimited rest = true ->
  span_digits (ds ++ rest) = (ds, rest).
Proof.
  intros Hds Hrest; induction ds as [|d ds IH].
  - destruct (delimited_cases rest Hrest)
      as [->|(c & t & -> & [->|[->| ->]])]; reflexivity.
  - cbn [forallb] in Hds; apply andb_true_iff in Hds as [Hd Hds].
    cbn [app span_digits]; now rewrite Hd, (IH Hds).
Qed.

Lemma take_frac_delimited (rest : str) :
  delimited rest = true -> take_frac rest = ([], rest).
Proof.
  intros H; destruct (delimited_cases rest H)
    as [->|(c & t & -> & [->|[->| ->]])]; reflexivity.
Qed.

Lemma take_exp_delimited (rest : str) :
  delimited rest = true -> take_exp rest = (None, rest).
Proof.
  intros H; destruct (delimited_cases rest H)
    as [->|(c & t & -> & [->|[->| ->]])]; reflexivity.
Qed.

Lemma digit_bounds (c : char) :
  is_digit c = true -> (48 <= c <= 57)%N.
Proof.
  unfold is_digit; intros H; apply andb_true_iff in H as [H1 H2].
  apply N.leb_le in H1, H2; lia.
Qed.

Lemma take_int_decimal (ds rest : str) :
  forallb is_digit ds = true ->
  (forall t, ds = 48%N :: t -> t = []) ->
  delimited rest = true ->
  take_int (ds ++ rest) = (ds, rest).
Proof.
  intros Hds Hz Hrest; unfold take_int.
  destruct ds as [|d t].
  - cbn [app]; destruct (delimited_cases rest Hrest)
      as [->|(c & r & -> & [->|[->| ->]])]; reflexivity.
  - cbn [app expect]; destruct (N.eqb_spec d 48) as [->|Hd].
    + now rewrite (Hz t eq_refl).
    + now apply (span_digits_app (d :: t)).
Qed.

(** The decoder reads the digits of an integer back as they were
    written. *)
Lemma match_number_int (z : Z) (rest : str) :
  delimited rest = true ->
  match_number (encode_int z ++ rest)
  = Some (number_value (z <? 0)%Z (decimal (Z.abs z)) [] None, rest).
Proof.
  intros Hrest.
  destruct (decimal_spec (Z.abs z) (Z.abs_nonneg z))
    as (Hv & Hd & Hne & Hz).
  unfold match_number, encode_int.
  assert (Hsign : take_sign (((if (z <? 0)%Z then lit "-" else [])
                                +++ decimal (Z.abs z)) ++ rest)
                  = ((z <? 0)%Z, decimal (Z.abs z) ++ rest)).
  { destruct (z <? 0)%Z; [reflexivity|].
    cbn [app]; destruct (decimal (Z.abs z)) as [|d t]; [congruence|].
    cbn [forallb] in Hd; apply andb_true_iff in Hd as [Hd _].
    apply digit_bounds in Hd.
    unfold take_sign; cbn [app expect].
    destruct (N.eqb_spec d 45); [lia | reflexivity]. }
  rewrite Hsign, (take_int_decimal _ _ Hd Hz Hrest).
  destruct (decimal (Z.abs z)) as [|d t]; [congruence|].
  now rewrite (take_frac_delimited _ Hrest), (take_exp_delimited _ Hrest).
Qed.

(** *** The scanner, by the first character of the text *)

Lemma scan_once_string (f d : nat) (t : str) :
  scan_once (S f) d (34%N :: t)
  = (p <- scanstring t [] ;; Ok (JStr (fst p), snd p)).
Proof. reflexivity. Qed.

Lemma scan_once_object (f d : nat) (t : str) :
  scan_once (S f) (S d) (123%N :: t)
  = match expect 125%N (skip_ws t) with
    | Some r => Ok (JDict [], r)
    | None => object_loop f d (skip_ws t) []
    end.
Proof. reflexivity. Qed.

Lemma scan_once_array (f d : nat) (t : str) :
  scan_once (S f) (S d) (91%N :: t)
  = match expect 93%N (skip_ws t) with
    | Some r => Ok (JList [], r)
    | None => array_loop f d (skip_ws t) []
    end.
Proof. reflexivity. Qed.

Lemma startswith_head (p s : str) (x y : char) :
  x <> y -> startswith (x :: p) (y :: s) = false.
Proof.
  intros H; cbn [startswith]; destruct (N.eqb_spec x y); [tauto | reflexivity].
Qed.

Lemma scan_once_number (f d : nat) (c : char) (t : str) (r : result json)
    (s' : str) :
  c = 45%N \/ is_digit c = true ->
  match_number (c :: t) = Some (r, s') ->
  scan_once (S f) d (c :: t) = (v <- r ;; Ok (v, s')).
Proof.
  intros Hc Hm.
  assert (Hb : (c = 45 \/ 48 <= c <= 57)%N).
  { destruct Hc as [->|Hc]; [now left | right; now apply digit_bounds]. }
  cbn [scan_once].
  destruct (N.eqb_spec c 34); [lia|].
  destruct (N.eqb_spec c 123); [lia|].
  destruct (N.eqb_spec c 91); [lia|].
  change (lit "null") with (110%N :: lit "ull").
  change (lit "true") with (116%N :: lit "rue").
  change (lit "false") with (102%N :: lit "alse").
  rewrite !startswith_head by lia.
  now rewrite Hm.
Qed.

Lemma encode_int_head (z : Z) :
  exists c t, encode_int z = c :: t /\ (c = 45%N \/ is_digit c = true).
Proof.
  destruct (decimal_spec (Z.abs z) (Z.abs_nonneg z)) as (_ & Hd & Hne & _).
  unfold encode_int; destruct (z <? 0)%Z.
  - exists 45%N, (decimal (Z.abs z)); split; [reflexivity | now left].
  - destruct (decimal (Z.abs z)) as [|d t]; [congruence|].
    exists d, t; split; [reflexivity | right].
    cbn [forallb] in Hd; now apply andb_true_iff in Hd as [Hd _].
Qed.

Lemma scan_once_int (f d : nat) (z : Z) (rest : str) :
  plain (JInt z) = true ->
  delimited rest = true ->
  scan_once (S f) d (encode_int z ++ rest) = Ok (JInt z, rest).
Proof.
  intros Hp Hrest.
  pose proof (match_number_int z rest Hrest) as Hm.
  destruct (encode_int_head z) as (c & t & E & Hc).
  rewrite E in *; cbn [app] in *.
  rewrite (scan_once_number f d c (t ++ rest) _ _ Hc Hm).
  unfold number_value.
  cbn [plain] in Hp; apply Nat.leb_le in Hp.
  destruct (Nat.ltb_spec int_max_str_digits (length (decimal (Z.abs z))));
    [lia|].
  destruct (decimal_spec (Z.abs z) (Z.abs_nonneg z)) as (Hv & _).
  cbv zeta; rewrite Hv; cbn [rbind]; do 3 f_equal.
  destruct (Z.ltb_spec z 0); lia.
Qed.

(** *** The shape of an encoded value *)

Lemma encode_list (items : list json) :
  encode (JList items) = lit "[" ++ encode_items items ++ lit "]".
Proof. reflexivity. Qed.

Lemma encode_dict (pairs : list (str * json)) :
  encode (JDict pairs) = lbrace ++ encode_pairs pairs ++ rbrace.
Proof. reflexivity. Qed.

Lemma plain_dict (pairs : list (str * json)) :
  plain (JDict pairs)
  = distinct (map fst pairs) && forallb (fun kv => plain (snd kv)) pairs.
Proof. reflexivity. Qed.

(** An encoded value starts with a character that is neither space nor
    a closing bracket or brace. *)
Lemma encode_head (v : json) :
  plain v = true ->
  exists c t,
    encode v = c :: t
    /\ is_ws c = false /\ c <> 93%N /\ c <> 125%N /\ c <> 65279%N.
Proof.
  intros Hp; destruct v as [|[|]|z|f|s|l|d]; try discriminate;
    try (eexists _, _; split; [reflexivity|];
         repeat split; discriminate).
  destruct (encode_int_head z) as (c & t & E & Hc).
  exists c, t; split; [exact E|].
  assert (Hb : (c = 45 \/ 48 <= c <= 57)%N).
  { destruct Hc as [->|Hc]; [now left | right; now apply digit_bounds]. }
  unfold is_ws; repeat split; try lia.
  destruct (N.eqb_spec c 32); [lia|].
  destruct (N.eqb_spec c 9); [lia|].
  destruct (N.eqb_spec c 10); [lia|].
  destruct (N.eqb_spec c 13); [lia | reflexivity].
Qed.

Lemma skip_ws_encode (v : json) (rest : str) :
  plain v = true -> skip_ws (encode v ++ rest) = encode v ++ rest.
Proof.
  intros Hp; destruct (encode_head v Hp) as (c & t & -> & Hws & _).
  cbn [app skip_ws]; now rewrite Hws.
Qed.

Lemma expect_encode (v : json) (rest : str) (c : char) :
  plain v = true -> c = 93%N \/ c = 125%N ->
  expect c (encode v ++ rest) = None.
Proof.
  intros Hp Hc; destruct (encode_head v Hp) as (x & t & -> & _ & H1 & H2 & _).
  cbn [app expect]; destruct (N.eqb_spec x c); [|reflexivity].
  destruct Hc; congruence.
Qed.

(** *** Reading an encoded value back *)

(** The scanner, given the fuel of [weight] and a recursion depth of
    [nesting], reads [v] back from its encoding and leaves what
    follows it. *)
Local Notation reads_back v :=
  (forall fuel depth rest,
      weight v <= fuel -> nesting v <= depth -> delimited rest = true ->
      scan_once fuel depth (encode v ++ rest) = Ok (v, rest)).

Lemma array_loop_encode (items : list json) :
  Forall (fun v => plain v = true -> reads_back v) items ->
  forallb plain items = true ->
  items <> [] ->
  forall fuel depth acc rest,
    fold_right (fun x n => S (weight x + n)) 0 items <= fuel ->
    fold_right (fun x n => Nat.max (nesting x) n) 0 items <= depth ->
    array_loop fuel depth (encode_items items ++ lit "]" ++ rest) acc
    = Ok (JList (acc ++ items), rest).
Proof.
  induction 1 as [|x l Hx Hl IH]; [congruence|].
  intros Hp _ fuel depth acc rest Hfuel Hdepth.
  cbn [forallb] in Hp; apply andb_true_iff in Hp as [Hpx Hpl].
  cbn [fold_right] in Hfuel, Hdepth.
  destruct fuel as [|f]; [lia|].
  cbn [array_loop encode_items].
  destruct l as [|y l'].
  - rewrite app_nil_r.
    rewrite (Hx Hpx f depth (lit "]" ++ rest)) by (lia || reflexivity).
    reflexivity.
  - rewrite <- !app_assoc.
    rewrite (Hx Hpx f depth) by (lia || reflexivity).
    cbn [rbind fst snd].
    change (skip_ws (lit "," ++ ?t)) with (lit "," ++ t).
    change (expect 93%N (lit "," ++ ?t)) with (@None str).
    change (expect 44%N (lit "," ++ ?t)) with (Some t).
    cbv iota.
    assert (Hy : plain y = true).
    { cbn [forallb] in Hpl; now apply andb_true_iff in Hpl as [Hy _]. }
    cbn [encode_items]; rewrite <- app_assoc.
    rewrite (skip_ws_encode y _ Hy), app_assoc.
    change (encode y ++ match l' with
                        | [] => []
                        | _ :: _ => lit "," ++ encode_items l'
                        end) with (encode_items (y :: l')).
    rewrite (IH Hpl ltac:(discriminate) f depth (acc ++ [x]) rest) by lia.
    now rewrite <- app_assoc.
Qed.

Lemma distinct_middle (l1 l2 : list str) (k : str) :
  distinct (l1 ++ k :: l2) = true -> str_in k l1 = false.
Proof.
  induction l1 as [|a l1 IH]; [reflexivity|].
  cbn [app distinct]; intros H; apply andb_true_iff in H as [Ha Hd].
  apply negb_true_iff in Ha.
  destruct (str_in k (a :: l1)) eqn:E; [|reflexivity].
  apply str_in_In in E; destruct E as [->|E].
  - assert (Hin : str_in k (l1 ++ k :: l2) = true).
    { apply str_in_In, in_elt. }
    congruence.
  - apply str_in_In in E; rewrite (IH Hd) in E; discriminate.
Qed.

Lemma dict_set_fresh (d : list (str * json)) (k : str) (v : json) :
  str_in k (map fst d) = false -> dict_set d k v = d ++ [(k, v)].
Proof.
  induction d as [|[k' v'] d IH]; [reflexivity|].
  intros H; cbn [dict_set app].
  destruct (Str.eqb k' k) eqn:E.
  - apply eqb_eq in E; subst k'.
    assert (Hin : str_in k (map fst ((k, v') :: d)) = true).
    { apply str_in_In; now left. }
    congruence.
  - f_equal; apply IH.
    destruct (str_in k (map fst d)) eqn:E'; [|reflexivity].
    assert (Hin : str_in k (map fst ((k', v') :: d)) = true).
    { apply str_in_In; right; now apply str_in_In. }
    congruence.
Qed.

Lemma object_loop_encode (pairs : list (str * json)) :
  Forall (fun kv => plain (snd kv) = true -> reads_back (snd kv)) pairs ->
  forallb (fun kv => plain (snd kv)) pairs = true ->
  pairs <> [] ->
  forall fuel depth acc rest,
    distinct (map fst (acc ++ pairs)) = true ->
    fold_right (fun kv n => S (weight (snd kv) + n)) 0 pairs <= fuel ->
    fold_right (fun kv n => Nat.max (nesting (snd kv)) n) 0 pairs <= depth ->
    object_loop fuel depth (encode_pairs pairs ++ rbrace ++ rest) acc
    = Ok (JDict (acc ++ pairs), rest).
Proof.
  induction 1 as [|[k v] l Hx Hl IH]; [congruence|].
  intros Hp _ fuel depth acc rest Hd Hfuel Hdepth.
  cbn [forallb snd] in Hp; apply andb_true_iff in Hp as [Hpv Hpl].
  cbn [fold_right snd] in Hfuel, Hdepth; cbn [snd] in Hx.
  destruct fuel as [|f]; [lia|].
  assert (Hset : dict_set acc k v = acc ++ [(k, v)]).
  { apply dict_set_fresh.
    rewrite map_app in Hd; cbn [map fst] in Hd.
    now apply distinct_middle in Hd. }
  cbn [object_loop encode_pairs fst snd].
  rewrite <- !app_assoc.
  destruct (encode_string_scan k
              (lit ":" ++ encode v
                 ++ match l with
                    | [] => []
                    | _ :: _ => lit "," ++ encode_pairs l
                    end ++ rbrace ++ rest))
    as (t & E & Hs).
  rewrite E.
  change (expect 34%N (34%N :: t)) with (Some t).
  cbv iota; rewrite Hs; cbn [rbind fst snd].
  change (skip_ws (lit ":" ++ ?u)) with (lit ":" ++ u).
  change (expect 58%N (lit ":" ++ ?u)) with (Some u).
  cbv iota; rewrite (skip_ws_encode v _ Hpv).
  destruct l as [|[k' v'] l'].
  - cbn [app].
    rewrite (Hx Hpv f depth (rbrace ++ rest)) by (lia || reflexivity).
    cbn [rbind fst snd]; rewrite Hset; reflexivity.
  - rewrite <- !app_assoc.
    rewrite (Hx Hpv f depth) by (lia || reflexivity).
    cbn [rbind fst snd]; rewrite Hset.
    change (skip_ws (lit "," ++ ?u)) with (lit "," ++ u).
    change (expect 125%N (lit "," ++ ?u)) with (@None str).
    change (expect 44%N (lit "," ++ ?u)) with (Some u).
    cbv iota.
    change (skip_ws (encode_pairs ((k', v') :: l') ++ ?u))
      with (encode_pairs ((k', v') :: l') ++ u).
    rewrite (IH Hpl ltac:(discriminate) f depth (acc ++ [(k, v)]) rest).
    + now rewrite <- app_assoc.
    + now rewrite <- app_assoc.
    + lia.
    + lia.
Qed.

Lemma scan_once_encode (v : json) : plain v = true -> reads_back v.
Proof.
  induction v as [|b|z|x|s|l IH|d IH] using json_induction;
    intros Hp fuel depth rest Hfuel Hdepth Hrest;
    (destruct fuel as [|f]; [cbn [weight] in Hfuel; lia|]).
  - reflexivity.
  - destruct b; reflexivity.
  - now apply scan_once_int.
  - discriminate.
  - destruct (encode_string_scan s rest) as (t & E & Hs).
    change (encode (JStr s)) with (encode_string s).
    now rewrite E, scan_once_string, Hs.
  - rewrite encode_list, <- !app_assoc.
    change (lit "[" ++ ?u) with (91%N :: u).
    cbn [nesting] in Hdepth.
    destruct depth as [|dp]; [lia|].
    rewrite scan_once_array.
    destruct l as [|x l']; [reflexivity|].
    assert (Hx : plain x = true).
    { cbn [plain forallb] in Hp; now apply andb_true_iff in Hp as [Hx _]. }
    cbn [encode_items]; rewrite <- !app_assoc.
    rewrite (skip_ws_encode x _ Hx), (expect_encode x _ 93%N Hx)
      by now left.
    rewrite !app_assoc, <- (app_assoc _ (lit "]") rest).
    change (encode x ++ match l' with
                        | [] => []
                        | _ :: _ => lit "," ++ encode_items l'
                        end) with (encode_items (x :: l')).
    apply (array_loop_encode (x :: l') IH Hp ltac:(discriminate)
             f dp [] rest).
    + cbn [weight] in Hfuel; lia.
    + lia.
  - rewrite encode_dict, <- !app_assoc.
    change (lbrace ++ ?u) with (123%N :: u).
    cbn [nesting] in Hdepth.
    destruct depth as [|dp]; [lia|].
    rewrite scan_once_object.
    destruct d as [|[k x] d']; [reflexivity|].
    rewrite plain_dict in Hp; apply andb_true_iff in Hp as [Hd Hp].
    change (skip_ws (encode_pairs ((k, x) :: d') ++ ?u))
      with (encode_pairs ((k, x) :: d') ++ u).
    change (expect 125%N (encode_pairs ((k, x) :: d') ++ ?u))
      with (@None str).
    cbv iota.
    apply (object_loop_encode ((k, x) :: d') IH Hp ltac:(discriminate)
             f dp [] rest Hd).
    + cbn [weight] in Hfuel; lia.
    + lia.
Qed.

(** The fuel [loads] gives is enough. *)
Lemma weight_encode (v : json) :
  plain v = true -> weight v <= length (encode v).
Proof.
  induction v as [|b|z|x|s|l IH|d IH] using json_induction; intros Hp.
  - cbn; lia.
  - destruct b; cbn; lia.
  - destruct (encode_int_head z) as (c & t & E & _).
    change (encode (JInt z)) with (encode_int z); rewrite E; cbn; lia.
  - discriminate.
  - cbn [weight encode]; unfold encode_string; rewrite !length_app; cbn; lia.
  - rewrite encode_list, !length_app; cbn [weight]; cbn [plain] in Hp.
    change (length (lit "[")) with 1; change (length (lit "]")) with 1.
    enough (fold_right (fun x n => S (weight x + n)) 0 l
            <= S (length (encode_items l))) by lia.
    clear -IH Hp; induction IH as [|x l Hx Hl IHl]; [cbn; lia|].
    cbn [forallb] in Hp; apply andb_true_iff in Hp as [Hpx Hpl].
    specialize (Hx Hpx); specialize (IHl Hpl).
    cbn [fold_right encode_items]; rewrite length_app.
    destruct l; [cbn in *; lia|].
    rewrite length_app; change (length (lit ",")) with 1; lia.
  - rewrite encode_dict, !length_app; cbn [weight].
    rewrite plain_dict in Hp; apply andb_true_iff in Hp as [_ Hp].
    change (length lbrace) with 1; change (length rbrace) with 1.
    enough (fold_right (fun kv n => S (weight (snd kv) + n)) 0 d
            <= S (length (encode_pairs d))) by lia.
    clear -IH Hp; induction IH as [|x l Hx Hl IHl]; [cbn; lia|].
    cbn [forallb] in Hp; apply andb_true_iff in Hp as [Hpx Hpl].
    specialize (Hx Hpx); specialize (IHl Hpl).
    cbn [fold_right encode_pairs]; rewrite !length_app.
    destruct l; [cbn in *; lia|].
    rewrite length_app; change (length (lit ",")) with 1; lia.
Qed.


(** *** The encoded text is on one line *)

Lemma hex_digit_not_nl (n : N) : hex_digit n <> 10%N.
Proof. unfold hex_digit; destruct (n <? 10)%N; lia. Qed.

Lemma encode_char_one_line (c : char) : ~ In 10%N (encode_char c).
Proof.
  unfold encode_char.
  destruct (N.eqb_spec c 34); [cbn; intuition discriminate|].
  destruct (N.eqb_spec c 92); [cbn; intuition discriminate|].
  destruct (N.ltb_spec c 32) as [Hlt|Hge].
  - pose proof (hex_digit_not_nl (c / 16)).
    pose proof (hex_digit_not_nl (c mod 16)).
    cbn [In]; intuition discriminate.
  - cbn [In]; intros [E|[]]; lia.
Qed.

Lemma encode_string_one_line (s : str) : ~ In 10%N (encode_string s).
Proof.
  unfold encode_string, dq; intros H.
  apply in_app_or in H as [H|H]; [cbn in H; intuition discriminate|].
  apply in_app_or in H as [H|H]; [|cbn in H; intuition discriminate].
  apply in_flat_map in H as (c & _ & H).
  now apply encode_char_one_line in H.
Qed.

Lemma encode_int_one_line (z : Z) : ~ In 10%N (encode_int z).
Proof.
  destruct (decimal_spec (Z.abs z) (Z.abs_nonneg z)) as (_ & Hd & _).
  unfold encode_int; intros H; apply in_app_or in H as [H|H].
  - destruct (z <? 0)%Z; cbn in H; intuition discriminate.
  - rewrite forallb_forall in Hd; apply Hd, digit_bounds in H; lia.
Qed.

Lemma encode_one_line (v : json) : plain v = true -> ~ In 10%N (encode v).
Proof.
  induction v as [|b|z|x|s|l IH|d IH] using json_induction; intros Hp.
  - cbn; intuition discriminate.
  - destruct b; cbn; intuition discriminate.
  - apply encode_int_one_line.
  - discriminate.
  - apply encode_string_one_line.
  - rewrite encode_list; cbn [plain] in Hp.
    enough (~ In 10%N (encode_items l)) as Hl.
    { intros H; apply in_app_or in H as [H|H];
        [cbn in H; intuition discriminate|].
      apply in_app_or in H as [H|H]; [tauto|].
      cbn in H; intuition discriminate. }
    clear -IH Hp; induction IH as [|x l Hx Hl IHl]; [now cbn|].
    cbn [forallb] in Hp; apply andb_true_iff in Hp as [Hpx Hpl].
    specialize (Hx Hpx); specialize (IHl Hpl).
    cbn [encode_items]; intros H; apply in_app_or in H as [H|H]; [tauto|].
    destruct l; [now cbn in H|].
    apply in_app_or in H as [H|H]; [cbn in H; intuition discriminate|tauto].
  - rewrite encode_dict.
    rewrite plain_dict in Hp; apply andb_true_iff in Hp as [_ Hp].
    enough (~ In 10%N (encode_pairs d)) as Hl.
    { unfold lbrace, rbrace; intros H; apply in_app_or in H as [H|H];
        [cbn in H; intuition discriminate|].
      apply in_app_or in H as [H|H]; [tauto|].
      cbn in H; intuition discriminate. }
    clear -IH Hp; induction IH as [|x l Hx Hl IHl]; [now cbn|].
    cbn [forallb] in Hp; apply andb_true_iff in Hp as [Hpx Hpl].
    specialize (Hx Hpx); specialize (IHl Hpl).
    cbn [encode_pairs]; intros H.
    apply in_app_or in H as [H|H];
      [now apply encode_string_one_line in H|].
    apply in_app_or in H as [H|H]; [cbn in H; intuition discriminate|].
    apply in_app_or in H as [H|H]; [tauto|].
    destruct l; [now cbn in H|].
    apply in_app_or in H as [H|H]; [cbn in H; intuition discriminate|tauto].
Qed.


(** *** The parser on a call written with the reference encoder *)


(** *** Beyond the digit limit *)








End CodecFacts.

(** ** The sample data, run *)

Local Notation run_turn :=
  (process_message Json.loads Mock.ollama_chat Mock.session_call_tool).
Local Notation run_round :=
  (chat_loop_iteration Json.loads Mock.ollama_chat Mock.session_call_tool).
Local Notation run_tool := (call_mcp_tool Mock.session_call_tool).
Local Notation hist st := (conversation_history (client st)).

(** The scenario of the specification, by both turn operations, and the
    two paths of a turn. *)
Lemma turn_commit_invariant_witness :
  (hist (snd (run_turn Sample.utterance Sample.scenario))
   = [] ++ [Msg user Sample.utterance; Msg assistant Sample.narration]
   /\ length (hist (snd (run_turn Sample.utterance Sample.scenario))) = 0 + 2)
  /\ (hist (snd (run_round (system_prompt_for
                              (format_tools_for_llm [Sample.list_s3_buckets]))
                           (lit "  List my S3 buckets ") Sample.scenario))
      = [] ++ [Msg user Sample.utterance; Msg assistant Sample.narration]
      /\ length (hist (snd (run_round
                              (system_prompt_for
                                 (format_tools_for_llm [Sample.list_s3_buckets]))
                              (lit "  List my S3 buckets ") Sample.scenario)))
         = 0 + 2)
  /\ (exists st', run_turn Sample.utterance Sample.direct
                  = (Ok Sample.greeting, st'))
  /\ (exists st', run_turn Sample.utterance Sample.scenario
                  = (Ok Sample.narration, st')).
Proof.
  pose proof (turn_commit_invariant Json.loads Mock.World Mock.ollama_chat
                Mock.session_call_tool) as (H1 & H2 & H3 & H4).
  split; [|split; [|split]].
  - apply (H1 Sample.utterance Sample.scenario Sample.narration).
    vm_compute; reflexivity.
  - apply (H2 (system_prompt_for (format_tools_for_llm [Sample.list_s3_buckets]))
              (lit "  List my S3 buckets ") Sample.scenario Sample.narration).
    vm_compute; reflexivity.
  - eapply (H3 Sample.utterance Sample.direct Sample.greeting).
    + vm_compute; reflexivity.
    + vm_compute; reflexivity.
  - eapply (H4 Sample.utterance Sample.scenario Sample.decision _
               (lit "list_s3_buckets") empty_dict (lit "bucket-a, bucket-b")).
    + vm_compute; reflexivity.
    + vm_compute; reflexivity.
    + vm_compute; reflexivity.
    + vm_compute; reflexivity.
Defined.



(** C3 fails as stated: here the decision call raises with a message that
    itself carries a tool call whose argument is too long an integer; the
    parser raises [ValueError] on the error text, the turn raises with it
    and the history stays as it was. *)
Lemma llm_failure_can_abort_the_turn :
  let st := Sample.poisoned in
  let decision :=
    Mock.ollama_chat (model_name (client st))
      (messages_for
         (system_prompt_for (format_tools_for_llm (available_tools (client st))))
         (hist st) Sample.utterance)
      (world st) in
  (fst decision = Raise (Exn OtherError Sample.long_integer_call)
   /\ (exists e',
          fst (run_turn Sample.utterance st) = Raise e'
          /\ exn_kind e' = ValueError)
   /\ hist (snd (run_turn Sample.utterance st)) = hist st)
  /\ ~ (forall u st e w,
           Mock.ollama_chat (model_name (client st))
             (messages_for
                (system_prompt_for
                   (format_tools_for_llm (available_tools (client st))))
                (hist st) u)
             (world st) = (Raise e, w) ->
           exists ans st', run_turn u st = (Ok ans, st')).
Proof.
  assert (Hrun : exists e',
             fst (run_turn Sample.utterance Sample.poisoned) = Raise e'
             /\ exn_kind e' = ValueError).
  { eexists; split; [vm_compute; reflexivity | reflexivity]. }
  split; [split; [reflexivity|split]|].
  - exact Hrun.
  - vm_compute; reflexivity.
  - intros H.
    destruct (H Sample.utterance Sample.poisoned
                (Exn OtherError Sample.long_integer_call)
                {| Mock.llm_replies := []; Mock.tool_replies := [] |} eq_refl)
      as (ans & st' & Hok).
    destruct Hrun as (e' & He' & _).
    rewrite Hok in He'; discriminate He'.
Qed.

(** The LLM cannot be reached: the turn answers with the error text and
    commits it. *)
Lemma llm_failure_is_text_witness :
  let err := lit "Error calling LLM: Failed to connect to Ollama" in
  exists st',
    run_turn Sample.utterance Sample.llm_down = (Ok err, st')
    /\ hist st' = [] ++ [Msg user Sample.utterance; Msg assistant err].
Proof.
  refine (proj1 (proj2 (llm_failure_is_text Json.loads Mock.World
                          Mock.ollama_chat Mock.session_call_tool
                          Sample.utterance Sample.llm_down
                          (Exn OtherError (lit "Failed to connect to Ollama"))
                          (world Sample.llm_down) _)) _).
  - vm_compute; reflexivity.
  - vm_compute; reflexivity.
Defined.

(** The backend times out. *)
Lemma tool_failure_is_text_witness :
  let text := lit "Error calling tool list_s3_buckets: Request timed out" in
  (exists st',
      run_tool (lit "list_s3_buckets") empty_dict Sample.backend_down
      = (Ok text, st'))
  /\ contains (lit "list_s3_buckets") text = true
  /\ contains (lit "Request timed out") text = true.
Proof.
  refine (proj1 (tool_failure_is_text Json.loads Mock.World Mock.ollama_chat
                   Mock.session_call_tool)
            (lit "list_s3_buckets") empty_dict Sample.backend_down
            Sample.timeout _ _).
  vm_compute; reflexivity.
Defined.

(** C5 fails as stated: for a reply whose [content] is a tuple, not a
    list, the text returned is the string form of the content, not that of
    the reply. *)
Lemma content_that_is_not_a_list :
  let st := Sample.replying Sample.tuple_reply in
  (fst (Mock.session_call_tool (lit "list_s3_buckets") empty_dict (world st))
   = Ok Sample.tuple_reply
   /\ fst (run_tool (lit "list_s3_buckets") empty_dict st)
      = Ok (lit "('bucket-a',)")
   /\ reply_str Sample.tuple_reply = lit "Reply(content=('bucket-a',))")
  /\ ~ (forall n a st reply w,
           Mock.session_call_tool n a (world st) = (Ok reply, w) ->
           (forall c p rest,
               reply_content reply = Some c -> shape c <> IsList (p :: rest)) ->
           fst (run_tool n a st) = Ok (reply_str reply)).
Proof.
  split; [repeat split|].
  intros H.
  specialize (H (lit "list_s3_buckets") empty_dict
                (Sample.replying Sample.tuple_reply) Sample.tuple_reply
                {| Mock.llm_replies := []; Mock.tool_replies := [] |} eq_refl).
  assert (Hshape : forall c p rest,
             reply_content Sample.tuple_reply = Some c ->
             shape c <> IsList (p :: rest)).
  { intros c p rest Hc; injection Hc as <-; discriminate. }
  specialize (H Hshape).
  assert (E : fst (run_tool (lit "list_s3_buckets") empty_dict
                     (Sample.replying Sample.tuple_reply))
              = Ok (lit "('bucket-a',)")) by reflexivity.
  rewrite E in H; discriminate H.
Qed.

(** One reply of each shape. *)
Lemma reply_normalised_witness :
  fst (run_tool (lit "list_s3_buckets") empty_dict Sample.scenario)
  = Ok (lit "bucket-a, bucket-b")
  /\ fst (run_tool (lit "t") empty_dict (Sample.replying Sample.tuple_reply))
     = Ok (lit "('bucket-a',)")
  /\ fst (run_tool (lit "t") empty_dict (Sample.replying Sample.empty_reply))
     = Ok (lit "CallToolResult(content=[])")
  /\ fst (run_tool (lit "t") empty_dict (Sample.replying Sample.bare_reply))
     = Ok (lit "ok")
  /\ fst (run_tool (lit "t") empty_dict (Sample.replying Sample.image_reply))
     = Ok (lit "Error calling tool t: 'ImageContent' object has no attribute 'text'").
Proof.
  pose proof (fun n st reply H =>
                reply_normalised Mock.World Mock.session_call_tool
                  n empty_dict st reply (snd (Mock.session_call_tool
                                                n empty_dict (world st))) H)
    as R.
  split; [|split; [|split; [|split]]].
  - destruct (R (lit "list_s3_buckets") Sample.scenario
                (Mock.text_reply (lit "bucket-a, bucket-b")) eq_refl)
      as (H & _).
    eapply H; reflexivity.
  - destruct (R (lit "t") (Sample.replying Sample.tuple_reply)
                Sample.tuple_reply eq_refl) as (_ & H & _).
    apply (H {| shape := NotList true; content_str := lit "('bucket-a',)" |});
      reflexivity.
  - destruct (R (lit "t") (Sample.replying Sample.empty_reply)
                Sample.empty_reply eq_refl) as (_ & _ & H & _).
    eapply H; reflexivity.
  - destruct (R (lit "t") (Sample.replying Sample.bare_reply)
                Sample.bare_reply eq_refl) as (_ & _ & _ & H & _).
    apply H; reflexivity.
  - destruct (R (lit "t") (Sample.replying Sample.image_reply)
                Sample.image_reply eq_refl) as (_ & _ & _ & _ & H).
    apply (H {| shape := IsList [{| part_class := lit "ImageContent";
                                    part_text := None |}];
                content_str := lit "[ImageContent(...)]" |}
             {| part_class := lit "ImageContent"; part_text := None |} []);
      reflexivity.
Defined.

(** C6 fails as stated: with a line break right after the marker, the
    first line of what follows the marker is empty, yet the tool name is
    read from the text after the line break. *)
Lemma text_after_a_leading_line_break :
  (parse_tool_call Json.loads (marker ++ [] ++ nl ++ lit "list_buckets")
   = Ok (Some (lit "list_buckets", empty_dict))
   /\ parse_tool_call Json.loads (marker ++ [])
      = Ok (Some ([], empty_dict)))
  /\ ~ (forall x rest,
           contains nl x = false ->
           parse_tool_call Json.loads (marker ++ x ++ nl ++ rest)
           = parse_tool_call Json.loads (marker ++ x)).
Proof.
  split; [split; vm_compute; reflexivity|].
  intros H; specialize (H [] (lit "list_buckets") eq_refl).
  assert (E1 : parse_tool_call Json.loads (marker ++ [] ++ nl ++ lit "list_buckets")
               = Ok (Some (lit "list_buckets", empty_dict)))
    by (vm_compute; reflexivity).
  assert (E2 : parse_tool_call Json.loads (marker ++ [])
               = Ok (Some ([], empty_dict)))
    by (vm_compute; reflexivity).
  rewrite E1, E2 in H; discriminate H.
Qed.

(** A line break before the tool call is skipped; prose after it is
    dropped. *)
Lemma later_lines_discarded_witness :
  parse_tool_call Json.loads (lit "Sure. " ++ marker ++ nl ++ lit " s3 {}")
  = parse_line Json.loads (strip (first_line (strip (nl ++ lit " s3 {}"))))
  /\ parse_tool_call Json.loads
       (lit "Sure. " ++ marker ++ lit " list_s3_buckets {}" ++ nl
          ++ lit "I will list the buckets.")
     = parse_tool_call Json.loads
         (lit "Sure. " ++ marker ++ lit " list_s3_buckets {}").
Proof.
  split.
  - apply (proj1 (later_lines_discarded Json.loads)).
    vm_compute; reflexivity.
  - apply (proj2 (later_lines_discarded Json.loads));
      vm_compute; reflexivity.
Defined.

(** C7 fails as stated: on a tool call whose argument is an integer of
    4301 digits [json.loads] raises [ValueError], which the parser does not
    catch. *)
Lemma parse_can_raise :
  (exists e,
      parse_tool_call Json.loads Sample.long_integer_call = Raise e
      /\ exn_kind e = ValueError)
  /\ ~ (forall text, exists r, parse_tool_call Json.loads text = Ok r).
Proof.
  assert (H : exists e,
             parse_tool_call Json.loads Sample.long_integer_call = Raise e
             /\ exn_kind e = ValueError).
  { eexists; split; [vm_compute; reflexivity | reflexivity]. }
  split; [exact H|].
  intros Hall; destruct (Hall Sample.long_integer_call) as (r & Hr).
  destruct H as (e & He & _); rewrite Hr in He; discriminate He.
Qed.

(** A plain answer, the malformed call of the specification, and a call
    read with no recursion depth left. *)
Lemma parse_lenient_witness :
  parse_tool_call Json.loads Sample.greeting = Ok None
  /\ parse_tool_call Json.loads (lit "TOOL_CALL: foo {not json") = Ok None
  /\ parse_tool_call (Json.loads_within 0) (lit "TOOL_CALL: foo {}")
     = Raise (Json.recursion_error "object").
Proof.
  split; [|split].
  - apply (proj1 (parse_lenient Json.loads Sample.greeting)).
    vm_compute; reflexivity.
  - apply (proj1 (proj2 (parse_lenient Json.loads
                           (lit "TOOL_CALL: foo {not json")))
             (lit "foo {not json") (lit "{not json")
             (Json.decode_error
                "Expecting property name enclosed in double quotes"));
      vm_compute; reflexivity.
  - apply (proj2 (proj2 (proj2 (parse_lenient (Json.loads_within 0)
                                  (lit "TOOL_CALL: foo {}"))))
             (lit "foo {}") (lit "{}"));
      vm_compute; reflexivity.
Defined.

(** Tool calls without arguments. *)
Lemma parse_without_arguments_witness :
  parse_tool_call Json.loads (lit "TOOL_CALL: list_buckets" ++ nl ++ lit "ok")
  = Ok (Some (lit "list_buckets", empty_dict))
  /\ parse_tool_call Json.loads (lit "Let me see. " ++ marker ++ lit "  s3_list ")
     = Ok (Some (strip (lit "  s3_list "), empty_dict)).
Proof.
  split.
  - apply (proj1 (parse_without_arguments Json.loads));
      vm_compute; reflexivity.
  - apply (proj1 (proj2 (parse_without_arguments Json.loads)));
      vm_compute; reflexivity.
Defined.

(** The catalog of the two sample tools. *)
Lemma catalog_deterministic_witness :
  format_tools_for_llm [Sample.list_s3_buckets; Sample.check_resource_compliance]
  = format_tools_for_llm ([Sample.list_s3_buckets] ++ [Sample.check_resource_compliance])
  /\ render_params Sample.check_resource_compliance
     = lit "  Parameters:" ++ nl
         ++ concat (map (render_param Sample.compliance_schema)
                        [(lit "resourceType",
                          {| param_type := Some (lit "string");
                             param_description := Some (lit "Kind of resource") |});
                         (lit "standard",
                          {| param_type := None; param_description := None |})]).
Proof.
  destruct catalog_deterministic as (H1 & _ & _ & H4 & _).
  split.
  - apply H1; reflexivity.
  - apply H4; reflexivity.
Defined.

(** The marker with blanks and a line break, alone and in a turn. *)
Lemma bare_marker_is_forwarded_witness :
  parse_tool_call Json.loads (marker ++ lit "  " ++ nl)
  = Ok (Some ([], empty_dict))
  /\ (exists ans st',
         run_turn Sample.utterance Sample.bare_marker = (Ok ans, st')
         /\ In (EvCallTool [] empty_dict) (trace st'))
  /\ (exists shown st',
         run_round (lit "Be brief.") (lit " List my S3 buckets")
           Sample.bare_marker = (Answered shown, st')
         /\ In (EvCallTool [] empty_dict) (trace st')).
Proof.
  destruct (bare_marker_is_forwarded Json.loads Mock.World Mock.ollama_chat
              Mock.session_call_tool) as (H1 & H2 & H3).
  split; [|split].
  - apply H1; vm_compute; reflexivity.
  - apply (H2 Sample.utterance Sample.bare_marker nl
              {| Mock.llm_replies := [Ok Sample.narration];
                 Mock.tool_replies :=
                   [Raise (Exn OtherError (lit "Unknown tool: "))] |});
      vm_compute; reflexivity.
  - apply (H3 (lit "Be brief.") (lit " List my S3 buckets") 76%N
              (lit "ist my S3 buckets") Sample.bare_marker nl
              {| Mock.llm_replies := [Ok Sample.narration];
                 Mock.tool_replies :=
                   [Raise (Exn OtherError (lit "Unknown tool: "))] |});
      vm_compute; reflexivity.
Defined.

(** * Further properties

    What the code shows besides the properties of the specification. *)

(** ** The parser, further *)

Section ParserShapeFacts.

Variable json_loads : str -> result json.

Lemma first_line_one_line (s : str) : ~ In 10%N (first_line s).
Proof.
  unfold first_line.
  destruct (partition nl s) as [[a b]|] eqn:E.
  - now apply (partition_char_some 10%N) in E as [Ha _].
  - apply contains_char; unfold contains.
    change (partition [10%N] s) with (partition nl s); now rewrite E.
Qed.

Lemma tool_call_line_clean (text line : str) :
  tool_call_line text = Some line ->
  strip line = line /\ ~ In 10%N line.
Proof.
  unfold tool_call_line.
  destruct (partition marker text) as [[pre after]|]; [|discriminate].
  intros H; injection H as <-; split; [apply strip_idem|].
  intros Hin; apply strip_In in Hin; now apply first_line_one_line in Hin.
Qed.

(** When the parser raises, the exception is one [json.loads] raised and
    that is no [JSONDecodeError]. *)
Lemma parse_raises (text : str) (e : exn) :
  parse_tool_call json_loads text = Raise e ->
  is_JSONDecodeError e = false
  /\ exists js, startswith lbrace js = true /\ json_loads js = Raise e.
Proof.
  rewrite parse_tool_call_eq.
  destruct (tool_call_line text) as [line|]; [|discriminate].
  unfold parse_line.
  destruct (partition lbrace line) as [[hd tl]|]; [|discriminate].
  destruct (json_loads (lbrace ++ tl)) as [a|e'] eqn:E; [discriminate|].
  destruct (is_JSONDecodeError e') eqn:Ek; [discriminate|].
  intros H; injection H as <-; split; [assumption|].
  exists (lbrace ++ tl); split; [reflexivity | assumption].
Qed.

(** X1. The tool name the parser returns is trimmed: it has no white
    space at either end, it is on one line and it holds no opening brace,
    whatever the response was. *)
Theorem parsed_name_is_trimmed (text n : str) (a : json) :
  parse_tool_call json_loads text = Ok (Some (n, a)) ->
  strip n = n /\ ~ In 10%N n /\ ~ In 123%N n.
Proof.
  rewrite parse_tool_call_eq.
  destruct (tool_call_line text) as [line|] eqn:El; [|discriminate].
  apply tool_call_line_clean in El as [Hstrip Hnl].
  unfold parse_line.
  destruct (partition lbrace line) as [[hd tl]|] eqn:Ep.
  - apply (partition_char_some 123%N) in Ep as [Hhd Hline].
    destruct (json_loads (lbrace ++ tl)) as [v|e];
      [|destruct (is_JSONDecodeError e); discriminate].
    intros H; injection H as <- <-.
    split; [apply strip_idem|]; split; intros Hin; apply strip_In in Hin.
    + apply Hnl; rewrite Hline; apply in_or_app; now left.
    + now apply Hhd.
  - intros H; injection H as <- <-.
    split; [assumption|]; split; [assumption|].
    apply contains_char; unfold contains.
    change (partition [123%N] line) with (partition lbrace line).
    now rewrite Ep.
Qed.

Lemma strip_around (ws1 x ws2 : str) :
  forallb isspace ws1 = true -> forallb isspace ws2 = true ->
  strip (ws1 ++ x ++ ws2) = strip x.
Proof.
  intros H1 H2; unfold strip.
  rewrite lstrip_app, H1, <- !lstrip_rstrip, rstrip_app, H2.
  reflexivity.
Qed.

(** X2. White space around the call is insignificant: blanks, tabs and
    line breaks between the marker and the call, and after the call, do
    not change what the parser returns, and none is needed after the
    marker. *)
Theorem call_whitespace_is_insignificant (pre ws1 x ws2 : str) :
  contains marker pre = false ->
  forallb isspace ws1 = true ->
  forallb isspace ws2 = true ->
  parse_tool_call json_loads (pre ++ marker ++ ws1 ++ x ++ ws2)
  = parse_tool_call json_loads (pre ++ marker ++ x).
Proof.
  intros Hpre H1 H2.
  rewrite !parse_after_marker by assumption.
  now rewrite strip_around.
Qed.

(** X3. A call without a tool name is a call all the same: when the
    tool-call line starts with the opening brace, the parser returns the
    empty name with the arguments [json.loads] reads from the line. *)
Theorem call_without_name (pre ws tail : str) (a : json) :
  contains marker pre = false ->
  forallb isspace ws = true ->
  contains nl tail = false ->
  json_loads (lbrace ++ rstrip tail) = Ok a ->
  parse_tool_call json_loads (pre ++ marker ++ ws ++ lbrace ++ tail)
  = Ok (Some ([], a)).
Proof.
  intros Hpre Hws Hnl Hloads; apply contains_char in Hnl.
  rewrite parse_after_marker by assumption.
  assert (Estrip : strip (ws ++ lbrace ++ tail) = lbrace ++ rstrip tail).
  { unfold strip; rewrite lstrip_app, Hws.
    unfold lbrace; cbn [app].
    rewrite (lstrip_nonspace 123%N tail eq_refl).
    now apply rstrip_cons_nonspace. }
  assert (Hline : ~ In 10%N (lbrace ++ rstrip tail)).
  { unfold lbrace; cbn [app]; intros [Hin|Hin]; [discriminate|].
    now apply rstrip_In in Hin. }
  rewrite Estrip, (first_line_no_nl _ Hline).
  assert (Eagain : strip (lbrace ++ rstrip tail) = lbrace ++ rstrip tail).
  { rewrite <- Estrip; apply strip_idem. }
  rewrite Eagain; unfold parse_line.
  now rewrite partition_head, Hloads.
Qed.

End ParserShapeFacts.

Section ParserDecoderFacts.

Import Json.

(** An object is all the scanner returns from an opening brace. *)
Lemma object_loop_object (fuel : nat) :
  forall depth s pairs v r,
    object_loop fuel depth s pairs = Ok (v, r) -> exists d, v = JDict d.
Proof.
  induction fuel as [|f IH]; intros depth s pairs v r; [discriminate|].
  cbn [object_loop].
  destruct (expect 34%N s) as [s1|]; [|discriminate].
  destruct (scanstring s1 []) as [[key kr]|e]; [|discriminate].
  cbn [rbind fst snd].
  destruct (expect 58%N (skip_ws kr)) as [s2|]; [|discriminate].
  destruct (scan_once f depth (skip_ws s2)) as [[x xr]|e]; [|discriminate].
  cbn [rbind fst snd].
  destruct (expect 125%N (skip_ws xr)) as [r'|].
  { intros H; injection H as <- _; eauto. }
  destruct (expect 44%N (skip_ws xr)) as [r'|]; [|discriminate].
  apply IH.
Qed.

Lemma loads_brace_object (limit : nat) (t : str) (v : json) :
  loads_within limit (lbrace ++ t) = Ok v -> exists d, v = JDict d.
Proof.
  unfold loads_within, lbrace; cbn [app].
  change (startswith [65279%N] (123%N :: t)) with false; cbv iota.
  change (skip_ws (123%N :: t)) with (123%N :: t).
  match goal with
  | |- context [scan_once ?n _] =>
      destruct n as [|f] eqn:Ef; [cbn [length] in Ef; lia|]
  end.
  destruct limit as [|depth]; [discriminate|].
  rewrite scan_once_object.
  destruct (expect 125%N (skip_ws t)) as [r|].
  - cbn [rbind fst snd]; destruct (skip_ws r); [|discriminate].
    intros H; injection H as <-; eauto.
  - destruct (object_loop _ _ (skip_ws t) []) as [[x r]|e] eqn:E;
      [|discriminate].
    cbn [rbind fst snd]; destruct (skip_ws r); [|discriminate].
    intros H; injection H as <-.
    now apply object_loop_object in E.
Qed.

(** X4. With the decoder of CPython, whatever the recursion limit it
    runs under, the arguments the parser returns are always a JSON
    object: never a list, a string, a number or [None]. *)
Theorem parsed_arguments_are_an_object (limit : nat) (text n : str)
    (a : json) :
  parse_tool_call (loads_within limit) text = Ok (Some (n, a)) ->
  exists d, a = JDict d.
Proof.
  rewrite parse_tool_call_eq.
  destruct (tool_call_line text) as [line|]; [|discriminate].
  unfold parse_line.
  destruct (partition lbrace line) as [[hd tl]|].
  - destruct (loads_within limit (lbrace ++ tl)) as [v|e] eqn:E;
      [|destruct (is_JSONDecodeError e); discriminate].
    intros H; injection H as _ <-.
    now apply loads_brace_object in E.
  - intros H; injection H as _ <-; unfold empty_dict; eauto.
Qed.

(** An encoded object is read back whatever follows it. *)
Lemma scan_once_encode_object (a : list (str * json)) (fuel depth : nat)
    (rest : str) :
  plain (JDict a) = true ->
  weight (JDict a) <= fuel ->
  nesting (JDict a) <= depth ->
  scan_once fuel depth (encode (JDict a) ++ rest) = Ok (JDict a, rest).
Proof.
  intros Hp Hfuel Hdepth.
  destruct fuel as [|f]; [cbn [weight] in Hfuel; lia|].
  destruct depth as [|dp]; [cbn [nesting] in Hdepth; lia|].
  rewrite encode_dict, <- !app_assoc.
  change (lbrace ++ ?u) with (123%N :: u).
  rewrite scan_once_object.
  destruct a as [|[k x] d']; [reflexivity|].
  pose proof Hp as Hp'.
  rewrite plain_dict in Hp; apply andb_true_iff in Hp as [Hd Hp].
  change (skip_ws (encode_pairs ((k, x) :: d') ++ ?u))
    with (encode_pairs ((k, x) :: d') ++ u).
  change (expect 125%N (encode_pairs ((k, x) :: d') ++ ?u))
    with (@None str).
  cbv iota.
  apply (object_loop_encode ((k, x) :: d')); try assumption.
  - apply Forall_forall; intros kv _; apply scan_once_encode.
  - discriminate.
  - cbn [weight] in Hfuel; lia.
  - cbn [nesting] in Hdepth; lia.
Qed.

Lemma skip_ws_nil (s : str) : skip_ws s = [] -> forallb isspace s = true.
Proof.
  induction s as [|c s IH]; [reflexivity|]; cbn [skip_ws forallb].
  destruct (is_ws c) eqn:E; [|discriminate].
  intros H; rewrite (IH H), andb_true_r.
  unfold is_ws in E.
  repeat (apply orb_true_iff in E as [E|E]);
    apply N.eqb_eq in E; subst c; reflexivity.
Qed.

(** Text after an encoded object is extra data. *)
Lemma loads_extra_data (limit : nat) (a : list (str * json))
    (extra : str) :
  plain (JDict a) = true ->
  nesting (JDict a) <= limit ->
  rstrip extra <> [] ->
  loads_within limit (encode (JDict a) ++ rstrip extra)
  = Raise (decode_error "Extra data").
Proof.
  intros Hp Hdepth Hne; unfold loads_within.
  destruct (encode_head (JDict a) Hp) as (c & t & E & Hws & _ & _ & Hbom).
  assert (Hstart : startswith [65279%N] (encode (JDict a) ++ rstrip extra)
                   = false).
  { rewrite E; apply startswith_head; congruence. }
  rewrite Hstart, (skip_ws_encode _ _ Hp).
  rewrite scan_once_encode_object; [|assumption| |assumption].
  - cbn [rbind fst snd].
    destruct (skip_ws (rstrip extra)) eqn:Es; [|reflexivity].
    apply skip_ws_nil, rstrip_allspace in Es.
    rewrite rstrip_idem in Es; congruence.
  - pose proof (weight_encode (JDict a) Hp); rewrite length_app; lia.
Qed.

(** X5. With the decoder of CPython, text that follows the arguments on
    the tool-call line makes the call unreadable: the parser returns
    nothing, and the response is then treated as a direct answer.  The
    arguments are an object the decoder reads back without an exception,
    as the reference encoder writes it: no float, no integer of more than
    4300 digits, no two members with the same key, and nested no deeper
    than the recursion limit [limit] lets the scanner go. *)
Theorem text_after_arguments_drops_call (limit : nat) (n : str)
    (a : list (str * json)) (extra : str) :
  is_identifier n = true ->
  plain (JDict a) = true ->
  nesting (JDict a) <= limit ->
  contains nl extra = false ->
  forallb isspace extra = false ->
  parse_tool_call (loads_within limit)
    (lit "TOOL_CALL: " ++ n ++ lit " " ++ encode (JDict a) ++ extra)
  = Ok None.
Proof.
  intros Hn Hp Hdepth Hnl Hextra.
  destruct (identifier_plain n Hn) as (Hplain & Hn_nl & Hn_br & Hne).
  apply contains_char in Hnl.
  pose proof (encode_one_line (JDict a) Hp) as Henc_nl.
  assert (Hrs : rstrip extra <> []).
  { intros H; apply rstrip_nil in H; congruence. }
  destruct n as [|c n']; [congruence|].
  assert (Hc : isspace c = false).
  { simpl in Hplain; apply andb_true_iff in Hplain as [H _].
    now apply negb_true_iff in H. }
  pose proof (loads_extra_data limit a extra Hp Hdepth Hrs) as Hloads.
  clear Hdepth.
  set (enc := encode (JDict a)) in *.
  assert (Eenc : enc = 123%N :: (encode_pairs a ++ rbrace)).
  { unfold enc; now rewrite encode_dict. }
  clearbody enc.
  assert (Hline_nl : ~ In 10%N (lit " " ++ (c :: n') ++ lit " " ++ enc
                                  ++ extra)).
  { change (lit " ") with [32%N]; intros Hin.
    apply in_app_or in Hin as [[Hin|[]]|Hin]; [discriminate|].
    apply (in_app_or (c :: n')) in Hin as [Hin|Hin]; [tauto|].
    apply in_app_or in Hin as [[Hin|[]]|Hin]; [discriminate|].
    apply in_app_or in Hin as [Hin|Hin]; tauto. }
  change (lit "TOOL_CALL: " ++ (c :: n') ++ lit " " ++ enc ++ extra)
    with ([] ++ marker ++ (lit " " ++ (c :: n') ++ lit " " ++ enc ++ extra)).
  rewrite parse_after_marker by reflexivity.
  rewrite tool_line_one_line by assumption.
  assert (Estrip : strip (lit " " ++ (c :: n') ++ lit " " ++ enc ++ extra)
                   = (c :: n') ++ lit " " ++ enc ++ rstrip extra).
  { unfold strip; change (lit " ") with [32%N]; simpl lstrip; rewrite Hc.
    change (c :: n' ++ 32%N :: enc ++ extra)
      with ((c :: n') ++ [32%N] ++ enc ++ extra).
    rewrite !app_assoc, rstrip_app, Hextra; reflexivity. }
  rewrite Estrip; unfold parse_line.
  assert (Epart : partition lbrace ((c :: n') ++ lit " " ++ enc
                                      ++ rstrip extra)
                  = Some ((c :: n') ++ lit " ",
                          (encode_pairs a ++ rbrace) ++ rstrip extra)).
  { rewrite Eenc, app_assoc.
    apply (partition_char_app 123%N).
    intros Hin; apply in_app_or in Hin as [Hin|Hin]; [tauto|].
    change (lit " ") with [32%N] in Hin; simpl in Hin.
    destruct Hin as [Hin|[]]; discriminate. }
  rewrite Epart.
  change (lbrace ++ (encode_pairs a ++ rbrace) ++ rstrip extra)
    with ((123%N :: encode_pairs a ++ rbrace) ++ rstrip extra).
  rewrite <- Eenc.
  match goal with
  | |- context [loads_within limit ?x] =>
      replace (loads_within limit x)
        with (@Raise json (decode_error "Extra data"))
        by (symmetry; exact Hloads)
  end.
  reflexivity.
Qed.

End ParserDecoderFacts.

(** ** The catalog, further *)

Section CatalogCoverage.

Lemma concat_split {A} (f : A -> str) (l1 l2 : list A) (x : A) :
  concat (map f (l1 ++ x :: l2))
  = concat (map f l1) ++ f x ++ concat (map f l2).
Proof. now rewrite map_app, concat_app. Qed.

(** X6. The catalog leaves nothing out: every tool of the list has its
    line with name and description in the text, and every parameter of a
    schema with properties has its line with name, type, marker and
    description. *)
Theorem catalog_lists_every_tool (tools : list Tool) (tool : Tool) :
  In tool tools ->
  contains (lit "- **" ++ name tool ++ lit "**: " ++ description tool ++ nl)
           (format_tools_for_llm tools) = true
  /\ (forall schema props pname info,
         inputSchema tool = Some schema ->
         properties schema = Some props ->
         In (pname, info) props ->
         contains
           (lit "    - " ++ pname ++ lit " ("
              ++ get (param_type info) (lit "string") ++ lit ")"
              ++ (if str_in pname (get (required schema) [])
                  then lit " (required)" else lit " (optional)")
              ++ lit ": " ++ get (param_description info) [] ++ nl)
           (format_tools_for_llm tools) = true).
Proof.
  intros Hin; apply in_split in Hin as (l1 & l2 & ->).
  unfold format_tools_for_llm; rewrite fold_format_tool, concat_split.
  set (header := lit "Available tools:" ++ nl ++ nl).
  set (before := concat (map render_tool l1)).
  set (after := concat (map render_tool l2)).
  split.
  - set (line := lit "- **" ++ name tool ++ lit "**: " ++ description tool
                   ++ nl).
    replace (header ++ before ++ render_tool tool ++ after)
      with ((header ++ before) ++ line ++ (render_params tool ++ nl ++ after)).
    + apply contains_app.
    + unfold render_tool, line; now rewrite <- !app_assoc.
  - intros schema props pname info Hs Hp Hprop.
    apply in_split in Hprop as (p1 & p2 & ->).
    set (line := lit "    - " ++ pname ++ lit " ("
                   ++ get (param_type info) (lit "string") ++ lit ")"
                   ++ (if str_in pname (get (required schema) [])
                       then lit " (required)" else lit " (optional)")
                   ++ lit ": " ++ get (param_description info) [] ++ nl).
    replace (header ++ before ++ render_tool tool ++ after)
      with ((header ++ before ++ lit "- **" ++ name tool ++ lit "**: "
               ++ description tool ++ nl ++ lit "  Parameters:" ++ nl
               ++ concat (map (render_param schema) p1))
              ++ line
              ++ (concat (map (render_param schema) p2) ++ nl ++ after)).
    + apply contains_app.
    + unfold render_tool, render_params; rewrite Hs, Hp, concat_split.
      assert (E : render_param schema (pname, info) = line) by reflexivity.
      rewrite E; clearbody line; now rewrite <- !app_assoc.
Qed.

(** X18. The catalog at its edges.  Without tools it is the heading
    alone.  A tool without schema, with an empty one or with one that has
    no properties adds its line and a blank line, with no word of
    parameters; one whose properties are there but empty adds a heading
    of parameters with nothing under it.  A schema that names no required
    parameters marks every parameter optional. *)
Theorem catalog_edge_cases :
  format_tools_for_llm [] = lit "Available tools:" ++ nl ++ nl
  /\ (forall tools tool,
         inputSchema tool = None
         \/ (exists schema,
                inputSchema tool = Some schema
                /\ (schema_truthy schema = false
                    \/ properties schema = None)) ->
         format_tools_for_llm (tools ++ [tool])
         = format_tools_for_llm tools
             ++ lit "- **" ++ name tool ++ lit "**: " ++ description tool
             ++ nl ++ nl)
  /\ (forall tools tool schema,
         inputSchema tool = Some schema ->
         properties schema = Some [] ->
         format_tools_for_llm (tools ++ [tool])
         = format_tools_for_llm tools
             ++ lit "- **" ++ name tool ++ lit "**: " ++ description tool
             ++ nl ++ lit "  Parameters:" ++ nl ++ nl)
  /\ (forall schema acc pname info,
         required schema = None ->
         format_param schema acc (pname, info)
         = acc ++ lit "    - " ++ pname ++ lit " ("
             ++ get (param_type info) (lit "string") ++ lit ")"
             ++ lit " (optional)" ++ lit ": "
             ++ get (param_description info) [] ++ nl).
Proof.
  assert (Hlast : forall tools tool,
             format_tools_for_llm (tools ++ [tool])
             = format_tools_for_llm tools ++ render_tool tool).
  { intros tools tool; unfold format_tools_for_llm.
    rewrite !fold_format_tool, map_app, concat_app; cbn [map concat].
    now rewrite app_nil_r, <- !app_assoc. }
  split; [reflexivity|]; split; [|split].
  - intros tools tool Hschema; rewrite Hlast; f_equal.
    unfold render_tool, render_params.
    destruct Hschema as [-> |(schema & -> & [Hf| ->])]; try reflexivity.
    now rewrite (schema_falsy schema Hf).
  - intros tools tool schema Hs Hp; rewrite Hlast; f_equal.
    unfold render_tool, render_params; rewrite Hs, Hp.
    cbn [map concat]; now rewrite app_nil_r, <- !app_assoc.
  - intros schema acc pname info Hreq.
    unfold format_param; now rewrite Hreq.
Qed.

End CatalogCoverage.

(** ** The turn, further *)

Section RequestFacts.

Lemma system_prompt_nonempty (tools_info : str) :
  system_prompt_for tools_info <> [].
Proof.
  unfold system_prompt_for.
  set (opening := lit "You are a helpful cloud compliance assistant. You have access to tools that can check AWS cloud compliance and list resources.").
  assert (E : exists c t, opening = c :: t) by (vm_compute; eauto).
  destruct E as (c & t & ->); discriminate.
Qed.

Lemma history_copy (h : list Message) :
  map (fun msg => Msg (role msg) (content msg)) h = h.
Proof.
  induction h as [|[r c] h IH]; [reflexivity|].
  cbn [map role content]; now rewrite IH.
Qed.

(** The request [call_llm] builds around a system prompt that is not
    empty. *)
Lemma messages_for_system (sp : str) (h : list Message) (u : str) :
  sp <> [] ->
  messages_for sp h u = Msg system sp :: h ++ [Msg user u].
Proof.
  intros Hsp; unfold messages_for; rewrite history_copy.
  destruct sp; [congruence | reflexivity].
Qed.

Lemma exchanges_app (h : list Message) (u ans : str) :
  exchanges h = true ->
  exchanges (h ++ [Msg user u; Msg assistant ans]) = true.
Proof.
  revert h.
  assert (H : forall n h, length h <= n -> exchanges h = true ->
                exchanges (h ++ [Msg user u; Msg assistant ans]) = true).
  { induction n as [|n IH]; intros [|m1 [|m2 h]] Hlen; cbn [length] in Hlen;
      try lia; try reflexivity; try discriminate.
    cbn [app exchanges]; intros He.
    apply andb_true_iff in He as [He Hrest]; rewrite He; cbn [andb].
    apply IH; [lia | assumption]. }
  intros h; now apply (H (length h)).
Qed.

End RequestFacts.

Section TurnFacts.

Variable json_loads : str -> result json.
Variable World : Type.
Variable ollama_chat : str -> list Message -> World -> result str * World.
Variable session_call_tool : str -> json -> World -> result ToolReply * World.

Local Notation history st := (conversation_history (client st)).
Local Notation prompt st :=
  (system_prompt_for (format_tools_for_llm (available_tools (client st)))).
Local Notation turn' :=
  (turn json_loads ollama_chat session_call_tool).
Local Notation process_message' :=
  (process_message json_loads ollama_chat session_call_tool).

Lemma call_llm_trace (u sp : str) (st : State World) :
  exists r st1,
    call_llm ollama_chat u sp st = (Ok r, st1)
    /\ client st1 = client st
    /\ trace st1
       = trace st ++ [EvChat (model_name (client st))
                             (messages_for sp (history st) u)].
Proof. rewrite call_llm_eq; cbv zeta; eauto. Qed.

Lemma commit_exchange (u ans : str) (st : State World) :
  exists st',
    bind (append_history (Msg user u))
         (fun _ => bind (append_history (Msg assistant ans))
                        (fun _ => ret ans)) st = (Ok ans, st')
    /\ history st' = history st ++ [Msg user u; Msg assistant ans]
    /\ model_name (client st') = model_name (client st)
    /\ available_tools (client st') = available_tools (client st)
    /\ trace st' = trace st.
Proof.
  unfold bind, append_history, ret; cbn.
  eexists; split; [reflexivity|]; cbn.
  now rewrite <- app_assoc.
Qed.

(** What a turn does, by what the parser makes of the decision
    response. *)
Lemma turn_run (sp u : str) (st : State World) :
  let model := model_name (client st) in
  let decision := EvChat model (messages_for sp (history st) u) in
  exists r st1,
    call_llm ollama_chat u sp st = (Ok r, st1)
    /\ client st1 = client st
    /\ match parse_tool_call json_loads r with
       | Raise e =>
           turn' sp u st = (Raise e, st1)
           /\ trace st1 = trace st ++ [decision]
       | Ok None =>
           exists st',
             turn' sp u st = (Ok r, st')
             /\ history st' = history st ++ [Msg user u; Msg assistant r]
             /\ model_name (client st') = model
             /\ available_tools (client st') = available_tools (client st)
             /\ trace st' = trace st ++ [decision]
       | Ok (Some (n, a)) =>
           exists t st2 f st',
             call_mcp_tool session_call_tool n a st1 = (Ok t, st2)
             /\ turn' sp u st = (Ok f, st')
             /\ history st' = history st ++ [Msg user u; Msg assistant f]
             /\ model_name (client st') = model
             /\ available_tools (client st') = available_tools (client st)
             /\ trace st'
                = trace st
                    ++ [decision; EvCallTool n a;
                        EvChat model
                          (messages_for sp (history st)
                             (follow_up_prompt_for n t))]
       end.
Proof.
  intros model decision.
  destruct (call_llm_trace u sp st) as (r & st1 & E1 & Hc1 & Ht1).
  exists r, st1; split; [exact E1|]; split; [exact Hc1|].
  rewrite (turn_after_decision _ _ _ _ _ _ _ _ _ E1).
  unfold after_decision, bind at 1, lift.
  destruct (parse_tool_call json_loads r) as [[[n a]|]|e].
  - destruct (call_mcp_tool_returns World session_call_tool n a st1)
      as (t & st2 & E2 & Hc2 & Ht2).
    destruct (call_llm_trace (follow_up_prompt_for n t) sp st2)
      as (f & st3 & E3 & Hc3 & Ht3).
    destruct (commit_exchange u f st3) as (st' & E4 & Hh & Hm & Ha & Ht).
    exists t, st2, f, st'; split; [exact E2|]; split.
    { unfold bind at 1; rewrite E2; unfold bind at 1; rewrite E3; exact E4. }
    rewrite Hh, Hm, Ha, Ht, Ht3, Ht2, Ht1, Hc3, Hc2, Hc1.
    repeat split; now rewrite <- !app_assoc.
  - destruct (commit_exchange u r st1) as (st' & E4 & Hh & Hm & Ha & Ht).
    exists st'; split; [exact E4|].
    rewrite Hh, Hm, Ha, Ht, Ht1, Hc1; repeat split.
  - split; [reflexivity | exact Ht1].
Qed.

(** The client after a turn: the exchange is added when the turn
    returns, nothing is changed when it raises. *)
Lemma turn_client (sp u : str) (st : State World) :
  let out := turn' sp u st in
  match fst out with
  | Ok ans =>
      history (snd out) = history st ++ [Msg user u; Msg assistant ans]
      /\ model_name (client (snd out)) = model_name (client st)
      /\ available_tools (client (snd out)) = available_tools (client st)
  | Raise e => client (snd out) = client st
  end.
Proof.
  cbv zeta.
  destruct (turn_run sp u st) as (r & st1 & E1 & Hc1 & H).
  destruct (parse_tool_call json_loads r) as [[[n a]|]|e].
  - destruct H as (t & st2 & f & st' & _ & E & Hh & Hm & Ha & _).
    rewrite E; cbn [fst snd]; auto.
  - destruct H as (st' & E & Hh & Hm & Ha & _).
    rewrite E; cbn [fst snd]; auto.
  - destruct H as (E & _); rewrite E; exact Hc1.
Qed.

(** X7. A turn is all or nothing.  Whatever happens, it leaves the model
    name and the tool list as they were; when it raises, the history is
    untouched too, and the exception is one [json.loads] raised on the
    arguments of a call and that is no [JSONDecodeError]: the calls of the
    LLM and of the backend never make a turn fail. *)
Theorem turn_is_atomic (u : str) (st : State World) :
  let out := process_message' u st in
  model_name (client (snd out)) = model_name (client st)
  /\ available_tools (client (snd out)) = available_tools (client st)
  /\ match fst out with
     | Ok ans =>
         history (snd out) = history st ++ [Msg user u; Msg assistant ans]
     | Raise e =>
         client (snd out) = client st
         /\ is_JSONDecodeError e = false
         /\ exists js, startswith lbrace js = true /\ json_loads js = Raise e
     end.
Proof.
  cbv zeta; rewrite process_message_turn.
  destruct (turn_run (prompt st) u st) as (r & st1 & E1 & Hc1 & H).
  destruct (parse_tool_call json_loads r) as [[[n a]|]|e] eqn:Ep.
  - destruct H as (t & st2 & f & st' & _ & E & Hh & Hm & Ha & _).
    rewrite E; cbn [fst snd]; auto.
  - destruct H as (st' & E & Hh & Hm & Ha & _).
    rewrite E; cbn [fst snd]; auto.
  - destruct H as (E & _); rewrite E; cbn [fst snd]; rewrite Hc1.
    apply parse_raises in Ep as (Hk & js & Hjs & Hl).
    repeat split; eauto.
Qed.

(** X8. What a turn asks of its collaborators: one request to the LLM
    (the system prompt, the history as it was before the turn, the
    utterance), and, when the response holds a call, one call of the
    backend and a second request to the LLM, built on the same history
    and ending with the follow-up prompt that quotes the tool's result.
    Nothing else: at most one tool call a turn, and the second request
    does not hold the utterance. *)
Theorem turn_requests (u : str) (st : State World) :
  let model := model_name (client st) in
  let out := process_message' u st in
  let decided := call_llm ollama_chat u (prompt st) st in
  let request (text : str) :=
    EvChat model (Msg system (prompt st) :: history st ++ [Msg user text]) in
  exists r,
    fst decided = Ok r
    /\ match parse_tool_call json_loads r with
       | Ok (Some (n, a)) =>
           exists t,
             fst (call_mcp_tool session_call_tool n a (snd decided)) = Ok t
             /\ trace (snd out)
                = trace st ++ [request u; EvCallTool n a;
                               request (follow_up_prompt_for n t)]
       | _ => trace (snd out) = trace st ++ [request u]
       end.
Proof.
  cbv zeta; rewrite process_message_turn.
  pose proof (system_prompt_nonempty
                (format_tools_for_llm (available_tools (client st)))) as Hsp.
  destruct (turn_run (prompt st) u st) as (r & st1 & E1 & Hc1 & H).
  rewrite !(messages_for_system _ _ _ Hsp) in H.
  exists r; rewrite E1; split; [reflexivity|]; cbn [snd].
  destruct (parse_tool_call json_loads r) as [[[n a]|]|e].
  - destruct H as (t & st2 & f & st' & E2 & E & _ & _ & _ & Ht).
    exists t; rewrite E2, E; split; [reflexivity|].
    rewrite (messages_for_system _ _ _ Hsp) in Ht; exact Ht.
  - destruct H as (st' & E & _ & _ & _ & Ht); rewrite E; exact Ht.
  - destruct H as (E & Ht); rewrite E; exact Ht.
Qed.

(** X9. A history made of whole exchanges stays one: after a turn,
    whether it returns or raises, the messages still come in pairs, a
    [user] message and then the [assistant]'s. *)
Theorem history_stays_paired (u : str) (st : State World) :
  exchanges (history st) = true ->
  exchanges (history (snd (process_message' u st))) = true.
Proof.
  intros He; rewrite process_message_turn.
  pose proof (turn_client (prompt st) u st) as H; cbv zeta in H.
  destruct (fst (turn' (prompt st) u st)) as [ans|e].
  - destruct H as (-> & _); now apply exchanges_app.
  - now rewrite H.
Qed.

End TurnFacts.

(** ** The console session *)

Section HistoryFacts.

Lemma exchanges_append (h added : list Message) :
  exchanges h = true -> exchanges added = true ->
  exchanges (h ++ added) = true.
Proof.
  intros Hh Ha; revert h Hh.
  assert (H : forall n h, length h <= n -> exchanges h = true ->
                exchanges (h ++ added) = true).
  { induction n as [|n IH]; intros [|m1 [|m2 h]] Hlen; cbn [length] in Hlen;
      try lia; try (intros _; exact Ha); try discriminate.
    cbn [app exchanges]; intros He.
    apply andb_true_iff in He as [He Hrest]; rewrite He; cbn [andb].
    apply IH; [lia | assumption]. }
  intros h; now apply (H (length h)).
Qed.

Lemma transcript_nil (inputs : list Input) : transcript inputs [] = [].
Proof. destruct inputs as [|[| |] ?]; reflexivity. Qed.

Lemma transcript_other (i : Input) (inputs : list Input) (step : Step)
    (steps : list Step) :
  is_answered step = false ->
  transcript (i :: inputs) (step :: steps) = transcript inputs steps.
Proof. destruct i, step; try discriminate; reflexivity. Qed.

Lemma utterances_app (h1 h2 : list Message) :
  utterances (h1 ++ h2) = utterances h1 ++ utterances h2.
Proof. unfold utterances; now rewrite filter_app, map_app. Qed.

End HistoryFacts.

Section ConsoleFacts.

Variable json_loads : str -> result json.
Variable World : Type.
Variable ollama_chat : str -> list Message -> World -> result str * World.
Variable session_call_tool : str -> json -> World -> result ToolReply * World.

Local Notation history st := (conversation_history (client st)).
Local Notation prompt st :=
  (system_prompt_for (format_tools_for_llm (available_tools (client st)))).
Local Notation process_message' :=
  (process_message json_loads ollama_chat session_call_tool).
Local Notation round :=
  (chat_loop_round json_loads ollama_chat session_call_tool).
Local Notation rounds :=
  (chat_loop_rounds json_loads ollama_chat session_call_tool).
Local Notation exit_words := [lit "exit"; lit "quit"; lit "bye"].

(** A line that is neither blank nor a word that ends the session. *)
Local Notation utterance_of line u :=
  (strip line = u /\ u <> [] /\ str_in (lower u) exit_words = false).

(** One round, by its step. *)
Lemma round_step (sp : str) (i : Input) (st : State World) :
  let out := round sp i st in
  match fst out with
  | Exited | Skipped => snd out = st
  | Failed e => client (snd out) = client st
  | Answered shown =>
      exists line,
        i = Line line
        /\ utterance_of line (strip line)
        /\ history (snd out)
           = history st ++ [Msg user (strip line); Msg assistant shown]
        /\ model_name (client (snd out)) = model_name (client st)
        /\ available_tools (client (snd out)) = available_tools (client st)
  end.
Proof.
  cbv zeta; destruct i as [line|e|]; cbn [chat_loop_round fst snd];
    try reflexivity.
  rewrite chat_loop_iteration_turn.
  destruct (str_in (lower (strip line)) exit_words) eqn:Hexit;
    [reflexivity|].
  destruct (strip line) as [|c l] eqn:El; [reflexivity|].
  pose proof (turn_client json_loads World ollama_chat session_call_tool
                sp (c :: l) st) as H.
  cbv zeta in H.
  destruct (turn _ _ _ _ _ _) as [[shown|e] st']; cbn [fst snd] in *.
  - exists line; rewrite El; repeat split; try tauto; discriminate.
  - exact H.
Qed.

Lemma rounds_cons (sp : str) (i : Input) (rest : list Input)
    (st : State World) :
  rounds sp (i :: rest) st =
    match fst (round sp i st) with
    | Exited => ([Exited], snd (round sp i st))
    | step =>
        (step :: fst (rounds sp rest (snd (round sp i st))),
         snd (rounds sp rest (snd (round sp i st))))
    end.
Proof.
  cbn [chat_loop_rounds].
  destruct (round sp i st) as [step st']; cbn [fst snd].
  destruct step; try reflexivity;
    now destruct (rounds sp rest st').
Qed.

(** X10. A round of the console is a turn of the web client: on a line
    that is neither blank nor a word that ends the session, the console
    does to its state what [process_message] does on the trimmed line,
    and shows what it returns.  The system prompt the console built
    before its first round is the one the web client builds for every
    turn, since no round changes the tool list. *)
Theorem console_round_is_web_turn :
  (forall line st,
      strip line <> [] ->
      str_in (lower (strip line)) exit_words = false ->
      round (prompt st) (Line line) st
      = match process_message' (strip line) st with
        | (Ok answer, st') => (Answered answer, st')
        | (Raise e, st') => (Failed e, st')
        end)
  /\ (forall sp inputs st,
         available_tools (client (snd (rounds sp inputs st)))
         = available_tools (client st)
         /\ model_name (client (snd (rounds sp inputs st)))
            = model_name (client st))
  /\ (forall tools inputs st,
         prompt (snd (chat_loop json_loads ollama_chat session_call_tool
                        tools inputs st))
         = system_prompt_for (format_tools_for_llm tools)).
Proof.
  assert (Hframe : forall sp inputs st,
             available_tools (client (snd (rounds sp inputs st)))
             = available_tools (client st)
             /\ model_name (client (snd (rounds sp inputs st)))
                = model_name (client st)).
  { intros sp inputs; induction inputs as [|i rest IH]; intros st;
      [split; reflexivity|].
    rewrite rounds_cons.
    pose proof (round_step sp i st) as H; cbv zeta in H.
    destruct (round sp i st) as [step st1]; cbn [fst snd] in *.
    destruct step as [| |shown|e]; cbn [fst snd].
    - subst st1; split; reflexivity.
    - subst st1; apply IH.
    - destruct H as (line & _ & _ & _ & Hm & Ha).
      destruct (IH st1) as [Ha' Hm']; split; congruence.
    - destruct (IH st1) as [Ha' Hm']; rewrite Ha', Hm', H; split; reflexivity. }
  split; [|split; [exact Hframe|]].
  - intros line st Hne Hexit; cbn [chat_loop_round].
    rewrite chat_loop_iteration_turn, Hexit, process_message_turn.
    destruct (strip line); [congruence | reflexivity].
  - intros tools inputs st; unfold chat_loop; cbv zeta.
    change (available_tools (client (set_available_tools tools st)))
      with tools.
    now destruct (Hframe (system_prompt_for (format_tools_for_llm tools))
                    inputs (set_available_tools tools st)) as [-> _].
Qed.

(** X11. The session ends at the first round that breaks, and a round
    breaks on a word that ends the session (in any case, with blanks
    around it) or on a [KeyboardInterrupt] at the prompt, and on nothing
    else.  That round is the last step, nothing typed after it is read,
    and the loop takes at most one step for each input. *)
Theorem console_stops_at_exit (sp : str) (inputs : list Input)
    (st : State World) :
  let steps := fst (rounds sp inputs st) in
  (forall i st0,
      fst (round sp i st0) = Exited
      <-> i = Interrupt
          \/ exists line,
               i = Line line /\ In (lower (strip line)) exit_words)
  /\ length steps <= length inputs
  /\ (forall before after, steps = before ++ Exited :: after -> after = [])
  /\ (In Exited steps ->
      forall more,
        rounds sp (firstn (length steps) inputs ++ more) st
        = rounds sp inputs st).
Proof.
  cbv zeta; split.
  { intros i st0; split.
    - destruct i as [line|e|]; cbn [chat_loop_round fst];
        [|discriminate | now left].
      rewrite chat_loop_iteration_turn.
      destruct (str_in (lower (strip line)) exit_words) eqn:Hexit.
      + intros _; right; exists line; split; [reflexivity|].
        now apply str_in_In.
      + destruct (strip line); [discriminate|].
        now destruct (turn _ _ _ _ _ _) as [[shown|e] st'].
    - intros [->|(line & -> & Hin)]; [reflexivity|].
      cbn [chat_loop_round]; rewrite chat_loop_iteration_turn.
      apply str_in_In in Hin; now rewrite Hin. }
  revert st; induction inputs as [|i rest IH]; intros st.
  - cbn; repeat split; [lia | | tauto].
    intros [|? ?] after H; discriminate.
  - rewrite rounds_cons.
    destruct (IH (snd (round sp i st))) as (Hlen & Hlast & Hcut).
    destruct (fst (round sp i st)) as [| |shown|e] eqn:Estep; cbn [fst snd].
    { repeat split; [cbn; lia | |].
      - intros [|s [|? ?]] after H; try discriminate.
        now injection H as <-.
      - intros _ more; cbn [length firstn app].
        now rewrite !rounds_cons, Estep. }
    all: repeat split; [cbn [length]; lia | |];
      [ intros [|s before] after H; [discriminate|];
        injection H as _ H; now apply Hlast in H
      | intros [Hin|Hin] more; [discriminate|];
        cbn [length firstn app]; rewrite !rounds_cons, Estep;
        now rewrite (Hcut Hin more) ].
Qed.

(** X12. A round that fails does not end the session and costs the
    conversation nothing: the error is shown, the client is as it was,
    and the loop goes on with the next input.  An [input()] that keeps
    raising, as it does at the end of the input, therefore keeps the loop
    running: every round fails and none breaks. *)
Theorem console_survives_failures :
  (forall sp (i : Input) (st : State World) e,
      fst (round sp i st) = Failed e ->
      client (snd (round sp i st)) = client st
      /\ forall rest,
           rounds sp (i :: rest) st
           = (Failed e :: fst (rounds sp rest (snd (round sp i st))),
              snd (rounds sp rest (snd (round sp i st)))))
  /\ (forall sp e n st,
         rounds sp (repeat (InputError e) n) st = (repeat (Failed e) n, st)).
Proof.
  split.
  - intros sp i st e Hstep; split.
    + pose proof (round_step sp i st) as H; cbv zeta in H.
      now rewrite Hstep in H.
    + intros rest; now rewrite rounds_cons, Hstep.
  - intros sp e n st; induction n as [|n IH]; [reflexivity|].
    cbn [repeat]; rewrite rounds_cons; cbn [chat_loop_round fst snd].
    now rewrite IH.
Qed.

(** X13. What a session adds to the history: for every round that
    showed an answer, the trimmed line and the answer, in the order of
    the rounds, and nothing for the other rounds.  These are two messages
    for each answer, whole exchanges only, and the utterances among them
    are trimmed lines that are neither empty nor a word that ends the
    session. *)
Theorem console_history (sp : str) (inputs : list Input)
    (st : State World) :
  let out := rounds sp inputs st in
  let added := transcript inputs (fst out) in
  history (snd out) = history st ++ added
  /\ length added = 2 * length (filter is_answered (fst out))
  /\ exchanges added = true
  /\ Forall (fun u => strip u = u /\ u <> []
                      /\ str_in (lower u) exit_words = false)
            (utterances added).
Proof.
  cbv zeta; revert st; induction inputs as [|i rest IH]; intros st.
  - cbn; rewrite app_nil_r; repeat split; constructor.
  - rewrite rounds_cons.
    pose proof (round_step sp i st) as H; cbv zeta in H.
    destruct (round sp i st) as [step st1]; cbn [fst snd] in *.
    destruct (IH st1) as (Hh & Hl & He & Hu).
    destruct step as [| |shown|e]; cbn [fst snd].
    + subst st1; rewrite transcript_other, transcript_nil by reflexivity.
      cbn; rewrite app_nil_r; repeat split; constructor.
    + subst st1; rewrite transcript_other by reflexivity.
      cbn [filter is_answered]; repeat split; assumption.
    + destruct H as (line & -> & (_ & Hne & Hexit) & Hh1 & _).
      cbn [transcript filter is_answered length].
      rewrite Hh, Hh1, <- app_assoc; repeat split.
      * cbn [length]; lia.
      * exact He.
      * cbn [utterances filter is_user role map content].
        constructor; [|exact Hu].
        repeat split; [apply strip_idem | assumption ..].
    + rewrite transcript_other by reflexivity.
      cbn [filter is_answered]; rewrite Hh, H; repeat split; assumption.
Qed.

End ConsoleFacts.

(** ** The web route *)

Section WebFacts.

Variable json_loads : str -> result json.
Variable World : Type.
Variable ollama_chat : str -> list Message -> World -> result str * World.
Variable session_call_tool : str -> json -> World -> result ToolReply * World.
Variable process_object : json -> State World -> result str * State World.

Local Notation history st := (conversation_history (client st)).
Local Notation prompt st :=
  (system_prompt_for (format_tools_for_llm (available_tools (client st)))).
Local Notation process_message' :=
  (process_message json_loads ollama_chat session_call_tool).
Local Notation chat' :=
  (Web.chat json_loads ollama_chat session_call_tool process_object).
Local Notation run_process_message' :=
  (Web.run_process_message json_loads ollama_chat session_call_tool
                           process_object).
Local Notation not_ready :=
  {| Web.response := lit "Client not initialized yet. Please wait...";
     Web.status := 503 |}.
Local Notation no_message :=
  {| Web.response := lit "Please provide a message"; Web.status := 400 |}.

(** Every turn leaves a request to the LLM in the trace. *)
Lemma turn_leaves_trace (u : str) (st : State World) :
  trace (snd (process_message' u st)) <> trace st.
Proof.
  rewrite process_message_turn.
  destruct (turn_run json_loads World ollama_chat session_call_tool
              (prompt st) u st) as (r & st1 & _ & _ & H).
  assert (Hneq : forall (l more : list Event), more <> [] -> l ++ more <> l).
  { intros l more Hm E; apply Hm.
    apply (app_inv_head l); now rewrite app_nil_r. }
  destruct (parse_tool_call json_loads r) as [[[n a]|]|e].
  - destruct H as (t & st2 & f & st' & _ & E & _ & _ & _ & Ht).
    rewrite E; cbn [snd]; rewrite Ht; apply Hneq; discriminate.
  - destruct H as (st' & E & _ & _ & _ & Ht).
    rewrite E; cbn [snd]; rewrite Ht; apply Hneq; discriminate.
  - destruct H as (E & Ht).
    rewrite E; cbn [snd]; rewrite Ht; apply Hneq; discriminate.
Qed.

(** X14. The requests the route answers without a turn.  Until the
    client is ready every request gets 503, whatever its body.  After
    that, a body that is an object without [message], or whose message is
    empty, zero, false or null, gets 400; a body that is not an object
    makes [data.get] raise an [AttributeError], which leaves the handler.
    In all these cases the state is as it was.  Conversely the state
    changes only when the client is ready and the body is an object with
    a message that is true, a string or not; on these requests, and on
    no other, [process_message] is called with the message, and its
    outcome makes the reply: 200 with the answer, or 500 with the text
    of the exception. *)
Theorem chat_answers_without_a_turn :
  (forall data st, chat' false data st = (Ok not_ready, st))
  /\ (forall d st,
         Web.dict_get d (lit "message") = None ->
         chat' true (JDict d) st = (Ok no_message, st))
  /\ (forall d message st,
         Web.dict_get d (lit "message") = Some message ->
         Web.truthy message = false ->
         chat' true (JDict d) st = (Ok no_message, st))
  /\ (forall data st,
         (forall d, data <> JDict d) ->
         exists e,
           chat' true data st = (Raise e, st)
           /\ exn_kind e = AttributeError
           /\ exn_str e = lit "'" ++ Web.type_name data
                            ++ lit "' object has no attribute 'get'")
  /\ (forall ready data st r st',
         chat' ready data st = (r, st') ->
         st' <> st ->
         ready = true
         /\ exists d message,
              data = JDict d
              /\ Web.dict_get d (lit "message") = Some message
              /\ Web.truthy message = true)
  /\ (forall d message st,
         Web.dict_get d (lit "message") = Some message ->
         Web.truthy message = true ->
         chat' true (JDict d) st
         = match run_process_message' message st with
           | (Ok answer, st') =>
               (Ok {| Web.response := answer; Web.status := 200 |}, st')
           | (Raise e, st') =>
               (Ok {| Web.response := lit "Error: " ++ exn_str e;
                      Web.status := 500 |}, st')
           end).
Proof.
  split; [reflexivity|]; split; [|split; [|split; [|split]]].
  - intros d st Hget; unfold Web.chat, Web.request_message.
    now rewrite Hget.
  - intros d message st Hget Hfalse; unfold Web.chat, Web.request_message.
    rewrite Hget; cbn [negb get]; now rewrite Hfalse.
  - intros data st Hdata; unfold Web.chat, Web.request_message; cbn [negb].
    destruct data; try (eexists; repeat split; reflexivity).
    now destruct (Hdata d).
  - intros ready data st r st' Hchat Hst.
    unfold Web.chat in Hchat.
    destruct ready; cbn [negb] in Hchat;
      [|injection Hchat as _ <-; congruence].
    split; [reflexivity|].
    unfold Web.request_message in Hchat.
    destruct data as [|b|z|x|s|l|d];
      try (injection Hchat as _ <-; congruence).
    destruct (Web.dict_get d (lit "message")) as [message|] eqn:Hget;
      cbn [get] in Hchat; [|injection Hchat as _ <-; congruence].
    destruct (Web.truthy message) eqn:Ht; cbn [negb] in Hchat;
      [|injection Hchat as _ <-; congruence].
    exists d, message; repeat split; assumption.
  - intros d message st Hget Ht; unfold Web.chat, Web.request_message.
    rewrite Hget; cbn [negb get]; now rewrite Ht.
Qed.

(** X15. A message that is a string and not empty is handed to
    [process_message] as it is, untrimmed, and the route never raises on
    it: when the turn returns, the reply is 200 with the answer and the
    exchange is in the history; when the turn raises, the reply is 500
    with the text "Error: " and the message of the exception, and the
    client is as it was. *)
Theorem chat_outcomes (d : list (str * json)) (text : str)
    (st : State World) :
  Web.dict_get d (lit "message") = Some (JStr text) ->
  text <> [] ->
  exists reply,
    chat' true (JDict d) st
    = (Ok reply, snd (process_message' text st))
    /\ match fst (process_message' text st) with
       | Ok answer =>
           reply = {| Web.response := answer; Web.status := 200 |}
           /\ history (snd (process_message' text st))
              = history st ++ [Msg user text; Msg assistant answer]
       | Raise e =>
           reply = {| Web.response := lit "Error: " ++ exn_str e;
                      Web.status := 500 |}
           /\ client (snd (process_message' text st)) = client st
       end.
Proof.
  intros Hget Hne; unfold Web.chat, Web.request_message.
  rewrite Hget; cbn [negb get Web.truthy].
  destruct text as [|c text]; [congruence|];
    cbn [negb Web.run_process_message].
  pose proof (turn_client json_loads World ollama_chat session_call_tool
                (prompt st) (c :: text) st) as H.
  cbv zeta in H; rewrite <- process_message_turn in H.
  destruct (process_message' (c :: text) st) as [[answer|e] st'];
    cbn [fst snd] in *; eexists; split; try reflexivity; split;
    try reflexivity; tauto.
Qed.

(** X16. The conversation is remembered: after a turn that returned, the
    next turn opens with a request that holds the system prompt, the
    history as it was, the exchange of the turn before, and the new
    utterance, in this order. *)
Theorem context_accumulates (u1 u2 answer : str) (st st1 : State World) :
  process_message' u1 st = (Ok answer, st1) ->
  exists rest,
    trace (snd (process_message' u2 st1))
    = trace st1
        ++ EvChat (model_name (client st))
                  (Msg system (prompt st)
                     :: history st
                     ++ [Msg user u1; Msg assistant answer; Msg user u2])
        :: rest.
Proof.
  intros H1.
  pose proof (turn_client json_loads World ollama_chat session_call_tool
                (prompt st) u1 st) as Hc.
  cbv zeta in Hc; rewrite <- process_message_turn, H1 in Hc.
  cbn [fst snd] in Hc; destruct Hc as (Hh & Hm & Ha).
  pose proof (system_prompt_nonempty
                (format_tools_for_llm (available_tools (client st1)))) as Hsp.
  rewrite process_message_turn.
  destruct (turn_run json_loads World ollama_chat session_call_tool
              (prompt st1) u2 st1) as (r & st2 & _ & _ & H).
  rewrite !(messages_for_system _ _ _ Hsp), Hh, Hm, <- !app_assoc in H.
  rewrite Ha in H |- *; cbn [app] in H.
  destruct (parse_tool_call json_loads r) as [[[n a]|]|e].
  - destruct H as (t & st3 & f & st' & _ & E & _ & _ & _ & Ht).
    rewrite E; cbn [snd]; rewrite Ht; eexists; reflexivity.
  - destruct H as (st' & E & _ & _ & _ & Ht).
    rewrite E; cbn [snd]; rewrite Ht; eexists; reflexivity.
  - destruct H as (E & Ht).
    rewrite E; cbn [snd]; rewrite Ht; eexists; reflexivity.
Qed.

(** X17. Where the two clients part.  A line that is blank, or a word
    that ends the session, makes the console skip the round or stop, with
    no request to anyone; the same text sent to the route as a message,
    blanks and all, is an utterance like any other and gets a turn. *)
Theorem console_and_web_differ (sp line : str) (st : State World) :
  line <> [] ->
  strip line = []
  \/ str_in (lower (strip line)) [lit "exit"; lit "quit"; lit "bye"] = true ->
  let console :=
    chat_loop_round json_loads ollama_chat session_call_tool sp
                    (Line line) st in
  (fst console = Skipped \/ fst console = Exited)
  /\ snd console = st
  /\ exists reply st',
       chat' true (JDict [(lit "message", JStr line)]) st
       = (Ok reply, st')
       /\ trace st' <> trace st
       /\ (Web.status reply = 200 \/ Web.status reply = 500).
Proof.
  intros Hne Hline; cbv zeta; cbn [chat_loop_round].
  rewrite chat_loop_iteration_turn.
  split; [|split].
  - destruct Hline as [->| ->]; [left | right]; reflexivity.
  - destruct Hline as [->| ->]; reflexivity.
  - unfold Web.chat, Web.request_message.
    change (Web.dict_get [(lit "message", JStr line)] (lit "message"))
      with (Some (JStr line)).
    cbn [negb get Web.truthy].
    destruct line as [|c line]; [congruence|];
      cbn [negb Web.run_process_message].
    pose proof (turn_leaves_trace (c :: line) st) as Ht.
    destruct (process_message' (c :: line) st) as [[answer|e] st'];
      cbn [snd] in Ht; eexists _, st'; (split; [reflexivity|]);
      split; auto.
Qed.

End WebFacts.

(** ** The further properties on the sample data *)

Local Notation web_turn :=
  (process_message Json.loads Mock.ollama_chat Mock.session_call_tool).
Local Notation run_rounds :=
  (chat_loop_rounds Json.loads Mock.ollama_chat Mock.session_call_tool).
Local Notation run_one :=
  (chat_loop_round Json.loads Mock.ollama_chat Mock.session_call_tool).
Local Notation run_chat :=
  (Web.chat Json.loads Mock.ollama_chat Mock.session_call_tool
            Mock.process_object).
Local Notation history_of st := (conversation_history (client st)).
Local Notation prompt_of st :=
  (system_prompt_for (format_tools_for_llm (available_tools (client st)))).

(** X1 at work: the indented call of the samples, whose name comes out
    trimmed. *)
Lemma parsed_name_is_trimmed_witness :
  parse_tool_call Json.loads Sample.indented_call
  = Ok (Some (lit "check_resource_compliance", JDict Sample.soc2))
  /\ strip (lit "check_resource_compliance") = lit "check_resource_compliance"
  /\ ~ In 10%N (lit "check_resource_compliance")
  /\ ~ In 123%N (lit "check_resource_compliance").
Proof.
  assert (E : parse_tool_call Json.loads Sample.indented_call
              = Ok (Some (lit "check_resource_compliance", JDict Sample.soc2)))
    by (vm_compute; reflexivity).
  split; [exact E|].
  exact (parsed_name_is_trimmed Json.loads Sample.indented_call
           (lit "check_resource_compliance") (JDict Sample.soc2) E).
Defined.

(** X4 at work: the arguments of the decision of the samples. *)
Lemma parsed_arguments_are_an_object_witness :
  parse_tool_call Json.loads Sample.decision
  = Ok (Some (lit "list_s3_buckets", empty_dict))
  /\ exists d, empty_dict = JDict d.
Proof.
  assert (E : parse_tool_call Json.loads Sample.decision
              = Ok (Some (lit "list_s3_buckets", empty_dict)))
    by (vm_compute; reflexivity).
  split; [exact E|].
  exact (parsed_arguments_are_an_object Json.recursion_limit Sample.decision
           (lit "list_s3_buckets") empty_dict E).
Defined.

(** X2 at work: the call on the next line, indented, parses as the call
    right after the marker. *)
Lemma call_whitespace_is_insignificant_witness :
  parse_tool_call Json.loads
    (lit "I will check." ++ marker ++ (nl ++ lit "   ")
       ++ lit "list_s3_buckets {}" ++ (lit "  " ++ nl))
  = parse_tool_call Json.loads
      (lit "I will check." ++ marker ++ lit "list_s3_buckets {}").
Proof.
  apply (call_whitespace_is_insignificant Json.loads);
    vm_compute; reflexivity.
Defined.

(** X3 at work: arguments without a name in front of them. *)
Lemma call_without_name_witness :
  parse_tool_call Json.loads
    (lit "Let me see. " ++ marker ++ lit " " ++ lbrace
       ++ (dq ++ lit "standard" ++ dq ++ lit ": " ++ dq ++ lit "SOC2" ++ dq
             ++ rbrace ++ lit "  "))
  = Ok (Some ([], JDict [(lit "standard", JStr (lit "SOC2"))])).
Proof.
  apply (call_without_name Json.loads); vm_compute; reflexivity.
Defined.

(** X5 at work: a call followed by prose on its line is not a call. *)
Lemma text_after_arguments_drops_call_witness :
  parse_tool_call Json.loads
    (lit "TOOL_CALL: " ++ lit "check_resource_compliance" ++ lit " "
       ++ Json.encode (JDict Sample.soc2) ++ lit " and I will explain.")
  = Ok None.
Proof.
  apply (text_after_arguments_drops_call Json.recursion_limit
           (lit "check_resource_compliance") Sample.soc2
           (lit " and I will explain."));
    first [vm_compute; reflexivity | vm_compute; lia].
Defined.

(** X6 at work: the second tool of the samples and its parameter without
    type and description. *)
Lemma catalog_lists_every_tool_witness :
  contains (lit "- **check_resource_compliance**: Check resources against a standard" ++ nl)
           (format_tools_for_llm
              [Sample.list_s3_buckets; Sample.check_resource_compliance])
  = true
  /\ contains (lit "    - standard (string) (optional): " ++ nl)
              (format_tools_for_llm
                 [Sample.list_s3_buckets; Sample.check_resource_compliance])
     = true.
Proof.
  destruct (catalog_lists_every_tool
              [Sample.list_s3_buckets; Sample.check_resource_compliance]
              Sample.check_resource_compliance) as [H1 H2].
  - right; left; reflexivity.
  - split; [exact H1|].
    apply (H2 Sample.compliance_schema
              [(lit "resourceType",
                {| param_type := Some (lit "string");
                   param_description := Some (lit "Kind of resource") |});
               (lit "standard",
                {| param_type := None; param_description := None |})]
              (lit "standard")
              {| param_type := None; param_description := None |});
      [reflexivity | reflexivity | right; left; reflexivity].
Defined.

(** X9 at work: after the first turn of the conversation of two, the
    second leaves whole exchanges. *)
Lemma history_stays_paired_witness :
  exchanges (history_of (snd (web_turn Sample.utterance Sample.two_turns))) = true
  /\ exchanges
       (history_of (snd (web_turn (lit "Thanks")
                     (snd (web_turn Sample.utterance Sample.two_turns)))))
     = true.
Proof.
  assert (E : exchanges
                (history_of (snd (web_turn Sample.utterance Sample.two_turns)))
              = true) by (vm_compute; reflexivity).
  split; [exact E|].
  exact (history_stays_paired Json.loads Mock.World Mock.ollama_chat
           Mock.session_call_tool (lit "Thanks")
           (snd (web_turn Sample.utterance Sample.two_turns)) E).
Defined.

(** X10 at work: the question of the samples, typed with blanks around
    it. *)
Lemma console_round_is_web_turn_witness :
  run_one (prompt_of Sample.scenario) (Line (lit "  List my S3 buckets "))
          Sample.scenario
  = match web_turn (strip (lit "  List my S3 buckets ")) Sample.scenario with
    | (Ok answer, st') => (Answered answer, st')
    | (Raise e, st') => (Failed e, st')
    end.
Proof.
  apply (proj1 (console_round_is_web_turn Json.loads Mock.World
                  Mock.ollama_chat Mock.session_call_tool));
    [discriminate | vm_compute; reflexivity].
Defined.

(** X11 at work: the session of the samples ends at the word in capitals;
    the line typed after it is not read, nor any other. *)
Lemma console_stops_at_exit_witness :
  fst (run_one (prompt_of Sample.two_turns) (Line (lit " QUIT"))
               Sample.two_turns) = Exited
  /\ fst (run_rounds (prompt_of Sample.two_turns) Sample.typed Sample.two_turns)
  = [Answered Sample.narration; Skipped; Failed Sample.end_of_input; Exited]
  /\ run_rounds (prompt_of Sample.two_turns)
       (firstn (length (fst (run_rounds (prompt_of Sample.two_turns)
                               Sample.typed Sample.two_turns)))
               Sample.typed
          ++ [Line (lit "Are you there?")])
       Sample.two_turns
     = run_rounds (prompt_of Sample.two_turns) Sample.typed Sample.two_turns.
Proof.
  assert (E : fst (run_rounds (prompt_of Sample.two_turns) Sample.typed
                     Sample.two_turns)
              = [Answered Sample.narration; Skipped;
                 Failed Sample.end_of_input; Exited])
    by (vm_compute; reflexivity).
  destruct (console_stops_at_exit Json.loads Mock.World Mock.ollama_chat
              Mock.session_call_tool (prompt_of Sample.two_turns)
              Sample.typed Sample.two_turns) as (Hexit & _ & _ & Hcut).
  split; [|split; [exact E|]].
  - apply Hexit; right; exists (lit " QUIT"); split; [reflexivity|].
    vm_compute; right; left; reflexivity.
  - apply Hcut; rewrite E; do 3 right; left; reflexivity.
Defined.

(** X12 at work: the end of the input, met once and met three times in a
    row. *)
Lemma console_survives_failures_witness :
  (client (snd (run_one (prompt_of Sample.direct)
                  (InputError Sample.end_of_input) Sample.direct))
   = client Sample.direct
   /\ fst (run_rounds (prompt_of Sample.direct)
             [InputError Sample.end_of_input; Line Sample.utterance]
             Sample.direct)
      = [Failed Sample.end_of_input; Answered Sample.greeting])
  /\ run_rounds (prompt_of Sample.direct)
       (repeat (InputError Sample.end_of_input) 3) Sample.direct
     = (repeat (Failed Sample.end_of_input) 3, Sample.direct).
Proof.
  destruct (console_survives_failures Json.loads Mock.World Mock.ollama_chat
              Mock.session_call_tool) as [H1 H2].
  split; [|apply H2].
  destruct (H1 (prompt_of Sample.direct) (InputError Sample.end_of_input)
               Sample.direct Sample.end_of_input eq_refl) as [Hc Hgo].
  split; [exact Hc|].
  rewrite (Hgo [Line Sample.utterance]); vm_compute; reflexivity.
Defined.

(** X14 at work: requests that get no turn (no message, a zero, a body
    that is a list), and the one that gets a turn. *)
Lemma chat_answers_without_a_turn_witness :
  run_chat true (JDict []) Sample.scenario
  = (Ok {| Web.response := lit "Please provide a message";
           Web.status := 400 |}, Sample.scenario)
  /\ run_chat true (Sample.body (JInt 0)) Sample.scenario
     = (Ok {| Web.response := lit "Please provide a message";
              Web.status := 400 |}, Sample.scenario)
  /\ (exists e,
         run_chat true (JList []) Sample.scenario
         = (Raise e, Sample.scenario)
         /\ exn_kind e = AttributeError
         /\ exn_str e = lit "'" ++ Web.type_name (JList [])
                          ++ lit "' object has no attribute 'get'")
  /\ (true = true
      /\ exists d message,
           Sample.body (JStr Sample.utterance) = JDict d
           /\ Web.dict_get d (lit "message") = Some message
           /\ Web.truthy message = true)
  /\ run_chat true (Sample.body (JStr Sample.utterance)) Sample.scenario
     = (Ok {| Web.response := Sample.narration; Web.status := 200 |},
        snd (web_turn Sample.utterance Sample.scenario)).
Proof.
  destruct (chat_answers_without_a_turn Json.loads Mock.World Mock.ollama_chat
              Mock.session_call_tool Mock.process_object)
    as (_ & H2 & H3 & H4 & H5 & H6).
  split; [|split; [|split; [|split]]].
  - apply H2; reflexivity.
  - apply (H3 _ (JInt 0)); reflexivity.
  - apply H4; discriminate.
  - apply (H5 true (Sample.body (JStr Sample.utterance)) Sample.scenario
              (Ok {| Web.response := Sample.narration; Web.status := 200 |})
              (snd (web_turn Sample.utterance Sample.scenario))).
    + vm_compute; reflexivity.
    + vm_compute; discriminate.
  - etransitivity.
    + apply (H6 _ (JStr Sample.utterance)); reflexivity.
    + vm_compute; reflexivity.
Defined.

(** X15 at work: the question of the samples, asked through the route. *)
Lemma chat_outcomes_witness :
  exists reply,
    run_chat true (Sample.body (JStr Sample.utterance)) Sample.scenario
    = (Ok reply, snd (web_turn Sample.utterance Sample.scenario))
    /\ match fst (web_turn Sample.utterance Sample.scenario) with
       | Ok answer =>
           reply = {| Web.response := answer; Web.status := 200 |}
           /\ history_of (snd (web_turn Sample.utterance Sample.scenario))
              = history_of Sample.scenario
                  ++ [Msg user Sample.utterance; Msg assistant answer]
       | Raise e =>
           reply = {| Web.response := lit "Error: " ++ exn_str e;
                      Web.status := 500 |}
           /\ client (snd (web_turn Sample.utterance Sample.scenario))
              = client Sample.scenario
       end.
Proof.
  apply (chat_outcomes Json.loads Mock.World Mock.ollama_chat
           Mock.session_call_tool Mock.process_object
           [(lit "message", JStr Sample.utterance)]
           Sample.utterance Sample.scenario);
    [reflexivity | discriminate].
Defined.

(** X16 at work: the second turn of the conversation of two sees the
    first. *)
Lemma context_accumulates_witness :
  web_turn Sample.utterance Sample.two_turns
  = (Ok Sample.narration, snd (web_turn Sample.utterance Sample.two_turns))
  /\ exists rest,
       trace (snd (web_turn (lit "Thanks")
                     (snd (web_turn Sample.utterance Sample.two_turns))))
       = trace (snd (web_turn Sample.utterance Sample.two_turns))
           ++ EvChat (model_name (client Sample.two_turns))
                     (Msg system (prompt_of Sample.two_turns)
                        :: history_of Sample.two_turns
                        ++ [Msg user Sample.utterance;
                            Msg assistant Sample.narration;
                            Msg user (lit "Thanks")])
           :: rest.
Proof.
  assert (E : web_turn Sample.utterance Sample.two_turns
              = (Ok Sample.narration,
                 snd (web_turn Sample.utterance Sample.two_turns)))
    by (vm_compute; reflexivity).
  split; [exact E|].
  exact (context_accumulates Json.loads Mock.World Mock.ollama_chat
           Mock.session_call_tool Sample.utterance (lit "Thanks")
           Sample.narration Sample.two_turns
           (snd (web_turn Sample.utterance Sample.two_turns)) E).
Defined.

(** X17 at work: a line of blanks, and the word that ends the session. *)
Lemma console_and_web_differ_witness :
  (fst (run_one (prompt_of Sample.direct) (Line (lit "   ")) Sample.direct)
   = Skipped
   \/ fst (run_one (prompt_of Sample.direct) (Line (lit "   ")) Sample.direct)
      = Exited)
  /\ snd (run_one (prompt_of Sample.direct) (Line (lit "   ")) Sample.direct)
     = Sample.direct
  /\ exists reply st',
       run_chat true (JDict [(lit "message", JStr (lit "   "))]) Sample.direct
       = (Ok reply, st')
       /\ trace st' <> trace Sample.direct
       /\ (Web.status reply = 200 \/ Web.status reply = 500).
Proof.
  apply (console_and_web_differ Json.loads Mock.World Mock.ollama_chat
           Mock.session_call_tool Mock.process_object
           (prompt_of Sample.direct) (lit "   ")
           Sample.direct);
    [discriminate | left; vm_compute; reflexivity].
Defined.

(** X18 at work: the tool without schema of the samples, and a tool whose
    schema has properties but none in them. *)
Lemma catalog_edge_cases_witness :
  format_tools_for_llm
    ([Sample.check_resource_compliance] ++ [Sample.list_s3_buckets])
  = format_tools_for_llm [Sample.check_resource_compliance]
      ++ lit "- **" ++ lit "list_s3_buckets" ++ lit "**: "
      ++ lit "List all S3 buckets" ++ nl ++ nl
  /\ format_tools_for_llm
       ([] ++ [{| name := lit "ping"; description := lit "Ping";
                  inputSchema := Some {| properties := Some [];
                                         required := None;
                                         other_keys := false |} |}])
     = format_tools_for_llm []
         ++ lit "- **" ++ lit "ping" ++ lit "**: " ++ lit "Ping" ++ nl
         ++ lit "  Parameters:" ++ nl ++ nl.
Proof.
  destruct catalog_edge_cases as (_ & H2 & H3 & _).
  split.
  - apply (H2 [Sample.check_resource_compliance] Sample.list_s3_buckets).
    left; reflexivity.
  - apply (H3 [] {| name := lit "ping"; description := lit "Ping";
                    inputSchema := Some {| properties := Some [];
                                           required := None;
                                           other_keys := false |} |}
              {| properties := Some []; required := None;
                 other_keys := false |});
      reflexivity.
Defined.
